(** * Bourgogne geo enrichment: resolution pipeline, scorers and caches

    A shallow embedding of [scripts/enrich_bourgogne_geo.py] and of the
    client, the scorer and the main loop of
    [scripts/fetch_subregion_polygons.py], with the properties of the
    resolution pipeline, the caches and the summaries proved over it.

    Modelling conventions.
    - A Python [str] is a Rocq [string]; each character is read as a code
      point below 256 (Latin-1), which is enough for the literals and the
      character classes of the scripts.
    - A Python [float] is a finite value, an infinity or NaN.  A finite
      value is an exact rational [Q] that stands for the nearest double:
      binary64 rounding error is not modelled, overflow is.  The scores and
      confidences, which are always finite, are plain rationals, and the
      loops that compare scores are written over the scoring function, so
      that what is proved of them does not depend on how the weights are
      added.  [round(x, n)] is rounding to the nearest multiple of [10^-n],
      ties to even.
    - Values decoded by [json.loads] are terms of [json]; a Python [dict]
      decoded from JSON is an association list read by first match.
    - A Python exception is a value of [exn]; code that may raise lives in
      [res], stateful code in the state-and-exception monad [M].
    - The network is an oracle: the reply to the n-th HTTP request is a
      function of n and of the request. *)

From Stdlib Require Import QArith Qminmax Qround ZArith List String Ascii Lia Lqa Bool.
From stdpp Require Import gmap strings.
Import ListNotations.

Local Open Scope string_scope.

(** ** Python values and exceptions *)

Module Py.

Inductive exn : Type :=
  | TypeError
  | ValueError
  | AttributeError
  | KeyError
  | JSONDecodeError
  | URLError
  | TimeoutError
  | OverflowError.

Inductive res (A : Type) : Type :=
  | Return (a : A)
  | Raise (e : exn).
Arguments Return {A} a.
Arguments Raise {A} e.

Definition rbind {A B} (r : res A) (k : A -> res B) : res B :=
  match r with
  | Return a => k a
  | Raise e => Raise e
  end.

Notation "'let?' x ':=' r 'in' k" := (rbind r (fun x => k))
  (at level 10, x pattern, r at level 100, k at level 200).

(** [try: r except (TypeError, ValueError): h] *)
Definition catches_type_value (e : exn) : bool :=
  match e with
  | TypeError | ValueError => true
  | _ => false
  end.

Definition try_except {A} (r : res A) (catches : exn -> bool) (h : res A) : res A :=
  match r with
  | Return a => Return a
  | Raise e => if catches e then h else Raise e
  end.

(** A Python [float]: a finite value, an infinity or NaN. *)
Inductive float : Type :=
  | Finite (q : Q)
  | Infinite (negative : bool)
  | NaN.

Coercion Finite : Q >-> float.

(** Values produced by [json.loads]; [JNull] is Python's [None].  A
    number is an [int] or a [float]: an [int] is a finite value that is an
    integer, of any size; a [float] is finite within the range of a double,
    infinite or NaN ([json.loads] reads [Infinity] and [NaN]). *)
#[warnings="-register-all"]
Inductive json : Type :=
  | JNull
  | JBool (b : bool)
  | JNum (x : float)
  | JStr (s : string)
  | JArr (l : list json)
  | JObj (kv : list (string * json)).
Arguments JNum x%_Q.

Definition dict : Type := list (string * json).

(** [d.get(k, default)] *)
Fixpoint get_default (d : dict) (k : string) (default : json) : json :=
  match d with
  | [] => default
  | (k', v) :: rest => if String.eqb k k' then v else get_default rest k default
  end.

(** [d.get(k)] *)
Definition get (d : dict) (k : string) : json := get_default d k JNull.

(** [k in d] *)
Definition has_key (d : dict) (k : string) : bool :=
  existsb (fun kv => String.eqb k (fst kv)) d.

(** [x.get(k, default)] on a value that need not be a dict. *)
Definition attr_get (x : json) (k : string) (default : json) : res json :=
  match x with
  | JObj d => Return (get_default d k default)
  | _ => Raise AttributeError
  end.

Definition is_dict (x : json) : bool :=
  match x with JObj _ => true | _ => false end.

Definition is_list (x : json) : bool :=
  match x with JArr _ => true | _ => false end.

(** [isinstance(x, (int, float))]; [bool] is a subclass of [int]. *)
Definition is_number (x : json) : bool :=
  match x with JNum _ | JBool _ => true | _ => false end.

(** Truth value of a Python object. *)
Definition truthy (x : json) : bool :=
  match x with
  | JNull => false
  | JBool b => b
  | JNum (Finite q) => negb (Qeq_bool q 0)
  | JNum _ => true
  | JStr s => negb (String.eqb s "")
  | JArr l => match l with [] => false | _ => true end
  | JObj d => match d with [] => false | _ => true end
  end.

(** *** Characters and strings *)

(** [str.isspace] on code points below 256. *)
Definition is_space (c : ascii) : bool :=
  let n := nat_of_ascii c in
  ((9 <=? n)%nat && (n <=? 13)%nat) || ((28 <=? n)%nat && (n <=? 32)%nat)
  || (n =? 133)%nat || (n =? 160)%nat.

Definition is_digit (c : ascii) : bool :=
  let n := nat_of_ascii c in (48 <=? n)%nat && (n <=? 57)%nat.

Definition is_ascii_upper (c : ascii) : bool :=
  let n := nat_of_ascii c in (65 <=? n)%nat && (n <=? 90)%nat.

Definition is_ascii_lower (c : ascii) : bool :=
  let n := nat_of_ascii c in (97 <=? n)%nat && (n <=? 122)%nat.

(** [str.lower] on one code point below 256: A-Z and the Latin-1 capitals
    (U+00C0..U+00DE except the multiplication sign U+00D7). *)
Definition lower_char (c : ascii) : ascii :=
  let n := nat_of_ascii c in
  if is_ascii_upper c then ascii_of_nat (n + 32)
  else if (192 <=? n)%nat && (n <=? 222)%nat && negb (n =? 215)%nat then ascii_of_nat (n + 32)
  else c.

Fixpoint lower (s : string) : string :=
  match s with
  | EmptyString => EmptyString
  | String c t => String (lower_char c) (lower t)
  end.

Fixpoint lstrip (s : string) : string :=
  match s with
  | EmptyString => EmptyString
  | String c t => if is_space c then lstrip t else s
  end.

Fixpoint rstrip (s : string) : string :=
  match s with
  | EmptyString => EmptyString
  | String c t =>
      match rstrip t with
      | EmptyString => if is_space c then EmptyString else String c EmptyString
      | t' => String c t'
      end
  end.

(** [s.strip()] *)
Definition strip (s : string) : string := rstrip (lstrip s).

(** [needle in hay] *)
Fixpoint contains (needle hay : string) : bool :=
  String.prefix needle hay
  || match hay with
     | EmptyString => false
     | String _ t => contains needle t
     end.

(** [re.sub(cls+, " ", s)]: every maximal run of characters of the class
    becomes one space. *)
Fixpoint sub_runs (cls : ascii -> bool) (in_run : bool) (s : string) : string :=
  match s with
  | EmptyString => EmptyString
  | String c t =>
      if cls c then
        if in_run then sub_runs cls true t else String " " (sub_runs cls true t)
      else String c (sub_runs cls false t)
  end.

(** [s.split()]: the maximal runs of non-space characters. *)
Fixpoint split_ws (cur : string) (s : string) : list string :=
  match s with
  | EmptyString => match cur with EmptyString => [] | _ => [cur] end
  | String c t =>
      if is_space c then
        match cur with
        | EmptyString => split_ws EmptyString t
        | _ => cur :: split_ws EmptyString t
        end
      else split_ws (cur ++ String c EmptyString) t
  end.

Definition split (s : string) : list string := split_ws EmptyString s.

Definition str_in (s : string) (l : list string) : bool :=
  existsb (String.eqb s) l.

(** *** [float(...)] *)

Definition digit_val (c : ascii) : Z := Z.of_nat (nat_of_ascii c - 48).

(** Reads a maximal run of decimal digits: its value, its length and the
    rest of the input. *)
Fixpoint read_digits (acc : Z) (len : nat) (s : string) : Z * nat * string :=
  match s with
  | String c t => if is_digit c then read_digits (10 * acc + digit_val c) (S len) t
                  else (acc, len, s)
  | EmptyString => (acc, len, s)
  end.

Definition read_sign (s : string) : bool * string :=
  match s with
  | String "-" t => (true, t)
  | String "+" t => (false, t)
  | _ => (false, s)
  end.

Definition pow10 (e : Z) : Q :=
  if (0 <=? e)%Z then inject_Z (10 ^ e) else (/ inject_Z (10 ^ (- e)))%Q.

(** The exponent part, if any; [None] when the text is no exponent. *)
Definition read_exponent (s : string) : option Z :=
  match s with
  | EmptyString => Some 0%Z
  | String c t =>
      if Ascii.eqb c "e" || Ascii.eqb c "E" then
        let '(neg, t1) := read_sign t in
        match read_digits 0 0 t1 with
        | (_, O, _) => None
        | (e, _, EmptyString) => Some (if neg then (- e)%Z else e)
        | _ => None
        end
      else None
  end.

(** The least magnitude that rounds beyond the largest double: half an
    ulp above it, the tie going to the even neighbour [2^1024]. *)
Definition overflow_bound : Q := inject_Z (2 ^ 1024 - 2 ^ 970).

Definition overflows (v : Q) : bool :=
  Qle_bool overflow_bound v || Qle_bool overflow_bound (- v).

(** An underscore in a numeric literal stands between two digits. *)
Fixpoint underscores_ok (prev_digit : bool) (s : string) : bool :=
  match s with
  | EmptyString => true
  | String c t =>
      if Ascii.eqb c "_" then
        prev_digit
        && match t with
           | String c' _ => is_digit c'
           | EmptyString => false
           end
        && underscores_ok false t
      else underscores_ok (is_digit c) t
  end.

Fixpoint remove_underscores (s : string) : string :=
  match s with
  | EmptyString => EmptyString
  | String c t =>
      if Ascii.eqb c "_" then remove_underscores t else String c (remove_underscores t)
  end.

(** The decimal spelling of a float: digits with an optional fraction and
    an optional exponent, at least one digit before the exponent. *)
Definition read_decimal (s : string) : option Q :=
  let '(ip, ilen, s2) := read_digits 0 0 s in
  let '(fp, flen, s3) :=
    match s2 with
    | String "." t => read_digits 0 0 t
    | _ => (0%Z, O, s2)
    end in
  match (ilen + flen)%nat with
  | O => None
  | _ =>
      match read_exponent s3 with
      | None => None
      | Some e =>
          let m := (inject_Z (ip * 10 ^ Z.of_nat flen + fp) * pow10 (- Z.of_nat flen))%Q in
          Some (m * pow10 e)%Q
      end
  end.

(** [float(s)] for a string: surrounding white space, a sign, then
    "inf", "infinity" or "nan" in any case, or a decimal spelling, whose
    digits single underscores may separate.  A decimal too large for a
    double reads as an infinity; otherwise its exact value stands for the
    nearest double. *)
Definition float_of_string (s : string) : option float :=
  let t := strip s in
  if negb (underscores_ok false t) then None
  else
    let '(neg, body) := read_sign (remove_underscores t) in
    let word := lower body in
    if String.eqb word "inf" || String.eqb word "infinity" then Some (Infinite neg)
    else if String.eqb word "nan" then Some NaN
    else
      match read_decimal body with
      | None => None
      | Some v =>
          if overflows v then Some (Infinite neg)
          else Some (Finite (if neg then (- v)%Q else v))
      end.

(** [float(x)]: an [int] too large for a double raises [OverflowError]. *)
Definition py_float (x : json) : res float :=
  match x with
  | JNull => Raise TypeError
  | JBool b => Return (Finite (if b then 1%Q else 0%Q))
  | JNum (Finite q) => if overflows q then Raise OverflowError else Return (Finite q)
  | JNum f => Return f
  | JStr s => match float_of_string s with
              | Some f => Return f
              | None => Raise ValueError
              end
  | JArr _ | JObj _ => Raise TypeError
  end.

(** [max(a, b)] and [min(a, b)]: the first argument unless the second is
    strictly larger (smaller). *)
Definition py_max (a b : Q) : Q := if Qlt_le_dec a b then b else a.
Definition py_min (a b : Q) : Q := if Qlt_le_dec b a then b else a.

(** Nearest integer, ties to even. *)
Definition round_half_even (x : Q) : Z :=
  let f := Qfloor x in
  match (x - inject_Z f ?= 1 # 2)%Q with
  | Lt => f
  | Gt => (f + 1)%Z
  | Eq => if Z.even f then f else (f + 1)%Z
  end.

(** [round(x, 3)] *)
Definition round3 (x : Q) : Q := Qmake (round_half_even (x * 1000)%Q) 1000.

(** [round(x, 6)]; an infinity or NaN comes back as it is. *)
Definition round6 (x : float) : float :=
  match x with
  | Finite q => Finite (Qmake (round_half_even (q * 1000000)%Q) 1000000)
  | _ => x
  end.

End Py.

(** ** [scripts/enrich_bourgogne_geo.py]: data model and scorers *)

Module Enrich.
Import Py.

Definition COMMON_NOISE_TOKENS : list string :=
  ["domaine"; "domain"; "maison"; "les"; "du"; "de"; "la"; "le"; "des";
   "and"; "et"; "vinhos"; "wine"].

Record GeocodeResult : Type := mkGeocodeResult {
  lat : float;
  lng : float;
  display_name : string;
  query : string;
  source : string;
  confidence : Q
}.
Arguments mkGeocodeResult (lat lng)%_Q (display_name query source)%_string confidence%_Q.

(** [picked.query = q] *)
Definition set_query (g : GeocodeResult) (q : string) : GeocodeResult :=
  mkGeocodeResult (lat g) (lng g) (display_name g) q (source g) (confidence g).

(** [picked.source = s] *)
Definition set_source (g : GeocodeResult) (s : string) : GeocodeResult :=
  mkGeocodeResult (lat g) (lng g) (display_name g) (query g) s (confidence g).

(** [picked.confidence = c] *)
Definition set_confidence (g : GeocodeResult) (c : Q) : GeocodeResult :=
  mkGeocodeResult (lat g) (lng g) (display_name g) (query g) (source g) c.

(** [norm_text]: a falsy value gives the empty string; [re.sub] on a
    truthy value that is no string raises [TypeError]. *)
Definition norm_text (value : json) : res string :=
  if negb (truthy value) then Return ""
  else match value with
       | JStr s => Return (strip (sub_runs is_space false s))
       | _ => Raise TypeError
       end.

(** The complement of the class [A-Za-zÀ-ÿ0-9 ]. *)
Definition not_token_char (c : ascii) : bool :=
  let n := nat_of_ascii c in
  negb (is_ascii_upper c || is_ascii_lower c || (192 <=? n)%nat
        || is_digit c || (n =? 32)%nat).

(** [producer_tokens]; the set is a list without duplicates. *)
Definition producer_tokens (name : string) : list string :=
  let cleaned := lower (sub_runs not_token_char false name) in
  remove_dups
    (List.filter (fun p => (4 <=? String.length p)%nat && negb (str_in p COMMON_NOISE_TOKENS))
            (split cleaned)).

(** [x or ""] for an optional string argument. *)
Definition or_empty (x : option string) : string :=
  match x with Some s => s | None => "" end.

(** [item.get] is there for a dict only. *)
Definition as_dict (item : json) : res dict :=
  match item with
  | JObj d => Return d
  | _ => Raise AttributeError
  end.

(** [d[k]] *)
Definition index (d : dict) (k : string) : res json :=
  if has_key d k then Return (get d k) else Raise KeyError.

(** Lines 259-260 of [pick_best_geocode]: the two conversions guarded by
    the [try]. *)
Definition parse_coords (item : json) : res (dict * float * float) :=
  let? d := as_dict item in
  let? la := py_float (get d "lat") in
  let? lo := py_float (get d "lon") in
  Return (d, la, lo).

Definition bonus (b : bool) (w : Q) : Q := if b then w else 0%Q.

(** [item.get("address") if isinstance(item.get("address"), dict) else {}] *)
Definition address_of (item : dict) : dict :=
  match get item "address" with JObj a => a | _ => [] end.

(** [sum(1 for t in tokens if t in blob)] *)
Definition count_matched (tokens : list string) (blob : string) : nat :=
  length (List.filter (fun t => contains t blob) tokens).

Definition token_bonus (tokens : list string) (blob : string) : Q :=
  match tokens with
  | [] => 0%Q
  | _ => py_min 1.2 (inject_Z (Z.of_nat (count_matched tokens blob)) * 0.4)
  end.

(** Lines 264-292 of [pick_best_geocode]: the score of one candidate whose
    coordinates parsed. *)
Definition score_geocode (p_tokens : list string) (exp_region : string) (item : dict)
  : res Q :=
  let? display := norm_text (get item "display_name") in
  let display_l := lower display in
  let address := address_of item in
  let? item_class := norm_text (get_default item "class" (JStr "")) in
  let item_class := lower item_class in
  let? item_type := norm_text (get_default item "type" (JStr "")) in
  let item_type := lower item_type in
  let score := 0%Q in
  let score := (score + bonus (str_in item_class ["shop"; "office"; "tourism"; "amenity"]) 0.6)%Q in
  let score := (score + bonus (contains "win" item_type || contains "vine" item_type
                               || contains "wine" display_l) 0.6)%Q in
  let score := (score + token_bonus p_tokens display_l)%Q in
  let? country := norm_text (get_default address "country_code"
                                         (get_default item "country_code" (JStr ""))) in
  let country := lower country in
  let score := (score + bonus (String.eqb country "fr") 0.3)%Q in
  let? state := norm_text (get_default address "state" (JStr "")) in
  let state := lower state in
  let? county := norm_text (get_default address "county" (JStr "")) in
  let county := lower county in
  let region_blob := state ++ " " ++ county ++ " " ++ display_l in
  let score := (score + bonus (contains "bourgogne" region_blob) 0.6)%Q in
  let score := (score + bonus (negb (String.eqb exp_region "")
                               && contains exp_region display_l) 0.4)%Q in
  Return score.

(** The [for] loop of [pick_best_geocode] with its two loop variables.
    The loop is written over [score_of], the score its body gives a
    candidate whose coordinates parsed: what is proved of the loop then
    holds however the weights are added up, in binary64 as the interpreter
    does or exactly as [score_geocode] does. *)
Fixpoint scan_geocode_by (score_of : dict -> res Q)
    (results : list json) (best_score : Q) (best_item : option dict)
  : res (Q * option dict) :=
  match results with
  | [] => Return (best_score, best_item)
  | item :: rest =>
      match parse_coords item with
      | Raise e =>
          if catches_type_value e
          then scan_geocode_by score_of rest best_score best_item
          else Raise e
      | Return (d, _, _) =>
          let? score := score_of d in
          if Qlt_le_dec best_score score
          then scan_geocode_by score_of rest score (Some d)
          else scan_geocode_by score_of rest best_score best_item
      end
  end.

Abbreviation scan_geocode p_tokens exp_region :=
  (scan_geocode_by (score_geocode p_tokens exp_region)).

(** [pick_best_geocode] over the score of its loop body; an argument left
    at its default is [None]. *)
Definition pick_best_geocode_by (score_of : list string -> string -> dict -> res Q)
    (results : list json)
    (producer_name expected_region : option string) : res (option GeocodeResult) :=
  match results with
  | [] => Return None
  | _ =>
      let p_tokens := producer_tokens (or_empty producer_name) in
      let exp_region := lower (or_empty expected_region) in
      let? (best_score, best_item) :=
        scan_geocode_by (score_of p_tokens exp_region) results (-1.0)%Q None in
      match best_item with
      | None => Return None
      | Some [] => Return None
      | Some best_item =>
          let confidence := py_min 0.98 (py_max 0.2 (best_score / 2.8)) in
          let? la := index best_item "lat" in
          let? la := py_float la in
          let? lo := index best_item "lon" in
          let? lo := py_float lo in
          let? dn := norm_text (get best_item "display_name") in
          Return (Some (mkGeocodeResult la lo dn "" "nominatim" (round3 confidence)))
      end
  end.

(** [pick_best_geocode] *)
Definition pick_best_geocode : list json -> option string -> option string
                               -> res (option GeocodeResult) :=
  pick_best_geocode_by score_geocode.

(** [pick_best_wikidata_entity]: score of one entity. *)
Definition score_entity (tokens : list string) (entity : dict) : res Q :=
  let? label := norm_text (get entity "label") in
  let? description := norm_text (get entity "description") in
  let blob := lower (label ++ " " ++ description) in
  let score := 0%Q in
  let score := (score + bonus (existsb (fun k => contains k blob)
      ["winery"; "wine producer"; "wine house"; "vineyard"; "viticulture"]) 1.0)%Q in
  let score := (score + bonus (contains "domaine" blob || contains "chateau" blob
                               || contains "maison" blob) 0.4)%Q in
  let score := (score + token_bonus tokens blob)%Q in
  let score := (score + bonus (contains "france" blob || contains "burgundy" blob
                               || contains "bourgogne" blob) 0.2)%Q in
  Return score.

(** The [for] loop of [pick_best_wikidata_entity], over the score
    [score_of] its body gives an entity. *)
Fixpoint scan_entities_by (score_of : dict -> res Q) (results : list json)
    (best_score : Q) (best : option dict) : res (option dict) :=
  match results with
  | [] => Return best
  | entity :: rest =>
      match entity with
      | JObj d =>
          let? score := score_of d in
          if Qlt_le_dec best_score score
          then scan_entities_by score_of rest score (Some d)
          else scan_entities_by score_of rest best_score best
      | _ => scan_entities_by score_of rest best_score best
      end
  end.

Abbreviation scan_entities tokens := (scan_entities_by (score_entity tokens)).

(** [pick_best_wikidata_entity] over the score of its loop body. *)
Definition pick_best_wikidata_entity_by (score_of : list string -> dict -> res Q)
    (results : list json) (producer : string) : res (option dict) :=
  match results with
  | [] => Return None
  | _ => scan_entities_by (score_of (producer_tokens producer)) results (-1.0)%Q None
  end.

(** [pick_best_wikidata_entity] *)
Definition pick_best_wikidata_entity : list json -> string -> res (option dict) :=
  pick_best_wikidata_entity_by score_entity.

End Enrich.

(** ** The world: clock, network and the shared cache *)

Module World.
Import Py.

(** An outbound request, named by its endpoint and its variable part (the
    other query parameters and the headers are constants of the scripts). *)
Inductive request : Type :=
  | NominatimSearch (q : string)
  | WikidataSearch (q : string)
  | WikidataEntity (entity_id : string)
  | PolygonSearch (q : string).

(** The text of a response: [json.loads] either decodes it or raises. *)
Inductive body : Type :=
  | NotJson
  | Json (j : json).

(** What [urlopen] followed by [read] does: raise, or hand over a body. *)
Inductive reply : Type :=
  | Fault (e : exn)
  | Body (b : body).

Record network : Type := mkNetwork {
  reply_of : nat -> request -> reply;
  latency : nat -> request -> Q
}.

Inductive event : Type :=
  | EvSleep (d : Q)
  | EvHttp (r : request).

(** The mutable state the clients touch.  Times are kept in lowest terms.  [cache] is the one dictionary
    that [NominatimClient] owns and [WikidataClient] aliases. *)
Record state : Type := mkState {
  cache : gmap string json;
  nominatim_last : Q;
  wikidata_last : Q;
  now : Q;
  log : list event
}.

Definition is_http (ev : event) : bool :=
  match ev with EvHttp _ => true | EvSleep _ => false end.

Definition is_sleep (ev : event) : bool :=
  match ev with EvSleep _ => true | EvHttp _ => false end.

(** Requests sent so far. *)
Definition sent (s : state) : list event := List.filter is_http (log s).

Definition M (A : Type) : Type := state -> res A * state.

Definition ret {A} (a : A) : M A := fun s => (Return a, s).

Definition raise {A} (e : exn) : M A := fun s => (Raise e, s).

Definition bind {A B} (m : M A) (k : A -> M B) : M B :=
  fun s => match m s with
           | (Return a, s') => k a s'
           | (Raise e, s') => (Raise e, s')
           end.

Definition lift {A} (r : res A) : M A := fun s => (r, s).

Notation "'let!' x ':=' m 'in' k" := (bind m (fun x => k))
  (at level 10, x pattern, m at level 100, k at level 200).

Definition set_cache (k : string) (v : json) : M unit :=
  fun s => (Return tt,
            mkState (<[k := v]> (cache s)) (nominatim_last s) (wikidata_last s)
                    (now s) (log s)).

(** [time.sleep(d)] *)
Definition sleep (d : Q) : M unit :=
  fun s => (Return tt,
            mkState (cache s) (nominatim_last s) (wikidata_last s)
                    (Qred (now s + d)) (log s ++ [EvSleep d])).

(** The rate limit at the head of every request method. *)
Definition throttle (last min_delay : Q) : M unit :=
  fun s => let elapsed := Qred (now s - last) in
           if Qlt_le_dec elapsed min_delay
           then sleep (Qred (min_delay - elapsed)) s
           else (Return tt, s).

Section Net.
Variable net : network.

(** [with urlopen(req, timeout=...) as res: raw = res.read().decode(...)] *)
Definition urlopen (r : request) : M body :=
  fun s => let n := length (sent s) in
           let s' := mkState (cache s) (nominatim_last s) (wikidata_last s)
                             (Qred (now s + latency net n r)) (log s ++ [EvHttp r]) in
           match reply_of net n r with
           | Fault e => (Raise e, s')
           | Body b => (Return b, s')
           end.

End Net.

(** [json.loads(raw)] *)
Definition json_loads (b : body) : res json :=
  match b with
  | NotJson => Raise JSONDecodeError
  | Json j => Return j
  end.

Definition catches_json_decode (e : exn) : bool :=
  match e with JSONDecodeError => true | _ => false end.

End World.

(** ** [scripts/enrich_bourgogne_geo.py]: clients and resolution tiers *)

Module Pipeline.
Import Py Enrich World.

Definition get_state : M state := fun s => (Return s, s).

(** [self.last_request = time.time()] of [NominatimClient] *)
Definition touch_nominatim : M unit :=
  fun s => (Return tt, mkState (cache s) (now s) (wikidata_last s) (now s) (log s)).

(** [self.last_request = time.time()] of [WikidataClient] *)
Definition touch_wikidata : M unit :=
  fun s => (Return tt, mkState (cache s) (nominatim_last s) (now s) (now s) (log s)).

(** [cached if isinstance(cached, list) else []] *)
Definition list_or_empty (x : json) : list json :=
  match x with JArr l => l | _ => [] end.

(** [x.get(k, default) if isinstance(x, dict) else default] *)
Definition get_if_dict (x : json) (k : string) (default : json) : json :=
  match x with JObj d => get_default d k default | _ => default end.

Section Clients.
Variable net : network.
Variable min_delay : Q.
Variable wikidata_min_delay : Q.

(** [NominatimClient._request] *)
Definition nominatim_request (query : string) : M (list json) :=
  let! s := get_state in
  let! _ := throttle (nominatim_last s) min_delay in
  let! raw := urlopen net (NominatimSearch query) in
  let! _ := touch_nominatim in
  let! payload := lift (try_except (json_loads raw) catches_json_decode
                                   (Return (JArr []))) in
  if negb (is_list payload) then ret [] else ret (list_or_empty payload).

(** [NominatimClient.search] *)
Definition nominatim_search (query : string) : M (list json) :=
  let key := lower (strip query) in
  let! s := get_state in
  match cache s !! key with
  | Some cached => ret (list_or_empty cached)
  | None =>
      let! results := nominatim_request query in
      let! _ := set_cache key (JArr results) in
      ret results
  end.

(** [WikidataClient._request_json] *)
Definition wikidata_request_json (r : request) : M json :=
  let! s := get_state in
  let! _ := throttle (wikidata_last s) wikidata_min_delay in
  let! raw := urlopen net r in
  let! _ := touch_wikidata in
  lift (try_except (json_loads raw) catches_json_decode (Return (JObj []))).

(** [WikidataClient.search_entities] *)
Definition search_entities (query : string) : M (list json) :=
  let key := "wd_search::" ++ lower (strip query) in
  let! s := get_state in
  match cache s !! key with
  | Some cached => ret (list_or_empty cached)
  | None =>
      let! payload := wikidata_request_json (WikidataSearch query) in
      let results := get_if_dict payload "search" (JArr []) in
      let results := list_or_empty results in
      let! _ := set_cache key (JArr results) in
      ret results
  end.

(** The coordinate claim of [entity_id] in an entity document (lines
    208-222 of [entity_coordinates]). *)
Definition extract_coords (payload : json) (entity_id : string) : res (option (float * float)) :=
  match payload with
  | JObj p =>
      let entities := get_default p "entities" (JObj []) in
      let entity := get_if_dict entities entity_id (JObj []) in
      let claims := get_if_dict entity "claims" (JObj []) in
      let p625 := get_if_dict claims "P625" (JArr []) in
      match p625 with
      | JArr (first :: _) =>
          let mainsnak := get_if_dict first "mainsnak" (JObj []) in
          let datavalue := get_if_dict mainsnak "datavalue" (JObj []) in
          let value := get_if_dict datavalue "value" (JObj []) in
          let? la := attr_get value "latitude" JNull in
          let? lo := attr_get value "longitude" JNull in
          if is_number la && is_number lo then
            let? la := py_float la in
            let? lo := py_float lo in
            Return (Some (la, lo))
          else Return None
      | _ => Return None
      end
  | _ => Return None
  end.

(** The cached form of a coordinate lookup. *)
Definition coords_entry (coords : option (float * float)) : json :=
  match coords with
  | Some (la, lo) => JObj [("lat", JNum la); ("lng", JNum lo)]
  | None => JObj [("lat", JNull); ("lng", JNull)]
  end.

(** The cache-hit branch of [entity_coordinates]. *)
Definition cached_coords (cached : json) : res (option (float * float)) :=
  match cached with
  | JObj d =>
      if is_number (get d "lat") && is_number (get d "lng") then
        let? la := index d "lat" in
        let? la := py_float la in
        let? lo := index d "lng" in
        let? lo := py_float lo in
        Return (Some (la, lo))
      else Return None
  | _ => Return None
  end.

(** [WikidataClient.entity_coordinates] *)
Definition entity_coordinates (entity_id : string) : M (option (float * float)) :=
  let key := "wd_entity::" ++ entity_id in
  let! s := get_state in
  match cache s !! key with
  | Some cached => lift (cached_coords cached)
  | None =>
      let! payload := wikidata_request_json (WikidataEntity entity_id) in
      let! coords := lift (extract_coords payload entity_id) in
      let! _ := set_cache key (coords_entry coords) in
      ret coords
  end.

(** [picked.query = q; picked.source = ...; picked.confidence = max(...)] *)
Definition as_sub_region (picked : GeocodeResult) (q : string) : GeocodeResult :=
  let picked := set_query picked q in
  let picked := set_source picked "sub_region_geocode" in
  set_confidence picked (py_max (confidence picked) 0.7).

Definition subregion_queries (sub_region : string) : list string :=
  [sub_region ++ ", Bourgogne, France"; sub_region ++ ", Burgundy, France"].

(** The [for q in queries] loop of [try_geocode_subregion]. *)
Fixpoint subregion_loop (sub_region : string) (queries : list string)
  : M (option GeocodeResult) :=
  match queries with
  | [] => ret None
  | q :: rest =>
      let! results := nominatim_search q in
      let! picked := lift (pick_best_geocode results None (Some sub_region)) in
      match picked with
      | Some picked => ret (Some (as_sub_region picked q))
      | None => subregion_loop sub_region rest
      end
  end.

Definition try_geocode_subregion (sub_region : string) : M (option GeocodeResult) :=
  subregion_loop sub_region (subregion_queries sub_region).

Definition producer_queries (producer primary_sub_region : string) : list string :=
  (if String.eqb primary_sub_region "" then []
   else [producer ++ ", " ++ primary_sub_region ++ ", Bourgogne, France"])
  ++ [producer ++ ", Bourgogne, France";
      producer ++ " winery, Bourgogne, France";
      producer ++ " domaine, Bourgogne, France";
      producer ++ ", Burgundy, France"].

Fixpoint producer_loop (producer primary_sub_region : string) (queries : list string)
  : M (option GeocodeResult) :=
  match queries with
  | [] => ret None
  | q :: rest =>
      let! results := nominatim_search q in
      let! picked := lift (pick_best_geocode results (Some producer)
                                             (Some primary_sub_region)) in
      match picked with
      | Some picked => ret (Some (set_source (set_query picked q) "producer_geocode"))
      | None => producer_loop producer primary_sub_region rest
      end
  end.

Definition try_geocode_producer (producer primary_sub_region : string)
  : M (option GeocodeResult) :=
  producer_loop producer primary_sub_region (producer_queries producer primary_sub_region).

(** "château", with its code point 226. *)
Definition chateau_accent : string := "ch" ++ String (ascii_of_nat 226) "teau".

Definition wikidata_queries (producer : string) : list string :=
  let producer_l := lower producer in
  [producer]
  ++ (if contains "domaine" producer_l then [] else ["Domaine " ++ producer])
  ++ (if contains "maison" producer_l then [] else ["Maison " ++ producer])
  ++ (if negb (contains "chateau" producer_l) && negb (contains chateau_accent producer_l)
      then ["Chateau " ++ producer] else [])
  ++ [producer ++ " winery"].

Fixpoint wikidata_loop (producer : string) (queries : list string)
  : M (option GeocodeResult) :=
  match queries with
  | [] => ret None
  | query :: rest =>
      let! entities := search_entities query in
      let! best := lift (pick_best_wikidata_entity entities producer) in
      match best with
      | None | Some [] => wikidata_loop producer rest
      | Some best =>
          let! entity_id := lift (norm_text (get best "id")) in
          if String.eqb entity_id "" then wikidata_loop producer rest
          else
            let! coords := entity_coordinates entity_id in
            match coords with
            | None => wikidata_loop producer rest
            | Some (la, lo) =>
                let! label := lift (norm_text (get best "label")) in
                let label := if String.eqb label "" then producer else label in
                let! description := lift (norm_text (get best "description")) in
                let display_name :=
                  if String.eqb description "" then label
                  else label ++ " (" ++ description ++ ")" in
                ret (Some (mkGeocodeResult la lo display_name query
                                           "producer_wikidata" 0.74))
            end
      end
  end.

Definition try_wikidata_producer (producer : string) : M (option GeocodeResult) :=
  wikidata_loop producer (wikidata_queries producer).

(** *** [run]: the resolution stages *)

(** [Counter(names)], in insertion order. *)
Fixpoint counter_incr (k : string) (c : list (string * nat)) : list (string * nat) :=
  match c with
  | [] => [(k, 1%nat)]
  | (k', n) :: rest =>
      if String.eqb k k' then (k', S n) :: rest else (k', n) :: counter_incr k rest
  end.

Definition Counter (names : list string) : list (string * nat) :=
  fold_left (fun c k => counter_incr k c) names [].

(** [c.most_common(1)]: the first entry with the greatest count. *)
Fixpoint most_common_from (c : list (string * nat)) (best : string * nat) : string * nat :=
  match c with
  | [] => best
  | (k, n) :: rest =>
      if (snd best <? n)%nat then most_common_from rest (k, n)
      else most_common_from rest best
  end.

Definition most_common_1 (c : list (string * nat)) : option (string * nat) :=
  match c with
  | [] => None
  | e :: rest => Some (most_common_from rest e)
  end.

(** [c.most_common(1)[0][0] if c else ""] *)
Definition primary_of (sub_counter : list (string * nat)) : string :=
  match most_common_1 sub_counter with
  | Some (k, _) => k
  | None => ""
  end.

(** [sorted(...)] on strings, by insertion. *)
Fixpoint insert_sorted (x : string) (l : list string) : list string :=
  match l with
  | [] => [x]
  | y :: rest => if String.leb x y then x :: l else y :: insert_sorted x rest
  end.

Definition sorted (l : list string) : list string :=
  fold_right insert_sorted [] l.

(** [norm_text(i.get(k)) for i in items if norm_text(i.get(k))] *)
Fixpoint field_texts (k : string) (items : list dict) : res (list string) :=
  match items with
  | [] => Return []
  | i :: rest =>
      let? t := norm_text (get i k) in
      let? ts := field_texts k rest in
      Return (if String.eqb t "" then ts else t :: ts)
  end.

(** Lines 505-509: the wines of each producer, in input order. *)
Fixpoint group_by_producer (items : list dict) (acc : gmap string (list dict))
  : res (gmap string (list dict)) :=
  match items with
  | [] => Return acc
  | item :: rest =>
      let? p := norm_text (get item "producer") in
      if String.eqb p "" then group_by_producer rest acc
      else group_by_producer rest (<[p := (default [] (acc !! p) ++ [item])%list]> acc)
  end.

Definition hardcoded_region : GeocodeResult :=
  mkGeocodeResult 47.052 4.383 "Bourgogne, France" "hardcoded"
                  "hardcoded_region_fallback" 0.3.

Record producer_row : Type := mkProducerRow {
  row_producer : string;
  row_wine_count : nat;
  row_primary_sub_region : string;
  row_location : GeocodeResult
}.

Record wine_map : Type := mkWineMap {
  map_lat : float;
  map_lng : float;
  map_source : string;
  map_confidence : Q
}.

Record run_result : Type := mkRunResult {
  region_geo : GeocodeResult;
  sub_region_geo : gmap string GeocodeResult;
  producer_geo : gmap string GeocodeResult;
  producer_rows : list producer_row;
  enriched_maps : list wine_map
}.

(** Lines 484-493. *)
Definition resolve_region : M GeocodeResult :=
  let! region_geo := try_geocode_subregion "Bourgogne" in
  match region_geo with
  | Some g => ret g
  | None => ret hardcoded_region
  end.

(** Lines 498-502. *)
Fixpoint geocode_subregions (sub_regions : list string)
    (sub_region_geo : gmap string GeocodeResult) : M (gmap string GeocodeResult) :=
  match sub_regions with
  | [] => ret sub_region_geo
  | sr :: rest =>
      let! geo := try_geocode_subregion sr in
      match geo with
      | Some g => geocode_subregions rest (<[sr := g]> sub_region_geo)
      | None => geocode_subregions rest sub_region_geo
      end
  end.

(** Lines 528-552: the two fallback tiers of a producer. *)
Definition producer_fallback (region_geo : GeocodeResult)
    (sub_region_geo : gmap string GeocodeResult) (primary_sub_region : string)
  : GeocodeResult :=
  match sub_region_geo !! primary_sub_region with
  | Some srg =>
      mkGeocodeResult (lat srg) (lng srg) (display_name srg) (query srg)
                      "producer_sub_region_fallback" 0.55
  | None =>
      mkGeocodeResult (lat region_geo) (lng region_geo) (display_name region_geo)
                      (query region_geo) "producer_region_fallback" 0.35
  end.

(** Lines 521-552: one producer through its tiers. *)
Definition resolve_producer (region_geo : GeocodeResult)
    (sub_region_geo : gmap string GeocodeResult) (producer primary_sub_region : string)
  : M GeocodeResult :=
  let! geo := try_geocode_producer producer primary_sub_region in
  let! geo := match geo with
              | Some g => ret (Some g)
              | None => try_wikidata_producer producer
              end in
  match geo with
  | Some g => ret g
  | None => ret (producer_fallback region_geo sub_region_geo primary_sub_region)
  end.

(** Lines 515-579: the loop over [producers_sorted], without the prices of
    lines 554-559, which the row of the model does not carry. *)
Fixpoint geocode_producers (region_geo : GeocodeResult)
    (sub_region_geo : gmap string GeocodeResult)
    (wines_by_producer : gmap string (list dict)) (producers : list string)
    (producer_geo : gmap string GeocodeResult) (rows : list producer_row)
  : M (gmap string GeocodeResult * list producer_row) :=
  match producers with
  | [] => ret (producer_geo, rows)
  | producer :: rest =>
      let wines := default [] (wines_by_producer !! producer) in
      let! sub_names := lift (field_texts "sub_region" wines) in
      let sub_counter := Counter sub_names in
      let! grape_names := lift (field_texts "grape" wines) in
      let primary_sub_region := primary_of sub_counter in
      let! geo := resolve_producer region_geo sub_region_geo producer primary_sub_region in
      geocode_producers region_geo sub_region_geo wines_by_producer rest
        (<[producer := geo]> producer_geo)
        (rows ++ [mkProducerRow producer (length wines) primary_sub_region geo])
  end.

(** Lines 584-606 and 619-624: the map block of one wine. *)
Definition wine_coords (region_geo : GeocodeResult)
    (sub_region_geo producer_geo : gmap string GeocodeResult)
    (producer sub_region : string) : wine_map :=
  let '(la, lo, coord_source, coord_conf) :=
    match (if String.eqb sub_region "" then None else sub_region_geo !! sub_region) with
    | Some g => (lat g, lng g, "sub_region", py_max 0.68 (confidence g))
    | None =>
        match (if String.eqb producer "" then None else producer_geo !! producer) with
        | Some g => (lat g, lng g, "producer", py_max 0.5 (confidence g))
        | None => (lat region_geo, lng region_geo, "region", 0.3%Q)
        end
    end in
  mkWineMap (round6 la) (round6 lo) coord_source (round3 coord_conf).

(** Lines 583-632: the wine-level loop. *)
Fixpoint enrich_wines (region_geo : GeocodeResult)
    (sub_region_geo producer_geo : gmap string GeocodeResult) (items : list dict)
  : res (list wine_map) :=
  match items with
  | [] => Return []
  | wine :: rest =>
      let? producer := norm_text (get wine "producer") in
      let? sub_region := norm_text (get wine "sub_region") in
      let? grape := norm_text (get wine "grape") in
      let m := wine_coords region_geo sub_region_geo producer_geo producer sub_region in
      let? desc := norm_text (get wine "description") in
      let? ms := enrich_wines region_geo sub_region_geo producer_geo rest in
      Return (m :: ms)
  end.

(** [run], lines 474-632: the resolution stages up to the wine-level
    enrichment; [None] is the early exit with status 1 on an empty input.
    The summaries of prices and grapes, the GeoJSON layers and the files
    written (lines 633 on) are outside the model, and so are the exceptions
    they may raise: a run of the script completes less often than [run]
    returns, and nothing here is stated of a run's completing. *)
Definition run (items : list dict) : M (option run_result) :=
  match items with
  | [] => ret None
  | _ =>
      let! region_geo := resolve_region in
      let! sub_names := lift (field_texts "sub_region" items) in
      let sub_regions := sorted (remove_dups sub_names) in
      let! sub_region_geo := geocode_subregions sub_regions ∅ in
      let! wines_by_producer := lift (group_by_producer items ∅) in
      let producers_sorted := sorted (map fst (map_to_list wines_by_producer)) in
      let! (producer_geo, rows) :=
        geocode_producers region_geo sub_region_geo wines_by_producer
                          producers_sorted ∅ [] in
      let! maps := lift (enrich_wines region_geo sub_region_geo producer_geo items) in
      ret (Some (mkRunResult region_geo sub_region_geo producer_geo rows maps))
  end.

End Clients.
End Pipeline.

(** ** [scripts/fetch_subregion_polygons.py]: client and polygon scorer *)

Module Polygons.
Import Py World.

Definition ALLOWED_CLASSES : list string := ["boundary"; "place"; "landuse"; "natural"].

Definition ALLOWED_TYPES : list string :=
  ["administrative"; "village"; "municipality"; "hamlet"; "quarter"; "city";
   "town"; "county"; "region"; "local_authority"; "suburb"].

Definition DISALLOWED_TYPES : list string :=
  ["place_of_worship"; "bicycle_parking"; "alcohol"; "restaurant"; "hotel";
   "supermarket"; "house"; "yes"].

Record PolygonCandidate : Type := mkPolygonCandidate {
  geojson : dict;
  display_name : string;
  item_type : string;
  item_class : string;
  lat : float;
  lon : float;
  score : Q
}.
Arguments mkPolygonCandidate geojson (display_name item_type item_class)%_string
  (lat lon score)%_Q.

Section Scorer.
(** [str(x)] on a value that is no string: the text Python prints for it,
    left open here. *)
Variable repr : json -> string.

(** [str(x)] *)
Definition py_str (x : json) : string :=
  match x with
  | JStr s => s
  | _ => repr x
  end.

Definition bonus (b : bool) (w : Q) : Q := if b then w else 0%Q.

(** [score_candidate]; [Return None] is its [return None]. *)
Definition score_candidate (item : json) (sub_region : string)
  : res (option PolygonCandidate) :=
  let? item := match item with JObj d => Return d | _ => Raise AttributeError end in
  match get item "geojson" with
  | JObj geo =>
      let geo_type := py_str (get_default geo "type" (JStr "")) in
      if negb (str_in geo_type ["Polygon"; "MultiPolygon"]) then Return None
      else
        let display := py_str (get_default item "display_name" (JStr "")) in
        let display_l := lower display in
        let sr_l := lower sub_region in
        let addr := match get item "address" with JObj a => a | _ => [] end in
        let item_type := py_str (get_default item "type" (JStr "")) in
        let item_class := py_str (get_default item "class" (JStr "")) in
        if str_in item_type DISALLOWED_TYPES then Return None
        else if negb (String.eqb item_class "") && negb (str_in item_class ALLOWED_CLASSES)
        then Return None
        else if negb (String.eqb item_type "") && negb (str_in item_type ALLOWED_TYPES)
        then Return None
        else
          let score := 0%Q in
          let score := (score + bonus (contains sr_l display_l) 1.6)%Q in
          let score := (score + bonus (contains "bourgogne" display_l) 0.8)%Q in
          let score := (score + bonus (str_in item_type
              ["administrative"; "village"; "municipality"; "hamlet"; "quarter"; "city"])
              0.4)%Q in
          let score := (score + bonus (str_in item_class ["boundary"; "place"]) 0.4)%Q in
          let state := lower (py_str (get_default addr "state" (JStr ""))) in
          let county := lower (py_str (get_default addr "county" (JStr ""))) in
          let score := (score + bonus (contains "bourgogne" state
                                       || contains "cote-d'or" county
                                       || contains "saone-et-loire" county
                                       || contains "yonne" county) 0.4)%Q in
          match py_float (get item "lat") with
          | Raise e => if catches_type_value e then Return None else Raise e
          | Return la =>
              match py_float (get item "lon") with
              | Raise e => if catches_type_value e then Return None else Raise e
              | Return lo =>
                  Return (Some (mkPolygonCandidate geo display item_type item_class
                                                   la lo score))
              end
          end
  | _ => Return None
  end.

End Scorer.

(** [candidates.sort(key=lambda c: c.score, reverse=True)].  Python's sort
    is stable, also under [reverse=True]: candidates of equal score keep
    their order.  The sort is by insertion from the right, a candidate
    going in front of the first one whose score is not greater. *)
Fixpoint insert_desc (c : PolygonCandidate) (l : list PolygonCandidate)
  : list PolygonCandidate :=
  match l with
  | [] => [c]
  | c' :: rest =>
      if Qlt_le_dec (score c) (score c') then c' :: insert_desc c rest
      else c :: l
  end.

Definition sort_desc (l : list PolygonCandidate) : list PolygonCandidate :=
  fold_right insert_desc [] l.

Section Choice.
(** [choose_polygon] is written over [scorer], what [score_candidate]
    makes of an item: the choice among the candidates then holds however
    their scores were added up. *)
Variable scorer : json -> string -> res (option PolygonCandidate).

(** [[c for c in (score_candidate(item, sub_region) for item in results) if c]] *)
Fixpoint scored_candidates_by (results : list json) (sub_region : string)
  : res (list PolygonCandidate) :=
  match results with
  | [] => Return []
  | item :: rest =>
      let? c := scorer item sub_region in
      let? cs := scored_candidates_by rest sub_region in
      Return (match c with Some c => c :: cs | None => cs end)
  end.

Definition choose_polygon_by (results : list json) (sub_region : string)
  : res (option PolygonCandidate) :=
  let? candidates := scored_candidates_by results sub_region in
  match candidates with
  | [] => Return None
  | _ => Return (hd_error (sort_desc candidates))
  end.

End Choice.

Abbreviation scored_candidates repr := (scored_candidates_by (score_candidate repr)).

(** [choose_polygon] *)
Definition choose_polygon (repr : json -> string)
  : list json -> string -> res (option PolygonCandidate) :=
  choose_polygon_by (score_candidate repr).

Section Client.
Variable net : network.
Variable min_delay : Q.

(** [Nominatim.search]; [nominatim_last] is this client's
    [last_request]. *)
Definition search (query : string) : M (list json) :=
  let key := lower (strip query) in
  let! s := Pipeline.get_state in
  match cache s !! key with
  | Some cached => ret (Pipeline.list_or_empty cached)
  | None =>
      let! _ := throttle (nominatim_last s) min_delay in
      let! raw := urlopen net (PolygonSearch query) in
      let! payload := lift (json_loads raw) in
      let! _ := Pipeline.touch_nominatim in
      let payload := if is_list payload then payload else JArr [] in
      let! _ := set_cache key payload in
      ret (Pipeline.list_or_empty payload)
  end.

End Client.
End Polygons.

(** ** Vocabulary of the statements *)

Module Terms.
Import Py Enrich.

(** A candidate both of whose coordinates [float] accepts. *)
Definition parseable (d : dict) : bool :=
  match py_float (get d "lat"), py_float (get d "lon") with
  | Return _, Return _ => true
  | _, _ => false
  end.

(** A value [norm_text] accepts: a string, or anything falsy. *)
Definition text_ok (v : json) : bool :=
  negb (truthy v) || match v with JStr _ => true | _ => false end.

(** A candidate as the geocoder documents it: the text fields the scorer
    reads are strings where present. *)
Definition well_typed (d : dict) : bool :=
  text_ok (get d "display_name")
  && text_ok (get_default d "class" (JStr ""))
  && text_ok (get_default d "type" (JStr ""))
  && text_ok (get_default (address_of d) "country_code"
                          (get_default d "country_code" (JStr "")))
  && text_ok (get_default (address_of d) "state" (JStr ""))
  && text_ok (get_default (address_of d) "county" (JStr "")).

(** The loop of [pick_best_geocode] passes over [item]. *)
Definition skipped (item : json) : Prop :=
  exists e, parse_coords item = Raise e /\ catches_type_value e = true.

(** [float] rejects a coordinate of the candidate with an exception the
    [try] of [pick_best_geocode] names. *)
Definition rejected (d : dict) : bool :=
  match parse_coords (JObj d) with
  | Raise e => catches_type_value e
  | Return _ => false
  end.

(** A candidate the loop gets past: its coordinates are rejected, or they
    parse and its text fields are as the geocoder documents them. *)
Definition candidate_ok (d : dict) : bool :=
  if parseable d then well_typed d else rejected d.

(** The loop of [pick_best_geocode], scoring with [score_of], gives [item]
    the score [s]. *)
Definition scored_by (score_of : dict -> res Q) (item : json) (s : Q) : Prop :=
  exists d la lo, item = JObj d /\ parse_coords item = Return (d, la, lo)
                  /\ score_of d = Return s.

(** Every candidate of [l] the loop scores has a score below [s]
    (strictly, or not). *)
Definition below_by (score_of : dict -> res Q)
    (strict : bool) (s : Q) (l : list json) : Prop :=
  Forall (fun x => skipped x \/
                   exists s', scored_by score_of x s'
                              /\ if strict then (s' < s)%Q else (s' <= s)%Q) l.

Abbreviation scored p_tokens exp_region := (scored_by (score_geocode p_tokens exp_region)).
Abbreviation all_below p_tokens exp_region := (below_by (score_geocode p_tokens exp_region)).


(** The result [pick_best_geocode] builds from a winner [d] of score [s]. *)
Definition result_of (d : dict) (la lo : float) (dn : string) (s : Q) : GeocodeResult :=
  mkGeocodeResult la lo dn "" "nominatim" (round3 (py_min 0.98 (py_max 0.2 (s / 2.8)))).

(** [pick_best_wikidata_entity], scoring with [score_of], passes over
    [item], or scores it below [s]. *)
Definition entities_below_by (score_of : dict -> res Q) (strict : bool) (s : Q)
    (l : list json) : Prop :=
  Forall (fun x => is_dict x = false \/
                   exists d s', x = JObj d /\ score_of d = Return s'
                                /\ if strict then (s' < s)%Q else (s' <= s)%Q) l.

Abbreviation entities_below tokens := (entities_below_by (score_entity tokens)).

(** What [NominatimClient._request] makes of a body. *)
Definition decoded_list (b : World.body) : list json :=
  match b with
  | World.Json (JArr l) => l
  | _ => []
  end.

(** What [WikidataClient._request_json] makes of a body. *)
Definition decoded_json (b : World.body) : json :=
  match b with
  | World.NotJson => JObj []
  | World.Json j => j
  end.

(** The list [search_entities] reads in a decoded payload. *)
Definition entity_list (payload : json) : list json :=
  Pipeline.list_or_empty (Pipeline.get_if_dict payload "search" (JArr [])).

(** A record of a result list as the services document it: an object
    whose text fields, those of a place and those of an entity, are strings
    where present, and whose coordinates [float] accepts, or rejects with
    [TypeError] or [ValueError]. *)
Definition record_ok (x : json) : bool :=
  match x with
  | JObj d => well_typed d && (parseable d || rejected d)
              && text_ok (get d "label") && text_ok (get d "description")
              && text_ok (get d "id")
  | _ => false
  end.

Abbreviation records_ok := (Forall (fun x => record_ok x = true)).

(** A body a service may answer a request with. *)
Definition payload_ok (r : World.request) (b : World.body) : Prop :=
  match r with
  | World.NominatimSearch _ => records_ok (decoded_list b)
  | World.WikidataSearch _ => records_ok (entity_list (decoded_json b))
  | World.WikidataEntity entity_id =>
      exists coords, Pipeline.extract_coords (decoded_json b) entity_id = Return coords
  | World.PolygonSearch _ => True
  end.

(** A network without faults whose answers have the documented shape. *)
Definition net_ok (net : World.network) : Prop :=
  forall n r, exists b, World.reply_of net n r = World.Body b /\ payload_ok r b.

(** A cache whose result lists have the documented shape and whose
    coordinate entries hold numbers a float can take. *)
Definition cache_ok (c : gmap string json) : Prop :=
  forall k v, c !! k = Some v ->
    records_ok (Pipeline.list_or_empty v)
    /\ exists o, Pipeline.cached_coords v = Return o.

(** [m] returns from every state with a good cache, keeps the cache good
    and returns a value with [post]. *)
Definition completes {A} (m : World.M A) (post : A -> Prop) : Prop :=
  forall s, cache_ok (World.cache s) ->
            exists a s', m s = (Return a, s') /\ cache_ok (World.cache s') /\ post a.

(** The cache entry of a lookup that found no coordinate. *)
Definition negative_entry : json := JObj [("lat", JNull); ("lng", JNull)].

End Terms.

(** ** Sample data *)

Module Samples.
Import Py Enrich World.

(** The candidate of the end-to-end example. *)
Definition chablis : dict :=
  [("lat", JNum 47.81); ("lon", JNum 3.79);
   ("display_name", JStr "Chablis, Yonne, Bourgogne, France");
   ("type", JStr "administrative"); ("class", JStr "boundary")].

Definition no_coords : dict :=
  [("lat", JStr "north"); ("display_name", JStr "Beaune, Bourgogne, France")].



(** Two places of equal score for the query "Beaune". *)
Definition beaune_town : dict :=
  [("lat", JStr "47.02"); ("lon", JStr "4.84");
   ("display_name", JStr "Beaune, Bourgogne, France")].

Definition beaune_station : dict :=
  [("lat", JStr "47.03"); ("lon", JStr "4.85");
   ("display_name", JStr "Gare de Beaune, Bourgogne, France")].

(** Two entities of equal score. *)
Definition entity_a : dict :=
  [("id", JStr "Q1"); ("label", JStr "Domaine Test");
   ("description", JStr "winery in France")].

Definition entity_b : dict :=
  [("id", JStr "Q2"); ("label", JStr "Domaine Test");
   ("description", JStr "vineyard in France")].

(** Two polygons of equal score. *)
Definition polygon_item (name : string) : json :=
  JObj [("geojson", JObj [("type", JStr "Polygon")]);
        ("display_name", JStr name);
        ("type", JStr "administrative"); ("class", JStr "boundary");
        ("lat", JStr "47.81"); ("lon", JStr "3.79")].

Definition plain_repr (x : json) : string := "None".

Definition polygon_of (name : string) : Polygons.PolygonCandidate :=
  match Polygons.score_candidate plain_repr (polygon_item name) "Chablis" with
  | Return (Some c) => c
  | _ => Polygons.mkPolygonCandidate [] "" "" "" 0 0 0
  end.

(** A state at the start of a run: empty cache, no request made yet. *)
Definition fresh : state := mkState ∅ 0 0 1700000000 [].

(** A network on which every request times out. *)
Definition timeout_net : network :=
  mkNetwork (fun _ _ => Fault TimeoutError) (fun _ _ => 30%Q).

(** A network that answers every request with text that is no JSON. *)
Definition garbage_net : network :=
  mkNetwork (fun _ _ => Body NotJson) (fun _ _ => 0.2%Q).

(** A network that knows nothing: empty result lists and documents. *)
Definition quiet_net : network :=
  mkNetwork (fun _ r => match r with
                        | NominatimSearch _ | PolygonSearch _ => Body (Json (JArr []))
                        | _ => Body (Json (JObj []))
                        end)
            (fun _ _ => 0.2%Q).

(** The network of the end-to-end example: one candidate for Chablis under
    its first phrasing, nothing else. *)
Definition chablis_net : network :=
  mkNetwork (fun _ r => match r with
                        | NominatimSearch q =>
                            if String.eqb q "Chablis, Bourgogne, France"
                            then Body (Json (JArr [JObj chablis]))
                            else Body (Json (JArr []))
                        | PolygonSearch _ => Body (Json (JArr []))
                        | _ => Body (Json (JObj []))
                        end)
            (fun _ _ => 0.2%Q).

(** Three wines: one of Chablis, one of a sub-region no geocoder knows,
    one without sub-region. *)
Definition sample_items : list dict :=
  [[("id", JNum 1); ("sub_region", JStr "Chablis"); ("producer", JStr "Domaine Test")];
   [("id", JNum 2); ("sub_region", JStr "Nowhere"); ("producer", JStr "Solo")];
   [("id", JNum 3); ("producer", JStr "Other")]].

(** Chablis as the sub-region tier resolves it on [chablis_net]. *)
Definition chablis_geo : GeocodeResult :=
  mkGeocodeResult 47.81 3.79 "Chablis, Yonne, Bourgogne, France"
                  "Chablis, Bourgogne, France" "sub_region_geocode" 0.7.

End Samples.

(** ** Vocabulary of the sub-region stage *)

Module ResolutionTerms.
Import Py Enrich Pipeline.

(** The cache answers the phrasing [query], and [pick_best_geocode] makes
    [o] of that answer for the sub-region [name]. *)
Definition place_answer (c : gmap string json) (name query : string)
    (o : option GeocodeResult) : Prop :=
  exists cached, c !! lower (strip query) = Some cached
    /\ pick_best_geocode (list_or_empty cached) None (Some name) = Return o.

(** [g] is what the sub-region tier makes of the first phrasing of [name]
    that the cache answers with a pick. *)
Definition sub_region_found (c : gmap string json) (name : string) (g : GeocodeResult)
  : Prop :=
  exists picked pre q post,
    subregion_queries name = (pre ++ q :: post)%list
    /\ Forall (fun q' => place_answer c name q' None) pre
    /\ place_answer c name q (Some picked)
    /\ g = as_sub_region picked q.

(** The cache answers both phrasings of [name] without a pick. *)
Definition sub_region_missed (c : gmap string json) (name : string) : Prop :=
  Forall (fun q => place_answer c name q None) (subregion_queries name).

End ResolutionTerms.

(** ** Vocabulary of the cache properties *)

Module CacheTerms.
Import Py World.

(** [m], whenever it returns, has only added entries to the cache, and
    [m'] returns the same value, touching nothing, from any state whose
    cache has the entries [m] left. *)
Definition replays {A} (m m' : M A) : Prop :=
  forall s a s', m s = (Return a, s') ->
    cache s ⊆ cache s'
    /\ (forall s2, cache s' ⊆ cache s2 -> m' s2 = (Return a, s2)).

(** [m], whatever its outcome, keeps every entry the cache had and only
    appends to the requests sent. *)
Definition keeps {A} (m : M A) : Prop :=
  forall s o s', m s = (o, s') ->
    cache s ⊆ cache s' /\ exists evs, sent s' = (sent s ++ evs)%list.

End CacheTerms.

(** ** More sample data *)

Module MoreSamples.
Import Py Enrich World.

(** A state whose cache already has an (empty) answer for Chablis. *)
Definition warm : state :=
  mkState {["chablis, bourgogne, france" := JArr []]} 0 0 1700000000 [].

(** The entity document of [entity_id] with one coordinate claim. *)
Definition entity_document (entity_id : string) (la lo : json) : json :=
  JObj [("entities",
         JObj [(entity_id,
                JObj [("claims",
                       JObj [("P625",
                              JArr [JObj [("mainsnak",
                                JObj [("datavalue",
                                  JObj [("value",
                                    JObj [("latitude", la); ("longitude", lo)])])])]])])])])].

(** A network whose entity documents all place the entity at Beaune. *)
Definition beaune_net : network :=
  mkNetwork (fun _ r => match r with
                        | WikidataEntity entity_id =>
                            Body (Json (entity_document entity_id (JNum 47.02) (JNum 4.84)))
                        | WikidataSearch _ =>
                            Body (Json (JObj [("search", JArr [JObj Samples.entity_a])]))
                        | _ => Body (Json (JArr []))
                        end)
            (fun _ _ => 0.2%Q).

End MoreSamples.

(** ** Vocabulary of the text properties *)

Module TextTerms.
Import Py.

(** Every white space character of [s] is a blank with no white space
    before it; [prev_space] says whether one stands before [s]. *)
Fixpoint single_spaced (prev_space : bool) (s : string) : bool :=
  match s with
  | EmptyString => true
  | String c t =>
      if is_space c then Ascii.eqb c " " && negb prev_space && single_spaced true t
      else single_spaced false t
  end.

Definition starts_with_space (s : string) : bool :=
  match s with
  | EmptyString => false
  | String c _ => is_space c
  end.

Fixpoint ends_with_space (s : string) : bool :=
  match s with
  | EmptyString => false
  | String c EmptyString => is_space c
  | String _ t => ends_with_space t
  end.

(** Words separated by single blanks, nothing around them. *)
Definition tidy (s : string) : bool :=
  single_spaced false s && negb (starts_with_space s) && negb (ends_with_space s).

End TextTerms.

(** ** [scripts/fetch_subregion_polygons.py]: identifiers and the main loop *)

Module PolygonsMain.
Import Py World Polygons.

(** [re.sub(cls+, rep, s)]: every maximal run of characters of the class
    becomes one [rep]. *)
Fixpoint runs_to (rep : ascii) (cls : ascii -> bool) (in_run : bool) (s : string) : string :=
  match s with
  | EmptyString => EmptyString
  | String c t =>
      if cls c then
        if in_run then runs_to rep cls true t else String rep (runs_to rep cls true t)
      else String c (runs_to rep cls false t)
  end.

Definition is_non_ascii (c : ascii) : bool := (127 <? nat_of_ascii c)%nat.

Fixpoint any_char (p : ascii -> bool) (s : string) : bool :=
  match s with
  | EmptyString => false
  | String c t => p c || any_char p t
  end.

Fixpoint keep_chars (p : ascii -> bool) (s : string) : string :=
  match s with
  | EmptyString => EmptyString
  | String c t => if p c then String c (keep_chars p t) else keep_chars p t
  end.

(** [text.encode("ascii", "ignore").decode("ascii")] *)
Definition ascii_only (s : string) : string :=
  keep_chars (fun c => negb (is_non_ascii c)) s.

(** The complement of the class [a-z0-9]. *)
Definition not_id_char (c : ascii) : bool := negb (is_ascii_lower c || is_digit c).

Definition is_dash (c : ascii) : bool := Ascii.eqb c "-".

(** [re.sub("^-+", "", s)] *)
Fixpoint drop_leading (p : ascii -> bool) (s : string) : string :=
  match s with
  | EmptyString => EmptyString
  | String c t => if p c then drop_leading p t else s
  end.

(** [re.sub("-+$", "", s)] *)
Fixpoint drop_trailing (p : ascii -> bool) (s : string) : string :=
  match s with
  | EmptyString => EmptyString
  | String c t =>
      match drop_trailing p t with
      | EmptyString => if p c then EmptyString else String c EmptyString
      | t' => String c t'
      end
  end.

(** [to_id] *)
Definition to_id (value : string) : string :=
  let text := value in
  let text := if any_char is_non_ascii text then ascii_only text else text in
  let text := lower text in
  let text := runs_to "-" not_id_char false text in
  drop_trailing is_dash (drop_leading is_dash text).

(** [query_options] *)
Definition query_options (sub_region : string) : list string :=
  [sub_region ++ ", Bourgogne, France";
   sub_region ++ ", Burgundy, France";
   sub_region ++ ", France"].

(** The properties of a feature of the output collection. *)
Record feature : Type := mkFeature {
  f_geometry : dict;
  f_id : string;
  f_sub_region : string;
  f_display_name : string;
  f_source : string;
  f_query : string;
  f_score : Q;
  f_lat : float;
  f_lng : float;
  f_item_type : string;
  f_item_class : string
}.

Section Main.
Variable repr : json -> string.
Variable net : network.
Variable min_delay : Q.

(** The inner loop of [main]: the first query with a polygon wins. *)
Fixpoint select_polygon (sub_region : string) (queries : list string)
  : M (option (PolygonCandidate * string)) :=
  match queries with
  | [] => ret None
  | query :: rest =>
      let! results := search net min_delay query in
      let! selected := lift (choose_polygon repr results sub_region) in
      match selected with
      | Some c => ret (Some (c, query))
      | None => select_polygon sub_region rest
      end
  end.

Definition feature_of (sub_region : string) (selected : PolygonCandidate) (query : string)
  : feature :=
  mkFeature (geojson selected) (to_id sub_region) sub_region (display_name selected)
            "nominatim_polygon" query (round3 (score selected))
            (lat selected) (lon selected) (item_type selected) (item_class selected).

(** The outer loop of [main], with the features and the names of the
    report's [missing]. *)
Fixpoint fetch_polygons (sub_regions : list string)
    (features : list feature) (missing : list string)
  : M (list feature * list string) :=
  match sub_regions with
  | [] => ret (features, missing)
  | sub_region :: rest =>
      let! selected := select_polygon sub_region (query_options sub_region) in
      match selected with
      | None => fetch_polygons rest features (missing ++ [sub_region])
      | Some (c, query) =>
          fetch_polygons rest (features ++ [feature_of sub_region c query]) missing
      end
  end.

(** Lines 211-213 of [main]: the names to fetch. *)
Fixpoint row_names (rows : list json) : res (list string) :=
  match rows with
  | [] => Return []
  | item :: rest =>
      let? v := attr_get item "sub_region" (JStr "") in
      let name := strip (py_str repr v) in
      let? names := row_names rest in
      Return (if String.eqb name "" then names else name :: names)
  end.

Definition polygon_sub_regions (rows : list json) : res (list string) :=
  let? names := row_names rows in
  let names := List.filter (fun sr => negb (String.eqb (lower sr) "unknown")) names in
  Return (Pipeline.sorted (remove_dups names)).

End Main.
End PolygonsMain.

(** ** Vocabulary for identifiers *)

Module IdTerms.
Import Py PolygonsMain.

(** Characters [a-z0-9], and dashes that follow no dash. *)
Fixpoint id_shape (prev_dash : bool) (s : string) : bool :=
  match s with
  | EmptyString => true
  | String c t =>
      if is_dash c then negb prev_dash && id_shape true t
      else (is_ascii_lower c || is_digit c) && id_shape false t
  end.

Fixpoint last_is (p : ascii -> bool) (s : string) : bool :=
  match s with
  | EmptyString => false
  | String c EmptyString => p c
  | String _ t => last_is p t
  end.

(** Words of [a-z0-9] joined by single dashes. *)
Definition is_id (s : string) : bool :=
  id_shape true s && negb (last_is is_dash s).

(** An ASCII letter or digit. *)
Definition is_alnum (c : ascii) : bool :=
  is_ascii_lower c || is_ascii_upper c || is_digit c.

End IdTerms.

(** ** Vocabulary for the polygon run *)

Module PolygonTerms.
Import Py World Polygons PolygonsMain.

(** Each name is at most its successor, in the order of [sorted]. *)
Fixpoint ascending (l : list string) : bool :=
  match l with
  | a :: (b :: _) as t => String.leb a b && ascending t
  | _ => true
  end.

(** What the client stores for a decoded payload. *)
Definition stored (payload : json) : json :=
  if is_list payload then payload else JArr [].

Section Repr.
Variable repr : json -> string.

(** The cache answers [query], and [choose_polygon] makes [o] of that
    answer for [sub_region]. *)
Definition found_in (c : gmap string json) (sub_region query : string)
    (o : option PolygonCandidate) : Prop :=
  exists cached, c !! lower (strip query) = Some cached
    /\ choose_polygon repr (Pipeline.list_or_empty cached) sub_region = Return o.

(** [f] is the feature of the first phrasing of its sub-region for which
    the cache holds a polygon. *)
Definition matched (c : gmap string json) (f : feature) : Prop :=
  exists cand pre post,
    query_options (f_sub_region f) = (pre ++ f_query f :: post)%list
    /\ Forall (fun q => found_in c (f_sub_region f) q None) pre
    /\ found_in c (f_sub_region f) (f_query f) (Some cand)
    /\ f = feature_of (f_sub_region f) cand (f_query f).

(** The name of a row, as [main] reads it. *)
Definition name_of (d : dict) : string :=
  strip (py_str repr (get_default d "sub_region" (JStr ""))).

(** The cache holds no polygon for any phrasing of [sub_region]. *)
Definition missed (c : gmap string json) (sub_region : string) : Prop :=
  Forall (fun q => found_in c sub_region q None) (query_options sub_region).

End Repr.

(** Rows of an enriched sub-region file. *)
Definition sample_rows : list json :=
  [JObj [("sub_region", JStr " Chablis ")]; JObj [("sub_region", JStr "UNKNOWN")];
   JObj []; JObj [("sub_region", JStr "Beaune")]; JObj [("sub_region", JStr "Chablis")]].

(** A network that knows the polygon of Chablis under its second
    phrasing only. *)
Definition polygon_net : network :=
  mkNetwork (fun _ r => match r with
                        | PolygonSearch q =>
                            if String.eqb q "Chablis, Burgundy, France"
                            then Body (Json (JArr [Samples.polygon_item
                                                     "Chablis, Yonne, Bourgogne, France"]))
                            else Body (Json (JObj []))
                        | _ => Body NotJson
                        end)
            (fun _ _ => 0.2%Q).

End PolygonTerms.

(** ** Vocabulary for the producer summary *)

Module SummaryTerms.
Import Py Enrich Pipeline.

(** How often [n] occurs among [names]. *)
Definition occurrences (n : string) (names : list string) : nat :=
  length (List.filter (String.eqb n) names).

(** The count a counter holds for [k]; 0 without an entry. *)
Definition count_of (c : list (string * nat)) (k : string) : nat :=
  match List.find (fun e => String.eqb k (fst e)) c with
  | Some e => snd e
  | None => 0
  end.

(** The wine's producer, normalised, is [p]. *)
Definition by_producer (p : string) (item : dict) : bool :=
  match norm_text (get item "producer") with
  | Return t => String.eqb t p
  | Raise _ => false
  end.

End SummaryTerms.

(** ** [scripts/enrich_bourgogne_geo.py]: the price summary *)

Module Summary.
Import Py.

(** [round(x, 2)] *)
Definition round2 (x : Q) : Q := Qmake (round_half_even (x * 100)%Q) 100.

(** [min(l)] and [max(l)] of a list [first :: rest]: the running
    minimum, replaced only by a smaller value. *)
Definition min_of (first : Q) (rest : list Q) : Q := fold_left py_min rest first.
Definition max_of (first : Q) (rest : list Q) : Q := fold_left py_max rest first.

(** [statistics.mean(l)]: the exact mean. *)
Definition mean (l : list Q) : Q :=
  (fold_right Qplus 0 l / inject_Z (Z.of_nat (length l)))%Q.

Record price_summary : Type := mkSummary {
  s_min : Q;
  s_max : Q;
  s_avg : Q
}.

Definition is_positive (v : Q) : bool := if Qlt_le_dec 0 v then true else false.

(** [summarize_numeric] on the floats its callers pass; [None] is the
    summary whose three fields are [None]. *)
Definition summarize_numeric (values : list Q) : option price_summary :=
  let clean := List.filter is_positive values in
  match clean with
  | [] => None
  | first :: rest =>
      Some (mkSummary (round2 (min_of first rest)) (round2 (max_of first rest))
                      (round2 (mean clean)))
  end.

End Summary.

(** * Properties *)

(** ** Arithmetic of confidences *)

Module NumFacts.
Import Py.
Local Open Scope Q_scope.

Lemma py_max_l a b : a <= py_max a b.
Proof. unfold py_max. destruct (Qlt_le_dec a b); [apply Qlt_le_weak | apply Qle_refl]; easy. Qed.

Lemma py_max_r a b : b <= py_max a b.
Proof. unfold py_max. destruct (Qlt_le_dec a b); [apply Qle_refl | easy]. Qed.

Lemma py_min_l a b : py_min a b <= a.
Proof. unfold py_min. destruct (Qlt_le_dec b a); [apply Qlt_le_weak | apply Qle_refl]; easy. Qed.

Lemma py_min_r a b : py_min a b <= b.
Proof. unfold py_min. destruct (Qlt_le_dec b a); [apply Qle_refl | easy]. Qed.

Lemma py_min_glb a b c : c <= a -> c <= b -> c <= py_min a b.
Proof. intros Ha Hb. unfold py_min. destruct (Qlt_le_dec b a); easy. Qed.

(** [min(hi, max(lo, x))] stays between its bounds. *)
Lemma clamp_bounds lo hi x : lo <= hi -> lo <= py_min hi (py_max lo x) <= hi.
Proof.
  intros H. split.
  - apply py_min_glb; [easy | apply py_max_l].
  - apply py_min_l.
Qed.

Lemma round_half_even_lower (k : Z) (y : Q) :
  inject_Z k <= y -> (k <= round_half_even y)%Z.
Proof.
  intros H. apply Qfloor_resp_le in H. rewrite Qfloor_Z in H.
  unfold round_half_even.
  destruct (y - inject_Z (Qfloor y) ?= 1 # 2); [destruct (Z.even _) | |]; lia.
Qed.

Lemma round_half_even_upper (k : Z) (y : Q) :
  y <= inject_Z k -> (round_half_even y <= k)%Z.
Proof.
  intros H. pose proof (Qfloor_le y) as Hf.
  assert (Hfk : (Qfloor y <= k)%Z).
  { rewrite Zle_Qle. eapply Qle_trans; eauto. }
  destruct (Z.eq_dec (Qfloor y) k) as [He | Hne].
  - assert (Hy : y - inject_Z (Qfloor y) <= 0).
    { rewrite He. rewrite <- (Qplus_opp_r (inject_Z k)).
      apply Qplus_le_compat; [easy | apply Qle_refl]. }
    unfold round_half_even.
    destruct (y - inject_Z (Qfloor y) ?= 1 # 2) eqn:Hc.
    + apply Qeq_alt in Hc. rewrite Hc in Hy. unfold Qle in Hy; simpl in Hy; lia.
    + lia.
    + apply Qgt_alt in Hc. exfalso. apply (Qlt_not_le _ _ Hc).
      eapply Qle_trans; [exact Hy | unfold Qle; simpl; lia].
  - unfold round_half_even.
    destruct (y - inject_Z (Qfloor y) ?= 1 # 2); [destruct (Z.even _) | |]; lia.
Qed.

(** [round(x, 3)] keeps a value on the side of a bound that is itself a
    multiple of 0.001. *)
Lemma round3_lower (k : Z) (x : Q) : inject_Z k / 1000 <= x -> inject_Z k / 1000 <= round3 x.
Proof.
  intros H. unfold round3.
  assert (Hk : inject_Z k <= x * 1000).
  { assert (E : inject_Z k == inject_Z k / 1000 * 1000) by field. rewrite E.
    apply Qmult_le_compat_r; [easy | unfold Qle; simpl; lia]. }
  apply round_half_even_lower in Hk.
  set (r := round_half_even (x * 1000)) in *.
  unfold Qle, Qdiv, Qmult, Qinv, inject_Z; simpl. lia.
Qed.

Lemma round3_upper (k : Z) (x : Q) : x <= inject_Z k / 1000 -> round3 x <= inject_Z k / 1000.
Proof.
  intros H. unfold round3.
  assert (Hk : x * 1000 <= inject_Z k).
  { assert (E : inject_Z k == inject_Z k / 1000 * 1000) by field. rewrite E.
    apply Qmult_le_compat_r; [easy | unfold Qle; simpl; lia]. }
  apply round_half_even_upper in Hk.
  set (r := round_half_even (x * 1000)) in *.
  unfold Qle, Qdiv, Qmult, Qinv, inject_Z; simpl. lia.
Qed.

(** The confidence of [pick_best_geocode] is within its clamp. *)
Lemma confidence_range (x : Q) :
  0.2 <= round3 (py_min 0.98 (py_max 0.2 x)) <= 0.98.
Proof.
  assert (E1 : 0.2 == inject_Z 200 / 1000) by reflexivity.
  assert (E2 : 0.98 == inject_Z 980 / 1000) by reflexivity.
  destruct (clamp_bounds 0.2 0.98 x) as [H1 H2]; [unfold Qle; simpl; lia |].
  split.
  - rewrite E1 at 1. apply round3_lower. rewrite <- E1. exact H1.
  - rewrite E2 at 2. apply round3_upper. rewrite <- E2. exact H2.
Qed.

Lemma round3_between (lo hi : Z) (x : Q) :
  inject_Z lo / 1000 <= x <= inject_Z hi / 1000 ->
  inject_Z lo / 1000 <= round3 x <= inject_Z hi / 1000.
Proof. intros [H1 H2]. split; [apply round3_lower | apply round3_upper]; easy. Qed.

End NumFacts.

(** ** The place scorer *)

Module GeocodeFacts.
Import Py Enrich Terms NumFacts.
Local Open Scope Q_scope.

Lemma parse_coords_dict d :
  parse_coords (JObj d) =
  match py_float (get d "lat") with
  | Return la => match py_float (get d "lon") with
                 | Return lo => Return (d, la, lo)
                 | Raise e => Raise e
                 end
  | Raise e => Raise e
  end.
Proof.
  unfold parse_coords; simpl.
  destruct (py_float (get d "lat")); simpl; [| reflexivity].
  destruct (py_float (get d "lon")); reflexivity.
Qed.

Lemma parse_coords_return item d la lo :
  parse_coords item = Return (d, la, lo) ->
  item = JObj d /\ py_float (get d "lat") = Return la /\ py_float (get d "lon") = Return lo.
Proof.
  destruct item; try discriminate. rewrite parse_coords_dict.
  destruct (py_float (get kv "lat")) eqn:Ela; [| discriminate].
  destruct (py_float (get kv "lon")) eqn:Elo; [| discriminate].
  intros [= <- <- <-]. auto.
Qed.

Lemma parseable_parse d :
  parseable d = true <-> exists la lo, parse_coords (JObj d) = Return (d, la, lo).
Proof.
  unfold parseable. rewrite parse_coords_dict.
  destruct (py_float (get d "lat")); [destruct (py_float (get d "lon")) |]; split;
    try discriminate; try (intros (? & ? & ?); discriminate); eauto.
Qed.

Lemma rejected_skipped d : rejected d = true <-> skipped (JObj d).
Proof.
  unfold rejected, skipped. destruct (parse_coords (JObj d)) as [x | e]; split.
  - discriminate.
  - intros (e & [=] & _).
  - intros H. exists e. auto.
  - intros (e' & [= <-] & H). exact H.
Qed.

Lemma rejected_not_parseable d : rejected d = true -> parseable d = false.
Proof.
  intros H. destruct (parseable d) eqn:Hp; [| reflexivity].
  apply parseable_parse in Hp as (la & lo & Hp). unfold rejected in H.
  rewrite Hp in H. discriminate.
Qed.

Lemma skipped_not_scored score_of x s : skipped x -> scored_by score_of x s -> False.
Proof. intros (e & He & _) (d & la & lo & _ & Hp & _). congruence. Qed.

Lemma bonus_nonneg b w : 0 <= w -> 0 <= bonus b w.
Proof. destruct b; simpl; [easy | intros _; apply Qle_refl]. Qed.

Lemma token_bonus_nonneg tokens blob : 0 <= token_bonus tokens blob.
Proof.
  unfold token_bonus. destruct tokens; [apply Qle_refl |].
  apply py_min_glb; [unfold Qle; simpl; lia |].
  apply Qmult_le_0_compat; [| unfold Qle; simpl; lia].
  unfold Qle; simpl; lia.
Qed.

Lemma norm_text_ok v : text_ok v = true -> exists s, norm_text v = Return s.
Proof.
  unfold text_ok, norm_text. destruct (truthy v); simpl; [| eauto].
  destruct v; try discriminate. eauto.
Qed.

Lemma Qadd_nonneg a b : 0 <= a -> 0 <= b -> 0 <= a + b.
Proof.
  intros Ha Hb. assert (E : 0 == 0 + 0) by reflexivity. rewrite E.
  apply Qplus_le_compat; easy.
Qed.

Ltac bonus_sum :=
  repeat apply Qadd_nonneg;
  first [ apply Qle_refl | apply token_bonus_nonneg
        | apply bonus_nonneg; unfold Qle; simpl; lia ].

Lemma score_geocode_nonneg t r d s : score_geocode t r d = Return s -> 0 <= s.
Proof.
  unfold score_geocode, rbind.
  repeat (match goal with
          | |- context [match norm_text ?v with _ => _ end] =>
              destruct (norm_text v); [| discriminate]
          end).
  intros [= <-]. bonus_sum.
Qed.

Lemma score_geocode_display t r d s :
  score_geocode t r d = Return s -> exists dn, norm_text (get d "display_name") = Return dn.
Proof.
  unfold score_geocode, rbind.
  destruct (norm_text (get d "display_name")); [eauto | discriminate].
Qed.

Lemma score_geocode_total t r d :
  well_typed d = true -> exists s, score_geocode t r d = Return s.
Proof.
  unfold well_typed. rewrite !andb_true_iff.
  intros [[[[[H1 H2] H3] H4] H5] H6].
  apply norm_text_ok in H1, H2, H3, H4, H5, H6.
  destruct H1 as [s1 H1], H2 as [s2 H2], H3 as [s3 H3], H4 as [s4 H4],
           H5 as [s5 H5], H6 as [s6 H6].
  unfold score_geocode, rbind. cbv zeta. rewrite H1, H2, H3, H4, H5, H6. eauto.
Qed.

Lemma get_default_no_key d k v : has_key d k = false -> get_default d k v = v.
Proof.
  induction d as [| [k' v'] d IH]; simpl; [reflexivity |].
  destruct (String.eqb k k'); [discriminate | exact IH].
Qed.

Lemma py_float_has_key d k x : py_float (get d k) = Return x -> index d k = Return (get d k).
Proof.
  intros H. unfold index. destruct (has_key d k) eqn:Hk; [reflexivity |].
  unfold get in H. rewrite get_default_no_key in H by exact Hk. discriminate.
Qed.

(** *** The loop *)

Section Scan.
Variable score_of : dict -> res Q.

(** One step of the loop on a candidate it scores: strictly greater
    replaces, anything else keeps the current best. *)
Lemma scan_geocode_step d la lo s rest bs bi :
  parse_coords (JObj d) = Return (d, la, lo) ->
  score_of d = Return s ->
  scan_geocode_by score_of (JObj d :: rest) bs bi =
  if Qlt_le_dec bs s then scan_geocode_by score_of rest s (Some d)
  else scan_geocode_by score_of rest bs bi.
Proof. intros Hp Hs. simpl scan_geocode_by. rewrite Hp. simpl. rewrite Hs. reflexivity. Qed.

Lemma scan_geocode_skip x rest bs bi :
  skipped x -> scan_geocode_by score_of (x :: rest) bs bi = scan_geocode_by score_of rest bs bi.
Proof. intros (e & He & Hc). simpl. rewrite He, Hc. reflexivity. Qed.

Lemma scan_geocode_post post bs bi :
  below_by score_of false bs post -> scan_geocode_by score_of post bs bi = Return (bs, bi).
Proof.
  induction 1 as [| x post Hx _ IH]; [reflexivity |].
  destruct Hx as [Hsk | (s & (d & la & lo & -> & Hp & Hs) & Hle)].
  - rewrite scan_geocode_skip by exact Hsk. exact IH.
  - rewrite (scan_geocode_step _ _ _ _ _ _ _ Hp Hs).
    destruct (Qlt_le_dec bs s) as [Hlt | _]; [| exact IH].
    exfalso. exact (Qlt_not_le _ _ Hlt Hle).
Qed.

Lemma scan_geocode_pre pre rest s : forall bs bi,
  bs < s -> below_by score_of true s pre ->
  exists bs' bi', bs' < s /\
    scan_geocode_by score_of (pre ++ rest) bs bi = scan_geocode_by score_of rest bs' bi'.
Proof.
  induction pre as [| x pre IH]; intros bs bi Hbs Hall.
  - exists bs, bi. auto.
  - apply Forall_cons_iff in Hall as [Hx Hall].
    destruct Hx as [Hsk | (s' & (d & la & lo & -> & Hp & Hs) & Hlt)].
    + simpl app. rewrite scan_geocode_skip by exact Hsk. apply IH; assumption.
    + simpl app. rewrite (scan_geocode_step _ _ _ _ _ _ _ Hp Hs).
      destruct (Qlt_le_dec bs s'); apply IH; assumption.
Qed.

(** The first candidate of top score is the one the loop ends with. *)
Lemma scan_geocode_first_max pre d post la lo s bs bi :
  bs < s ->
  parse_coords (JObj d) = Return (d, la, lo) ->
  score_of d = Return s ->
  below_by score_of true s pre ->
  below_by score_of false s post ->
  scan_geocode_by score_of (pre ++ JObj d :: post) bs bi = Return (s, Some d).
Proof.
  intros Hbs Hp Hs Hpre Hpost.
  destruct (scan_geocode_pre pre (JObj d :: post) s bs bi Hbs Hpre)
    as (bs' & bi' & Hlt & ->).
  rewrite (scan_geocode_step _ _ _ _ _ _ _ Hp Hs).
  destruct (Qlt_le_dec bs' s) as [_ | Hle].
  - apply scan_geocode_post. exact Hpost.
  - exfalso. exact (Qlt_not_le _ _ Hlt Hle).
Qed.

(** What the loop ends with, read back from its result. *)
Lemma scan_geocode_inv results : forall bs bi bs' bi',
  scan_geocode_by score_of results bs bi = Return (bs', bi') ->
  (bs' = bs /\ bi' = bi /\ below_by score_of false bs results)
  \/ (bs < bs' /\ exists pre d post la lo,
        results = (pre ++ JObj d :: post)%list /\ bi' = Some d
        /\ parse_coords (JObj d) = Return (d, la, lo)
        /\ score_of d = Return bs'
        /\ below_by score_of true bs' pre /\ below_by score_of false bs' post).
Proof.
  induction results as [| x rest IH]; intros bs bi bs' bi' H.
  - simpl in H. injection H as <- <-. left. repeat split. constructor.
  - simpl in H. destruct (parse_coords x) as [[[d la] lo] | e] eqn:Hp.
    + destruct (parse_coords_return _ _ _ _ Hp) as (-> & _ & _).
      simpl in H. destruct (score_of d) as [s | e] eqn:Hs; [| discriminate].
      simpl in H.
      assert (Hsc : scored_by score_of (JObj d) s) by (exists d, la, lo; auto).
      destruct (Qlt_le_dec bs s) as [Hlt | Hle].
      * apply IH in H as [(-> & -> & Hall) | (Hlt' & pre & d' & post & la' & lo' & -> & -> & Hp' & Hs' & Hpre & Hpost)].
        -- right. split; [exact Hlt |].
           exists [], d, rest, la, lo. repeat split; auto. constructor.
        -- right. split; [eapply Qlt_trans; eauto |].
           exists (JObj d :: pre), d', post, la', lo'. repeat split; auto.
           constructor; [| exact Hpre]. right. exists s. auto.
      * apply IH in H as [(-> & -> & Hall) | (Hlt' & pre & d' & post & la' & lo' & -> & -> & Hp' & Hs' & Hpre & Hpost)].
        -- left. repeat split. constructor; [| exact Hall]. right. exists s. auto.
        -- right. split; [exact Hlt' |].
           exists (JObj d :: pre), d', post, la', lo'. repeat split; auto.
           constructor; [| exact Hpre]. right. exists s. split; [exact Hsc |].
           eapply Qle_lt_trans; eauto.
    + destruct (catches_type_value e) eqn:Hc; [| discriminate].
      assert (Hsk : skipped x) by (exists e; auto).
      apply IH in H as [(-> & -> & Hall) | (Hlt' & pre & d' & post & la' & lo' & -> & -> & Hp' & Hs' & Hpre & Hpost)].
      * left. repeat split. constructor; [left; exact Hsk | exact Hall].
      * right. split; [exact Hlt' |].
        exists (x :: pre), d', post, la', lo'. repeat split; auto.
        constructor; [left; exact Hsk | exact Hpre].
Qed.


End Scan.

(** *** From the loop to [pick_best_geocode] *)

Lemma scan_geocode_total t r results : forall bs bi,
  Forall (fun x => exists d, x = JObj d /\ candidate_ok d = true) results ->
  exists out, scan_geocode t r results bs bi = Return out.
Proof.
  induction results as [| x rest IH]; intros bs bi Hall; [simpl; eauto |].
  apply Forall_cons_iff in Hall as [(d & -> & Hok) Hall].
  unfold candidate_ok in Hok. destruct (parseable d) eqn:Hpar.
  - destruct (proj1 (parseable_parse d) Hpar) as (la & lo & Hp).
    destruct (score_geocode_total t r d Hok) as [s Hs].
    rewrite (scan_geocode_step _ _ _ _ _ _ _ _ Hp Hs).
    destruct (Qlt_le_dec bs s); apply IH; exact Hall.
  - rewrite scan_geocode_skip by (apply rejected_skipped; exact Hok).
    apply IH; exact Hall.
Qed.

(** The result built from the winner of the loop, whatever the score. *)
Lemma pick_best_by_winner score_of results p e d la lo dn s :
  scan_geocode_by (score_of (producer_tokens (or_empty p)) (lower (or_empty e)))
                  results (-1.0) None = Return (s, Some d) ->
  parse_coords (JObj d) = Return (d, la, lo) ->
  norm_text (get d "display_name") = Return dn ->
  pick_best_geocode_by score_of results p e = Return (Some (result_of d la lo dn s)).
Proof.
  intros Hscan Hp Hdn.
  destruct (parse_coords_return _ _ _ _ Hp) as (_ & Hla & Hlo).
  unfold pick_best_geocode_by. destruct results as [| x rest]; [discriminate Hscan |].
  cbv zeta. rewrite Hscan. simpl rbind.
  destruct d as [| kv d']; [discriminate Hla |].
  rewrite (py_float_has_key _ _ _ Hla), (py_float_has_key _ _ _ Hlo).
  simpl rbind. rewrite Hla, Hlo. simpl rbind. rewrite Hdn. reflexivity.
Qed.

Lemma pick_best_geocode_winner results p e d la lo s :
  scan_geocode (producer_tokens (or_empty p)) (lower (or_empty e)) results (-1.0) None
    = Return (s, Some d) ->
  parse_coords (JObj d) = Return (d, la, lo) ->
  score_geocode (producer_tokens (or_empty p)) (lower (or_empty e)) d = Return s ->
  exists dn, norm_text (get d "display_name") = Return dn
             /\ pick_best_geocode results p e = Return (Some (result_of d la lo dn s)).
Proof.
  intros Hscan Hp Hs.
  destruct (score_geocode_display _ _ _ _ Hs) as [dn Hdn]. exists dn. split; [exact Hdn |].
  exact (pick_best_by_winner score_geocode _ _ _ _ _ _ _ _ Hscan Hp Hdn).
Qed.

Lemma pick_best_by_no_winner score_of results p e s :
  scan_geocode_by (score_of (producer_tokens (or_empty p)) (lower (or_empty e)))
                  results (-1.0) None = Return (s, None) ->
  pick_best_geocode_by score_of results p e = Return None.
Proof.
  intros Hscan. unfold pick_best_geocode_by. destruct results; [reflexivity |].
  cbv zeta. rewrite Hscan. reflexivity.
Qed.

Lemma pick_best_geocode_no_winner results p e s :
  scan_geocode (producer_tokens (or_empty p)) (lower (or_empty e)) results (-1.0) None
    = Return (s, None) ->
  pick_best_geocode results p e = Return None.
Proof. apply pick_best_by_no_winner. Qed.


(** Whatever [pick_best_geocode] returns was built from the first
    candidate of top score. *)
Lemma pick_best_geocode_inv results p e g :
  pick_best_geocode results p e = Return (Some g) ->
  exists pre d post la lo dn s,
    results = (pre ++ JObj d :: post)%list
    /\ parse_coords (JObj d) = Return (d, la, lo)
    /\ score_geocode (producer_tokens (or_empty p)) (lower (or_empty e)) d = Return s
    /\ norm_text (get d "display_name") = Return dn
    /\ all_below (producer_tokens (or_empty p)) (lower (or_empty e)) true s pre
    /\ all_below (producer_tokens (or_empty p)) (lower (or_empty e)) false s post
    /\ g = result_of d la lo dn s.
Proof.
  intros H.
  destruct results as [| x rest]; [discriminate |].
  destruct (scan_geocode (producer_tokens (or_empty p)) (lower (or_empty e))
                         (x :: rest) (-1.0) None) as [[bs' bi'] | ex] eqn:Hscan.
  - destruct bi' as [d |].
    + pose proof Hscan as Hinv. apply scan_geocode_inv in Hinv
        as [(_ & [=] & _) | (_ & pre & d' & post & la & lo & Hres & [= <-] & Hp & Hs & Hpre & Hpost)].
      destruct (pick_best_geocode_winner _ p e _ _ _ _ Hscan Hp Hs) as (dn & Hdn & Hpick).
      rewrite Hpick in H. injection H as <-.
      exists pre, d, post, la, lo, dn, bs'. repeat split; assumption.
    + rewrite (pick_best_geocode_no_winner _ _ _ _ Hscan) in H. discriminate.
  - unfold pick_best_geocode, pick_best_geocode_by in H. cbv zeta in H.
    rewrite Hscan in H. discriminate.
Qed.

End GeocodeFacts.

(** ** The entity scorer and the polygon scorer *)

Module OtherScorers.
Import Py Enrich Terms NumFacts GeocodeFacts.
Local Open Scope Q_scope.

Lemma score_entity_nonneg t d s : score_entity t d = Return s -> 0 <= s.
Proof.
  unfold score_entity, rbind.
  repeat (match goal with
          | |- context [match norm_text ?v with _ => _ end] =>
              destruct (norm_text v); [| discriminate]
          end).
  intros [= <-]. bonus_sum.
Qed.

Section Entities.
Variable score_of : dict -> res Q.

(** One step of the entity loop: strictly greater replaces. *)
Lemma scan_entities_step d s rest bs bi :
  score_of d = Return s ->
  scan_entities_by score_of (JObj d :: rest) bs bi =
  if Qlt_le_dec bs s then scan_entities_by score_of rest s (Some d)
  else scan_entities_by score_of rest bs bi.
Proof. intros Hs. simpl. rewrite Hs. reflexivity. Qed.

Lemma scan_entities_post post bs bi :
  entities_below_by score_of false bs post -> scan_entities_by score_of post bs bi = Return bi.
Proof.
  induction 1 as [| x post Hx _ IH]; [reflexivity |].
  destruct Hx as [Hnd | (d & s & -> & Hs & Hle)].
  - destruct x; try exact IH. discriminate Hnd.
  - rewrite (scan_entities_step _ _ _ _ _ Hs).
    destruct (Qlt_le_dec bs s) as [Hlt | _]; [| exact IH].
    exfalso. exact (Qlt_not_le _ _ Hlt Hle).
Qed.

Lemma scan_entities_pre pre rest s : forall bs bi,
  bs < s -> entities_below_by score_of true s pre ->
  exists bs' bi', bs' < s /\
    scan_entities_by score_of (pre ++ rest) bs bi = scan_entities_by score_of rest bs' bi'.
Proof.
  induction pre as [| x pre IH]; intros bs bi Hbs Hall.
  - exists bs, bi. auto.
  - apply Forall_cons_iff in Hall as [Hx Hall].
    destruct Hx as [Hnd | (d & s' & -> & Hs & Hlt)].
    + destruct x; try (simpl; apply IH; assumption). discriminate Hnd.
    + simpl app. rewrite (scan_entities_step _ _ _ _ _ Hs).
      destruct (Qlt_le_dec bs s'); apply IH; assumption.
Qed.

Lemma scan_entities_first_max pre d post s bs bi :
  bs < s -> score_of d = Return s ->
  entities_below_by score_of true s pre -> entities_below_by score_of false s post ->
  scan_entities_by score_of (pre ++ JObj d :: post) bs bi = Return (Some d).
Proof.
  intros Hbs Hs Hpre Hpost.
  destruct (scan_entities_pre pre (JObj d :: post) s bs bi Hbs Hpre)
    as (bs' & bi' & Hlt & ->).
  rewrite (scan_entities_step _ _ _ _ _ Hs).
  destruct (Qlt_le_dec bs' s) as [_ | Hle].
  - apply scan_entities_post. exact Hpost.
  - exfalso. exact (Qlt_not_le _ _ Hlt Hle).
Qed.

End Entities.

Import Polygons.

Lemma insert_desc_In c l x : In x (insert_desc c l) -> x = c \/ In x l.
Proof.
  induction l as [| c' l IH]; simpl.
  - intros [<- | []]. auto.
  - destruct (Qlt_le_dec (score c) (score c')); simpl; intros [<- | H]; auto.
    apply IH in H as [-> | H]; auto.
Qed.

Lemma sort_desc_In l x : In x (sort_desc l) -> In x l.
Proof.
  induction l as [| c l IH]; simpl; [easy |].
  intros H. apply insert_desc_In in H as [-> | H]; auto.
Qed.

(** The stable descending sort puts first the first candidate of top
    score. *)
Lemma sort_desc_head pre c post :
  (forall x, In x pre -> score x < score c) ->
  (forall x, In x post -> score x <= score c) ->
  exists tl, sort_desc (pre ++ c :: post) = c :: tl.
Proof.
  intros Hpre Hpost. induction pre as [| x pre IH].
  - simpl. destruct (sort_desc post) as [| c' tl] eqn:E; simpl; [eauto |].
    destruct (Qlt_le_dec (score c) (score c')) as [Hlt | _]; [| eauto].
    exfalso. apply (Qlt_not_le _ _ Hlt). apply Hpost. apply sort_desc_In.
    rewrite E. left. reflexivity.
  - destruct IH as [tl E]; [intros y Hy; apply Hpre; right; exact Hy |].
    change (sort_desc ((x :: pre) ++ c :: post))
      with (insert_desc x (sort_desc (pre ++ c :: post))).
    rewrite E. simpl.
    destruct (Qlt_le_dec (score x) (score c)) as [_ | Hle]; [eauto |].
    exfalso. apply (Qlt_not_le (score x) (score c)); [| exact Hle].
    apply Hpre. left. reflexivity.
Qed.

End OtherScorers.

(** ** The clients *)

Module ClientFacts.
Import Py Enrich World Pipeline Terms.

Lemma bind_return {A B} (m : M A) (k : A -> M B) s a s' :
  m s = (Return a, s') -> bind m k s = k a s'.
Proof. intros H. unfold bind. rewrite H. reflexivity. Qed.

Lemma bind_raise {A B} (m : M A) (k : A -> M B) s e s' :
  m s = (Raise e, s') -> bind m k s = (Raise e, s').
Proof. intros H. unfold bind. rewrite H. reflexivity. Qed.

Lemma sent_sleep l d : List.filter is_http (l ++ [EvSleep d]) = List.filter is_http l.
Proof. rewrite List.filter_app. simpl. apply app_nil_r. Qed.

Lemma sent_http l r :
  List.filter is_http (l ++ [EvHttp r]) = (List.filter is_http l ++ [EvHttp r])%list.
Proof. rewrite List.filter_app. reflexivity. Qed.

(** The rate limit sends nothing and leaves the cache alone. *)
Lemma throttle_quiet last md s :
  exists s', throttle last md s = (Return tt, s')
             /\ cache s' = cache s /\ sent s' = sent s.
Proof.
  unfold throttle. destruct (Qlt_le_dec _ _).
  - eexists. split; [reflexivity |]. split; [reflexivity |].
    unfold sent. simpl. apply sent_sleep.
  - eauto.
Qed.

(** [float] leaves a float it returned as it is. *)
Lemma py_float_again x f : py_float x = Return f -> py_float (JNum f) = Return f.
Proof.
  destruct x as [| b | [q | neg |] | str | l | d]; simpl; try discriminate.
  - intros [= <-]. destruct b; reflexivity.
  - destruct (overflows q) eqn:E; [discriminate |]. intros [= <-]. simpl. rewrite E.
    reflexivity.
  - intros [= <-]. reflexivity.
  - intros [= <-]. reflexivity.
  - unfold float_of_string. destruct (negb (underscores_ok false (strip str)));
      [discriminate |].
    destruct (read_sign (remove_underscores (strip str))) as [neg body].
    destruct (String.eqb (lower body) "inf" || String.eqb (lower body) "infinity");
      [intros [= <-]; reflexivity |].
    destruct (String.eqb (lower body) "nan"); [intros [= <-]; reflexivity |].
    destruct (read_decimal body) as [v |]; [| discriminate].
    destruct (overflows v) eqn:E; [intros [= <-]; reflexivity |].
    intros [= <-]. simpl.
    assert (E' : overflows (if neg then (- v)%Q else v) = false).
    { destruct neg; [| exact E]. unfold overflows in *.
      rewrite Qopp_involutive. rewrite orb_comm. exact E. }
    rewrite E'. reflexivity.
Qed.

(** A coordinate pair read from an entity document survives its trip
    through the cache. *)
Lemma extract_coords_stored payload entity_id coords :
  extract_coords payload entity_id = Return coords ->
  cached_coords (coords_entry coords) = Return coords.
Proof.
  destruct coords as [[la lo] |]; [| reflexivity].
  intros H.
  assert (Hs : py_float (JNum la) = Return la /\ py_float (JNum lo) = Return lo).
  { unfold extract_coords in H.
    repeat match type of H with
           | match ?x with _ => _ end = _ => destruct x; try discriminate
           | (let? _ := ?x in _) = _ => destruct x eqn:?; simpl in H; try discriminate
           | (if ?b then _ else _) = _ => destruct b; try discriminate
           end.
    injection H as <- <-. split; eapply py_float_again; eassumption. }
  destruct Hs as [Hla Hlo]. unfold cached_coords, coords_entry.
  set (d := [("lat", JNum la); ("lng", JNum lo)]).
  assert (Hn : is_number (get d "lat") && is_number (get d "lng") = true) by reflexivity.
  assert (Hi1 : index d "lat" = Return (JNum la)) by reflexivity.
  assert (Hi2 : index d "lng" = Return (JNum lo)) by reflexivity.
  rewrite Hn, Hi1, Hi2. cbn [rbind]. rewrite Hla. cbn [rbind]. rewrite Hlo. reflexivity.
Qed.

Section Net.
Variable net : network.

Lemma urlopen_body r s b :
  reply_of net (length (sent s)) r = Body b ->
  exists s', urlopen net r s = (Return b, s')
             /\ cache s' = cache s /\ sent s' = (sent s ++ [EvHttp r])%list.
Proof.
  intros H. unfold urlopen. rewrite H. eexists. split; [reflexivity |].
  split; [reflexivity |]. unfold sent. simpl. apply sent_http.
Qed.

Lemma urlopen_fault r s e :
  reply_of net (length (sent s)) r = Fault e ->
  exists s', urlopen net r s = (Raise e, s')
             /\ cache s' = cache s /\ sent s' = (sent s ++ [EvHttp r])%list.
Proof.
  intros H. unfold urlopen. rewrite H. eexists. split; [reflexivity |].
  split; [reflexivity |]. unfold sent. simpl. apply sent_http.
Qed.

Lemma nominatim_request_body md q s b :
  reply_of net (length (sent s)) (NominatimSearch q) = Body b ->
  exists s', nominatim_request net md q s = (Return (decoded_list b), s')
             /\ cache s' = cache s
             /\ sent s' = (sent s ++ [EvHttp (NominatimSearch q)])%list.
Proof.
  intros H. unfold nominatim_request.
  rewrite (bind_return get_state _ s s s) by reflexivity.
  destruct (throttle_quiet (nominatim_last s) md s) as (s1 & Ht & Hc1 & Hs1).
  rewrite (bind_return _ _ _ _ _ Ht).
  rewrite <- Hs1 in H. destruct (urlopen_body _ _ _ H) as (s2 & Hu & Hc2 & Hs2).
  rewrite (bind_return _ _ _ _ _ Hu).
  unfold bind, touch_nominatim, lift, ret.
  exists (mkState (cache s2) (now s2) (wikidata_last s2) (now s2) (log s2)).
  split; [| split].
  - destruct b as [| j]; [reflexivity |]. destruct j; reflexivity.
  - simpl. congruence.
  - unfold sent in *. simpl. congruence.
Qed.

Lemma nominatim_request_fault md q s e :
  reply_of net (length (sent s)) (NominatimSearch q) = Fault e ->
  exists s', nominatim_request net md q s = (Raise e, s')
             /\ cache s' = cache s
             /\ sent s' = (sent s ++ [EvHttp (NominatimSearch q)])%list.
Proof.
  intros H. unfold nominatim_request.
  rewrite (bind_return get_state _ s s s) by reflexivity.
  destruct (throttle_quiet (nominatim_last s) md s) as (s1 & Ht & Hc1 & Hs1).
  rewrite (bind_return _ _ _ _ _ Ht).
  rewrite <- Hs1 in H. destruct (urlopen_fault _ _ _ H) as (s2 & Hu & Hc2 & Hs2).
  rewrite (bind_raise _ _ _ _ _ Hu).
  exists s2. split; [reflexivity |]. split; congruence.
Qed.

(** A hit of [NominatimClient.search] touches nothing. *)
Lemma nominatim_search_hit md q s cached :
  cache s !! lower (strip q) = Some cached ->
  nominatim_search net md q s = (Return (list_or_empty cached), s).
Proof.
  intros H. unfold nominatim_search.
  rewrite (bind_return get_state _ s s s) by reflexivity.
  rewrite H. reflexivity.
Qed.

Lemma nominatim_search_miss md q s b :
  cache s !! lower (strip q) = None ->
  reply_of net (length (sent s)) (NominatimSearch q) = Body b ->
  exists s', nominatim_search net md q s = (Return (decoded_list b), s')
             /\ cache s' = <[lower (strip q) := JArr (decoded_list b)]> (cache s)
             /\ sent s' = (sent s ++ [EvHttp (NominatimSearch q)])%list.
Proof.
  intros Hm H. unfold nominatim_search.
  rewrite (bind_return get_state _ s s s) by reflexivity.
  rewrite Hm.
  destruct (nominatim_request_body md q s b H) as (s1 & Hr & Hc1 & Hs1).
  rewrite (bind_return _ _ _ _ _ Hr).
  unfold bind, set_cache, ret. eexists. split; [reflexivity |].
  split; [simpl; congruence | exact Hs1].
Qed.

Lemma nominatim_search_miss_fault md q s e :
  cache s !! lower (strip q) = None ->
  reply_of net (length (sent s)) (NominatimSearch q) = Fault e ->
  exists s', nominatim_search net md q s = (Raise e, s')
             /\ cache s' = cache s
             /\ sent s' = (sent s ++ [EvHttp (NominatimSearch q)])%list.
Proof.
  intros Hm H. unfold nominatim_search.
  rewrite (bind_return get_state _ s s s) by reflexivity.
  rewrite Hm.
  destruct (nominatim_request_fault md q s e H) as (s1 & Hr & Hc1 & Hs1).
  rewrite (bind_raise _ _ _ _ _ Hr). eauto.
Qed.

Lemma wikidata_request_body md r s b :
  reply_of net (length (sent s)) r = Body b ->
  exists s', wikidata_request_json net md r s = (Return (decoded_json b), s')
             /\ cache s' = cache s /\ sent s' = (sent s ++ [EvHttp r])%list.
Proof.
  intros H. unfold wikidata_request_json.
  rewrite (bind_return get_state _ s s s) by reflexivity.
  destruct (throttle_quiet (wikidata_last s) md s) as (s1 & Ht & Hc1 & Hs1).
  rewrite (bind_return _ _ _ _ _ Ht).
  rewrite <- Hs1 in H. destruct (urlopen_body _ _ _ H) as (s2 & Hu & Hc2 & Hs2).
  rewrite (bind_return _ _ _ _ _ Hu).
  unfold bind, touch_wikidata, lift.
  exists (mkState (cache s2) (nominatim_last s2) (now s2) (now s2) (log s2)).
  split; [| split].
  - destruct b; reflexivity.
  - simpl. congruence.
  - unfold sent in *. simpl. congruence.
Qed.

Lemma wikidata_request_fault md r s e :
  reply_of net (length (sent s)) r = Fault e ->
  exists s', wikidata_request_json net md r s = (Raise e, s')
             /\ cache s' = cache s /\ sent s' = (sent s ++ [EvHttp r])%list.
Proof.
  intros H. unfold wikidata_request_json.
  rewrite (bind_return get_state _ s s s) by reflexivity.
  destruct (throttle_quiet (wikidata_last s) md s) as (s1 & Ht & Hc1 & Hs1).
  rewrite (bind_return _ _ _ _ _ Ht).
  rewrite <- Hs1 in H. destruct (urlopen_fault _ _ _ H) as (s2 & Hu & Hc2 & Hs2).
  rewrite (bind_raise _ _ _ _ _ Hu).
  exists s2. split; [reflexivity |]. split; congruence.
Qed.

Lemma search_entities_hit md q s cached :
  cache s !! ("wd_search::" ++ lower (strip q)) = Some cached ->
  search_entities net md q s = (Return (list_or_empty cached), s).
Proof.
  intros H. unfold search_entities.
  rewrite (bind_return get_state _ s s s) by reflexivity.
  rewrite H. reflexivity.
Qed.

Lemma search_entities_miss md q s b :
  cache s !! ("wd_search::" ++ lower (strip q)) = None ->
  reply_of net (length (sent s)) (WikidataSearch q) = Body b ->
  exists s', search_entities net md q s = (Return (entity_list (decoded_json b)), s')
             /\ cache s' = <["wd_search::" ++ lower (strip q)
                              := JArr (entity_list (decoded_json b))]> (cache s)
             /\ sent s' = (sent s ++ [EvHttp (WikidataSearch q)])%list.
Proof.
  intros Hm H. unfold search_entities.
  rewrite (bind_return get_state _ s s s) by reflexivity.
  rewrite Hm.
  destruct (wikidata_request_body md _ s b H) as (s1 & Hr & Hc1 & Hs1).
  rewrite (bind_return _ _ _ _ _ Hr).
  unfold bind, set_cache, ret. eexists. split; [reflexivity |].
  split; [simpl; unfold entity_list; congruence | exact Hs1].
Qed.

Lemma search_entities_miss_fault md q s e :
  cache s !! ("wd_search::" ++ lower (strip q)) = None ->
  reply_of net (length (sent s)) (WikidataSearch q) = Fault e ->
  exists s', search_entities net md q s = (Raise e, s')
             /\ cache s' = cache s
             /\ sent s' = (sent s ++ [EvHttp (WikidataSearch q)])%list.
Proof.
  intros Hm H. unfold search_entities.
  rewrite (bind_return get_state _ s s s) by reflexivity.
  rewrite Hm.
  destruct (wikidata_request_fault md _ s e H) as (s1 & Hr & Hc1 & Hs1).
  rewrite (bind_raise _ _ _ _ _ Hr). eauto.
Qed.

(** A hit of [entity_coordinates] touches nothing. *)
Lemma entity_coordinates_hit md id s cached :
  cache s !! ("wd_entity::" ++ id) = Some cached ->
  entity_coordinates net md id s = (cached_coords cached, s).
Proof.
  intros H. unfold entity_coordinates.
  rewrite (bind_return get_state _ s s s) by reflexivity.
  rewrite H. reflexivity.
Qed.

Lemma entity_coordinates_miss md id s b coords :
  cache s !! ("wd_entity::" ++ id) = None ->
  reply_of net (length (sent s)) (WikidataEntity id) = Body b ->
  extract_coords (decoded_json b) id = Return coords ->
  exists s', entity_coordinates net md id s = (Return coords, s')
             /\ cache s' = <["wd_entity::" ++ id := coords_entry coords]> (cache s)
             /\ sent s' = (sent s ++ [EvHttp (WikidataEntity id)])%list.
Proof.
  intros Hm H Hx. unfold entity_coordinates.
  rewrite (bind_return get_state _ s s s) by reflexivity.
  rewrite Hm.
  destruct (wikidata_request_body md _ s b H) as (s1 & Hr & Hc1 & Hs1).
  rewrite (bind_return _ _ _ _ _ Hr).
  unfold bind, lift, set_cache, ret. rewrite Hx. eexists. split; [reflexivity |].
  split; [simpl; congruence | exact Hs1].
Qed.

Lemma entity_coordinates_miss_fault md id s e :
  cache s !! ("wd_entity::" ++ id) = None ->
  reply_of net (length (sent s)) (WikidataEntity id) = Fault e ->
  exists s', entity_coordinates net md id s = (Raise e, s')
             /\ cache s' = cache s
             /\ sent s' = (sent s ++ [EvHttp (WikidataEntity id)])%list.
Proof.
  intros Hm H. unfold entity_coordinates.
  rewrite (bind_return get_state _ s s s) by reflexivity.
  rewrite Hm.
  destruct (wikidata_request_fault md _ s e H) as (s1 & Hr & Hc1 & Hs1).
  rewrite (bind_raise _ _ _ _ _ Hr). eauto.
Qed.

(** The polygon client decodes outside any [try]: text that is no JSON
    leaves its [search] as [JSONDecodeError]. *)
Lemma polygon_search_bad_json md q s :
  cache s !! lower (strip q) = None ->
  reply_of net (length (sent s)) (PolygonSearch q) = Body NotJson ->
  exists s', Polygons.search net md q s = (Raise JSONDecodeError, s')
             /\ cache s' = cache s.
Proof.
  intros Hm H. unfold Polygons.search.
  rewrite (bind_return get_state _ s s s) by reflexivity.
  rewrite Hm.
  destruct (throttle_quiet (nominatim_last s) md s) as (s1 & Ht & Hc1 & Hs1).
  rewrite (bind_return _ _ _ _ _ Ht).
  rewrite <- Hs1 in H. destruct (urlopen_body _ _ _ H) as (s2 & Hu & Hc2 & Hs2).
  rewrite (bind_return _ _ _ _ _ Hu).
  unfold bind, lift. simpl. exists s2. split; [reflexivity | congruence].
Qed.

End Net.
End ClientFacts.

(** ** Claims on the place scorer *)

Module Scoring.
Import Py Enrich Terms NumFacts GeocodeFacts OtherScorers Samples.
Local Open Scope Q_scope.










(** C8.  In each of the three scorers the winner is the first-listed
    candidate of top score, whatever way the scores are computed: with
    every scored candidate before it strictly below its score and every
    scored candidate after it at most equal, it is the one returned.  The
    two loops replace the current best on a strictly greater score only,
    starting from -1.0, below every sum of weights; the polygon scorer
    sorts stably.  The scorers are functions of the candidate list and the
    context. *)
Theorem scorers_first_of_top_score :
  (forall (score_of : list string -> string -> dict -> res Q)
          (producer_name expected_region : option string)
          (pre : list json) (d : dict) (post : list json)
          (la lo : float) (dn : string) (s : Q),
      let t := producer_tokens (or_empty producer_name) in
      let r := lower (or_empty expected_region) in
      parse_coords (JObj d) = Return (d, la, lo) ->
      norm_text (get d "display_name") = Return dn ->
      score_of t r d = Return s ->
      -1.0 < s ->
      below_by (score_of t r) true s pre ->
      below_by (score_of t r) false s post ->
      exists c,
        pick_best_geocode_by score_of (pre ++ JObj d :: post) producer_name expected_region
        = Return (Some (mkGeocodeResult la lo dn "" "nominatim" c)))
  /\ (forall (score_of : list string -> dict -> res Q)
             (producer : string) (pre : list json) (d : dict) (post : list json) (s : Q),
        score_of (producer_tokens producer) d = Return s ->
        -1.0 < s ->
        entities_below_by (score_of (producer_tokens producer)) true s pre ->
        entities_below_by (score_of (producer_tokens producer)) false s post ->
        pick_best_wikidata_entity_by score_of (pre ++ JObj d :: post) producer
        = Return (Some d))
  /\ (forall (scorer : json -> string -> res (option Polygons.PolygonCandidate))
             (results : list json) (sub_region : string)
             (pre : list Polygons.PolygonCandidate) (c : Polygons.PolygonCandidate)
             (post : list Polygons.PolygonCandidate),
        Polygons.scored_candidates_by scorer results sub_region
        = Return (pre ++ c :: post)%list ->
        (forall x, In x pre -> Polygons.score x < Polygons.score c) ->
        (forall x, In x post -> Polygons.score x <= Polygons.score c) ->
        Polygons.choose_polygon_by scorer results sub_region = Return (Some c)).
Proof.
  split; [| split].
  - intros score_of p e pre d post la lo dn s t r Hp Hdn Hs Hlow Hpre Hpost.
    eexists.
    apply (pick_best_by_winner score_of _ p e d la lo dn s); [| exact Hp | exact Hdn].
    apply scan_geocode_first_max with (la := la) (lo := lo); assumption.
  - intros score_of producer pre d post s Hs Hlow Hpre Hpost.
    unfold pick_best_wikidata_entity_by.
    destruct (pre ++ JObj d :: post)%list eqn:E; [destruct pre; discriminate |].
    rewrite <- E. apply scan_entities_first_max with (s := s); assumption.
  - intros scorer results sr pre c post Hsc Hpre Hpost.
    unfold Polygons.choose_polygon_by. rewrite Hsc. simpl rbind.
    destruct (sort_desc_head pre c post Hpre Hpost) as [tl E].
    assert (Hne : exists x l, (pre ++ c :: post)%list = x :: l)
      by (destruct pre; simpl; eauto).
    destruct Hne as (x & l & E'). rewrite E'. cbv iota. rewrite <- E', E. reflexivity.
Qed.

Lemma scorers_first_of_top_score_witness :
  (exists c,
      pick_best_geocode ([JObj no_coords] ++ JObj beaune_town :: [JObj beaune_station])
                        None (Some "Beaune")
      = Return (Some (mkGeocodeResult 47.02 4.84 "Beaune, Bourgogne, France" ""
                                      "nominatim" c)))
  /\ pick_best_wikidata_entity ([JNull] ++ JObj entity_a :: [JObj entity_b]) "Domaine Test"
     = Return (Some entity_a)
  /\ Polygons.choose_polygon plain_repr
       [polygon_item "Chablis, Yonne"; polygon_item "Chablis, Bourgogne";
        polygon_item "Chablis (Bourgogne)"] "Chablis"
     = Return (Some (polygon_of "Chablis, Bourgogne")).
Proof.
  destruct scorers_first_of_top_score as (Hgeo & Hent & Hpoly).
  split; [| split].
  - apply (Hgeo score_geocode None (Some "Beaune") [JObj no_coords] beaune_town
                [JObj beaune_station] (Finite 47.02) (Finite 4.84)
                "Beaune, Bourgogne, France" (0 + 0 + 0 + 0 + 0 + 0.6 + 0.4)).
    + reflexivity.
    + reflexivity.
    + reflexivity.
    + reflexivity.
    + constructor; [| constructor]. left. exists ValueError. split; reflexivity.
    + constructor; [| constructor]. right. eexists. split.
      * exists beaune_station, (Finite 47.03), (Finite 4.85). repeat split; reflexivity.
      * apply Qle_refl.
  - apply (Hent score_entity "Domaine Test" [JNull] entity_a [JObj entity_b]
                (0 + 1.0 + 0.4 + py_min 1.2 (inject_Z 1 * 0.4) + 0.2)).
    + reflexivity.
    + reflexivity.
    + constructor; [| constructor]. left. reflexivity.
    + constructor; [| constructor]. right. exists entity_b. eexists.
      split; [reflexivity |]. split; [reflexivity |]. apply Qle_refl.
  - apply (Hpoly (Polygons.score_candidate plain_repr) _ "Chablis"
                 [polygon_of "Chablis, Yonne"]
                 (polygon_of "Chablis, Bourgogne") [polygon_of "Chablis (Bourgogne)"]).
    + reflexivity.
    + intros x [<- | []]. reflexivity.
    + intros x [<- | []]. discriminate.
Defined.

End Scoring.

(** ** The tiers *)

Module TierFacts.
Import Py Enrich World Pipeline Terms NumFacts ClientFacts.

Lemma bind_inv {A B} (m : M A) (k : A -> M B) s b s' :
  bind m k s = (Return b, s') ->
  exists a s1, m s = (Return a, s1) /\ k a s1 = (Return b, s').
Proof.
  unfold bind. destruct (m s) as [[a | e] s1]; [eauto | discriminate].
Qed.

Lemma lift_inv {A} (r : res A) s a s' :
  lift r s = (Return a, s') -> r = Return a /\ s' = s.
Proof. unfold lift. intros [= -> ->]. auto. Qed.

Section Net.
Variable net : network.
Variable min_delay : Q.
Variable wikidata_min_delay : Q.

(** Whatever its outcome, [search] sends its own request or nothing. *)
Lemma nominatim_search_sent q s out s' :
  nominatim_search net min_delay q s = (out, s') ->
  sent s' = sent s \/ sent s' = (sent s ++ [EvHttp (NominatimSearch q)])%list.
Proof.
  intros H. destruct (cache s !! lower (strip q)) as [cached |] eqn:Hc.
  - rewrite (nominatim_search_hit net min_delay q s cached Hc) in H.
    injection H as _ <-. left. reflexivity.
  - destruct (reply_of net (length (sent s)) (NominatimSearch q)) as [e | b] eqn:Hr.
    + destruct (nominatim_search_miss_fault net min_delay q s e Hc Hr) as (s1 & Hs & _ & Hsent).
      rewrite Hs in H. injection H as _ <-. right. exact Hsent.
    + destruct (nominatim_search_miss net min_delay q s b Hc Hr) as (s1 & Hs & _ & Hsent).
      rewrite Hs in H. injection H as _ <-. right. exact Hsent.
Qed.

Lemma subregion_loop_cons name q rest s :
  subregion_loop net min_delay name (q :: rest) s =
  match nominatim_search net min_delay q s with
  | (Return results, s1) =>
      match pick_best_geocode results None (Some name) with
      | Return (Some picked) => (Return (Some (as_sub_region picked q)), s1)
      | Return None => subregion_loop net min_delay name rest s1
      | Raise e => (Raise e, s1)
      end
  | (Raise e, s1) => (Raise e, s1)
  end.
Proof.
  simpl. unfold bind, lift.
  destruct (nominatim_search net min_delay q s) as [[results | e] s1]; [| reflexivity].
  destruct (pick_best_geocode results None (Some name)) as [[picked |] | e]; reflexivity.
Qed.

Lemma as_sub_region_fields picked q :
  as_sub_region picked q =
  mkGeocodeResult (lat picked) (lng picked) (display_name picked) q
                  "sub_region_geocode" (py_max (confidence picked) 0.7).
Proof. reflexivity. Qed.

(** A result of the sub-region tier carries its tag and its floor. *)
Lemma subregion_loop_some name queries : forall s g s',
  subregion_loop net min_delay name queries s = (Return (Some g), s') ->
  source g = "sub_region_geocode" /\ (0.7 <= confidence g)%Q.
Proof.
  induction queries as [| q rest IH]; intros s g s' H; [discriminate |].
  rewrite subregion_loop_cons in H.
  destruct (nominatim_search net min_delay q s) as [[results | e] s1]; [| discriminate].
  destruct (pick_best_geocode results None (Some name)) as [[picked |] | e];
    [| eapply IH; eauto | discriminate].
  injection H as <- <-. split; [reflexivity | apply py_max_r].
Qed.

(** The last two tiers: both searches came back empty-handed. *)
Lemma resolve_producer_fallback region srg producer primary s s1 s2 :
  try_geocode_producer net min_delay producer primary s = (Return None, s1) ->
  try_wikidata_producer net wikidata_min_delay producer s1 = (Return None, s2) ->
  resolve_producer net min_delay wikidata_min_delay region srg producer primary s
  = (Return (producer_fallback region srg primary), s2).
Proof.
  intros H1 H2. unfold resolve_producer.
  rewrite (bind_return _ _ _ _ _ H1). rewrite (bind_return _ _ _ _ _ H2). reflexivity.
Qed.

Lemma geocode_producers_cons region srg wbp producer rest pg rows s :
  geocode_producers net min_delay wikidata_min_delay region srg wbp (producer :: rest) pg rows s =
  let wines := default [] (wbp !! producer) in
  match field_texts "sub_region" wines with
  | Raise e => (Raise e, s)
  | Return sub_names =>
      match field_texts "grape" wines with
      | Raise e => (Raise e, s)
      | Return _ =>
          let primary := primary_of (Counter sub_names) in
          match resolve_producer net min_delay wikidata_min_delay region srg producer primary s with
          | (Raise e, s1) => (Raise e, s1)
          | (Return geo, s1) =>
              geocode_producers net min_delay wikidata_min_delay region srg wbp rest
                (<[producer := geo]> pg)
                (rows ++ [mkProducerRow producer (length wines) primary geo]) s1
          end
      end
  end.
Proof.
  simpl. unfold bind, lift.
  destruct (field_texts "sub_region" _); [| reflexivity].
  destruct (field_texts "grape" _); [| reflexivity].
  destruct (resolve_producer _ _ _ _ _ _ _ _) as [[geo | e] s1]; reflexivity.
Qed.

(** Every producer the loop goes over ends in [producer_geo]. *)
Lemma geocode_producers_dom region srg wbp producers : forall pg rows s pg' rows' s',
  geocode_producers net min_delay wikidata_min_delay region srg wbp producers pg rows s
  = (Return (pg', rows'), s') ->
  forall p, In p producers \/ is_Some (pg !! p) -> is_Some (pg' !! p).
Proof.
  induction producers as [| producer rest IH]; intros pg rows s pg' rows' s' H p Hp.
  - injection H as <- _ _. destruct Hp as [[] | Hp]. exact Hp.
  - rewrite geocode_producers_cons in H. cbv zeta in H.
    destruct (field_texts "sub_region" _) as [sub_names |]; [| discriminate].
    destruct (field_texts "grape" _); [| discriminate].
    destruct (resolve_producer _ _ _ _ _ _ _ _) as [[geo | e] s1]; [| discriminate].
    eapply IH; [exact H |].
    destruct (decide (producer = p)) as [-> | Hne].
    + right. rewrite lookup_insert_eq. eauto.
    + destruct Hp as [[Heq | Hin] | Hp]; [contradiction | left; exact Hin |].
      right. rewrite lookup_insert_ne by exact Hne. exact Hp.
Qed.

(** Only the geocoder puts a sub-region into [sub_region_geo]. *)
Lemma geocode_subregions_entries sub_regions : forall srg s srg' s',
  geocode_subregions net min_delay sub_regions srg s = (Return srg', s') ->
  forall sr g, srg' !! sr = Some g ->
    srg !! sr = Some g
    \/ (In sr sub_regions /\ source g = "sub_region_geocode" /\ (0.7 <= confidence g)%Q).
Proof.
  induction sub_regions as [| x rest IH]; intros srg s srg' s' H sr g Hg.
  - injection H as <- _. left. exact Hg.
  - simpl in H. apply bind_inv in H as (geo & s1 & Ht & H).
    destruct geo as [g0 |].
    + destruct (IH _ _ _ _ H sr g Hg) as [Hin | (Hin & Hsrc)].
      * destruct (decide (x = sr)) as [-> | Hne].
        -- rewrite lookup_insert_eq in Hin. injection Hin as ->.
           right. split; [left; reflexivity |].
           exact (subregion_loop_some _ _ _ _ _ Ht).
        -- rewrite lookup_insert_ne in Hin by exact Hne. left. exact Hin.
      * right. split; [right; exact Hin | exact Hsrc].
    + destruct (IH _ _ _ _ H sr g Hg) as [Hin | (Hin & Hsrc)]; [left; exact Hin |].
      right. split; [right; exact Hin | exact Hsrc].
Qed.

(** The region-wide result: the geocoded "Bourgogne", else the centroid. *)
Lemma resolve_region_cases s g s' :
  resolve_region net min_delay s = (Return g, s') ->
  try_geocode_subregion net min_delay "Bourgogne" s = (Return (Some g), s')
  \/ (try_geocode_subregion net min_delay "Bourgogne" s = (Return None, s')
      /\ g = hardcoded_region).
Proof.
  unfold resolve_region. intros H. apply bind_inv in H as (o & s1 & Ht & H).
  destruct o as [g0 |]; injection H as <- <-; auto.
Qed.

Lemma producer_loop_some producer primary queries : forall s g s',
  producer_loop net min_delay producer primary queries s = (Return (Some g), s') ->
  source g = "producer_geocode".
Proof.
  induction queries as [| q rest IH]; intros s g s' H; [discriminate |].
  simpl in H. apply bind_inv in H as (results & s1 & _ & H).
  apply bind_inv in H as (picked & s2 & _ & H).
  destruct picked as [picked |]; [| eapply IH; eauto].
  injection H as <- _. reflexivity.
Qed.

Lemma wikidata_loop_some producer queries : forall s g s',
  wikidata_loop net wikidata_min_delay producer queries s = (Return (Some g), s') ->
  source g = "producer_wikidata".
Proof.
  induction queries as [| q rest IH]; intros s g s' H; [discriminate |].
  simpl in H. apply bind_inv in H as (entities & s1 & _ & H).
  apply bind_inv in H as (best & s2 & _ & H).
  destruct best as [[| kv best] |]; try (eapply IH; eauto; fail).
  apply bind_inv in H as (entity_id & s3 & _ & H).
  destruct (String.eqb entity_id ""); [eapply IH; eauto |].
  apply bind_inv in H as (coords & s4 & _ & H).
  destruct coords as [[la lo] |]; [| eapply IH; eauto].
  apply bind_inv in H as (label & s5 & _ & H).
  apply bind_inv in H as (description & s6 & _ & H).
  injection H as <- _. reflexivity.
Qed.

(** The tier a producer's result comes from is written in its source. *)
Lemma resolve_producer_source region srg producer primary s g s' :
  resolve_producer net min_delay wikidata_min_delay region srg producer primary s
  = (Return g, s') ->
  In (source g) ["producer_geocode"; "producer_wikidata";
                 "producer_sub_region_fallback"; "producer_region_fallback"].
Proof.
  unfold resolve_producer. intros H.
  apply bind_inv in H as (geo & s1 & H1 & H).
  apply bind_inv in H as (geo' & s2 & H2 & H).
  destruct geo as [g1 |].
  - injection H2 as <- <-. injection H as <- _.
    left. symmetry. exact (producer_loop_some _ _ _ _ _ _ H1).
  - destruct geo' as [g2 |]; injection H as <- _.
    + right. left. symmetry. exact (wikidata_loop_some _ _ _ _ _ H2).
    + unfold producer_fallback. destruct (srg !! primary); simpl; auto.
Qed.

Lemma geocode_producers_sources region srg wbp producers : forall pg rows s pg' rows' s',
  geocode_producers net min_delay wikidata_min_delay region srg wbp producers pg rows s
  = (Return (pg', rows'), s') ->
  forall p g, pg' !! p = Some g ->
    pg !! p = Some g
    \/ In (source g) ["producer_geocode"; "producer_wikidata";
                      "producer_sub_region_fallback"; "producer_region_fallback"].
Proof.
  induction producers as [| producer rest IH]; intros pg rows s pg' rows' s' H p g Hg.
  - injection H as <- _ _. left. exact Hg.
  - rewrite geocode_producers_cons in H. cbv zeta in H.
    destruct (field_texts "sub_region" _) as [sub_names |]; [| discriminate].
    destruct (field_texts "grape" _); [| discriminate].
    destruct (resolve_producer _ _ _ _ _ _ _ _) as [[geo | e] s1] eqn:Hr; [| discriminate].
    destruct (IH _ _ _ _ _ _ H p g Hg) as [Hin | Hsrc]; [| right; exact Hsrc].
    destruct (decide (producer = p)) as [-> | Hne].
    + rewrite lookup_insert_eq in Hin. injection Hin as ->.
      right. exact (resolve_producer_source _ _ _ _ _ _ _ Hr).
    + rewrite lookup_insert_ne in Hin by exact Hne. left. exact Hin.
Qed.

(** The stages of a run that completes. *)
Lemma run_inv items s r s' :
  run net min_delay wikidata_min_delay items s = (Return (Some r), s') ->
  exists s1 s2 sub_names wbp,
    resolve_region net min_delay s = (Return (region_geo r), s1)
    /\ field_texts "sub_region" items = Return sub_names
    /\ geocode_subregions net min_delay (sorted (remove_dups sub_names)) ∅ s1
       = (Return (sub_region_geo r), s2)
    /\ group_by_producer items ∅ = Return wbp
    /\ geocode_producers net min_delay wikidata_min_delay (region_geo r) (sub_region_geo r)
         wbp (sorted (map fst (map_to_list wbp))) ∅ [] s2
       = (Return (producer_geo r, producer_rows r), s')
    /\ enrich_wines (region_geo r) (sub_region_geo r) (producer_geo r) items
       = Return (enriched_maps r).
Proof.
  unfold run. destruct items as [| i0 rest]; [discriminate |].
  set (items := i0 :: rest). intros H.
  apply bind_inv in H as (region & s1 & Hregion & H).
  apply bind_inv in H as (sub_names & s1' & Hsub & H).
  apply lift_inv in Hsub as [Hsub ->].
  apply bind_inv in H as (srg & s2 & Hsrg & H).
  apply bind_inv in H as (wbp & s2' & Hwbp & H).
  apply lift_inv in Hwbp as [Hwbp ->].
  apply bind_inv in H as ([pg rows] & s3 & Hpg & H).
  apply bind_inv in H as (maps & s3' & Hmaps & H).
  apply lift_inv in Hmaps as [Hmaps ->].
  injection H as <- <-. simpl.
  exists s1, s2, sub_names, wbp. auto 10.
Qed.

End Net.

(** Every map block of the wine-level loop is a [wine_coords]. *)
Lemma enrich_wines_all (P : wine_map -> Prop) region srg pg :
  (forall producer sub_region, P (wine_coords region srg pg producer sub_region)) ->
  forall items maps, enrich_wines region srg pg items = Return maps ->
                     Forall P maps /\ length maps = length items.
Proof.
  intros HP. induction items as [| wine rest IH]; intros maps H.
  - injection H as <-. split; [constructor | reflexivity].
  - simpl in H.
    destruct (norm_text (get wine "producer")) as [producer |]; [| discriminate].
    destruct (norm_text (get wine "sub_region")) as [sub_region |]; [| discriminate].
    destruct (norm_text (get wine "grape")); [| discriminate].
    destruct (norm_text (get wine "description")); [| discriminate].
    simpl in H. destruct (enrich_wines region srg pg rest) as [ms |]; [| discriminate].
    injection H as <-. destruct (IH ms eq_refl) as [Hall Hlen].
    split; [constructor; [apply HP | exact Hall] | simpl; congruence].
Qed.

Lemma insert_sorted_In x y l : In y (insert_sorted x l) <-> y = x \/ In y l.
Proof.
  induction l as [| z l IH]; simpl; [intuition |].
  destruct (String.leb x z); simpl; [intuition |]. rewrite IH. intuition.
Qed.

Lemma sorted_In y l : In y (sorted l) <-> In y l.
Proof.
  induction l as [| x l IH]; simpl; [reflexivity |].
  rewrite insert_sorted_In, IH. intuition.
Qed.

Lemma insert_sorted_NoDup x l :
  ~ In x l -> List.NoDup l -> List.NoDup (insert_sorted x l).
Proof.
  induction l as [| y l IH]; simpl; intros Hx Hl.
  - constructor; [easy | constructor].
  - destruct (String.leb x y).
    + constructor; [simpl; exact Hx | exact Hl].
    + inversion Hl as [| ? ? Hy Hl']; subst. constructor.
      * rewrite insert_sorted_In. intros [-> | H]; [apply Hx; auto | exact (Hy H)].
      * apply IH; [intros H; apply Hx; auto | exact Hl'].
Qed.

Lemma sorted_NoDup l : List.NoDup l -> List.NoDup (sorted l).
Proof.
  induction 1 as [| x l Hx Hl IH]; simpl; [constructor |].
  apply insert_sorted_NoDup; [rewrite sorted_In; exact Hx | exact IH].
Qed.

(** Every wine with a producer name puts that name among the keys. *)
Lemma group_by_producer_keys items : forall acc m,
  group_by_producer items acc = Return m ->
  (forall p, is_Some (acc !! p) -> is_Some (m !! p))
  /\ (forall wine p, In wine items -> norm_text (get wine "producer") = Return p ->
                     p <> "" -> is_Some (m !! p)).
Proof.
  induction items as [| item rest IH]; intros acc m H.
  - injection H as <-. split; [auto | intros ? ? []].
  - simpl in H. destruct (norm_text (get item "producer")) as [p0 |] eqn:Hp0; [| discriminate].
    simpl in H. destruct (String.eqb p0 "") eqn:He.
    + destruct (IH _ _ H) as [Hacc Hitems]. split; [exact Hacc |].
      intros wine p [<- | Hin] Hp Hne; [| eauto].
      rewrite Hp0 in Hp. injection Hp as ->. apply String.eqb_eq in He. contradiction.
    + destruct (IH _ _ H) as [Hacc Hitems]. split.
      * intros p Hp. apply Hacc. destruct (decide (p0 = p)) as [-> | Hne].
        -- rewrite lookup_insert_eq. eauto.
        -- rewrite lookup_insert_ne by exact Hne. exact Hp.
      * intros wine p [<- | Hin] Hp Hne; [| eauto].
        rewrite Hp0 in Hp. injection Hp as ->. apply Hacc.
        rewrite lookup_insert_eq. eauto.
Qed.

End TierFacts.

(** ** Completion on well-formed input *)

Module Completion.
Import Py Enrich World Pipeline Terms GeocodeFacts OtherScorers ClientFacts TierFacts.

Lemma completes_ret {A} (a : A) (post : A -> Prop) : post a -> completes (ret a) post.
Proof. intros Ha s Hc. exists a, s. auto. Qed.

Lemma completes_lift {A} (r : res A) (a : A) (post : A -> Prop) :
  r = Return a -> post a -> completes (lift r) post.
Proof. intros -> Ha s Hc. exists a, s. auto. Qed.

Lemma completes_bind {A B} (m : M A) (k : A -> M B) (mid : A -> Prop) (post : B -> Prop) :
  completes m mid -> (forall a, mid a -> completes (k a) post) ->
  completes (bind m k) post.
Proof.
  intros Hm Hk s Hc. destruct (Hm s Hc) as (a & s1 & Hs & Hc1 & Ha).
  rewrite (bind_return _ _ _ _ _ Hs). exact (Hk a Ha s1 Hc1).
Qed.

Lemma completes_weaken {A} (m : M A) (post post' : A -> Prop) :
  completes m post -> (forall a, post a -> post' a) -> completes m post'.
Proof.
  intros Hm Himp s Hc. destruct (Hm s Hc) as (a & s1 & Hs & Hc1 & Ha).
  exists a, s1. auto.
Qed.

Lemma cache_ok_insert c k v :
  cache_ok c -> records_ok (list_or_empty v) -> (exists o, cached_coords v = Return o) ->
  cache_ok (<[k := v]> c).
Proof.
  intros Hc Hv Ho k' v' H. destruct (decide (k = k')) as [-> | Hne].
  - rewrite lookup_insert_eq in H. injection H as <-. auto.
  - rewrite lookup_insert_ne in H by exact Hne. eapply Hc; eauto.
Qed.

Lemma record_ok_dict x :
  record_ok x = true ->
  exists d, x = JObj d /\ well_typed d = true /\ text_ok (get d "label") = true
            /\ text_ok (get d "description") = true /\ text_ok (get d "id") = true
            /\ candidate_ok d = true.
Proof.
  destruct x as [| | | | | d]; try discriminate. simpl. rewrite !andb_true_iff.
  intros [[[[Hwt Hc] Hl] Hd] Hi]. exists d. repeat split; try assumption.
  unfold candidate_ok. destruct (parseable d); [exact Hwt | exact Hc].
Qed.

(** *** The scorers return *)

Lemma pick_best_geocode_total results p e :
  records_ok results -> exists o, pick_best_geocode results p e = Return o.
Proof.
  intros Hok.
  destruct (scan_geocode_total (producer_tokens (or_empty p)) (lower (or_empty e))
              results (-1.0)%Q None) as [[bs bi] Hscan].
  { eapply Forall_impl; [exact Hok |]. intros x Hx.
    apply record_ok_dict in Hx as (d & -> & _ & _ & _ & _ & Hcand). eauto. }
  destruct bi as [d |].
  - pose proof Hscan as Hinv. apply scan_geocode_inv in Hinv
      as [(_ & [=] & _) | (_ & pre & d' & post & la & lo & _ & [= <-] & Hp & Hs & _)].
    destruct (pick_best_geocode_winner _ p e _ _ _ _ Hscan Hp Hs) as (dn & _ & Hpick).
    eauto.
  - rewrite (pick_best_geocode_no_winner _ _ _ _ Hscan). eauto.
Qed.

Lemma score_entity_total t d :
  text_ok (get d "label") = true -> text_ok (get d "description") = true ->
  exists s, score_entity t d = Return s.
Proof.
  intros H1 H2. apply norm_text_ok in H1 as [l H1], H2 as [ds H2].
  unfold score_entity, rbind. rewrite H1, H2. eauto.
Qed.

Lemma scan_entities_total t results : forall bs bi,
  records_ok results ->
  (forall d, bi = Some d -> record_ok (JObj d) = true) ->
  exists o, scan_entities t results bs bi = Return o
            /\ (forall d, o = Some d -> record_ok (JObj d) = true).
Proof.
  induction results as [| x rest IH]; intros bs bi Hall Hbi; [simpl; eauto |].
  apply Forall_cons_iff in Hall as [Hx Hall].
  pose proof Hx as Hx'. apply record_ok_dict in Hx' as (d & -> & _ & Hl & Hd & _).
  destruct (score_entity_total t d Hl Hd) as [s Hs].
  rewrite (scan_entities_step _ _ _ _ _ _ Hs).
  destruct (Qlt_le_dec bs s); apply IH; auto.
  intros d' [= <-]. exact Hx.
Qed.

Lemma pick_best_wikidata_entity_total results producer :
  records_ok results ->
  exists o, pick_best_wikidata_entity results producer = Return o
            /\ (forall d, o = Some d -> record_ok (JObj d) = true).
Proof.
  intros Hok. unfold pick_best_wikidata_entity.
  destruct results as [| x rest]; [exists None; split; [reflexivity | discriminate] |].
  apply scan_entities_total; [exact Hok | discriminate].
Qed.


(** *** The clients and the tiers return *)

Section Net.
Variable net : network.
Variable min_delay : Q.
Variable wikidata_min_delay : Q.
Hypothesis Hnet : net_ok net.

Lemma nominatim_search_completes q :
  completes (nominatim_search net min_delay q) records_ok.
Proof.
  intros s Hc. destruct (cache s !! lower (strip q)) as [cached |] eqn:Hk.
  - rewrite (nominatim_search_hit net min_delay q s cached Hk).
    exists (list_or_empty cached), s. split; [reflexivity |]. split; [exact Hc |].
    exact (proj1 (Hc _ _ Hk)).
  - destruct (Hnet (length (sent s)) (NominatimSearch q)) as (b & Hb & Hpay).
    destruct (nominatim_search_miss net min_delay q s b Hk Hb) as (s' & Hs & Hc' & _).
    exists (decoded_list b), s'. split; [exact Hs |]. split; [| exact Hpay].
    rewrite Hc'. apply cache_ok_insert; [exact Hc | exact Hpay | simpl; eauto].
Qed.

Lemma search_entities_completes q :
  completes (search_entities net wikidata_min_delay q) records_ok.
Proof.
  intros s Hc. destruct (cache s !! ("wd_search::" ++ lower (strip q))) as [cached |] eqn:Hk.
  - rewrite (search_entities_hit net wikidata_min_delay q s cached Hk).
    exists (list_or_empty cached), s. split; [reflexivity |]. split; [exact Hc |].
    exact (proj1 (Hc _ _ Hk)).
  - destruct (Hnet (length (sent s)) (WikidataSearch q)) as (b & Hb & Hpay).
    destruct (search_entities_miss net wikidata_min_delay q s b Hk Hb) as (s' & Hs & Hc' & _).
    exists (entity_list (decoded_json b)), s'. split; [exact Hs |]. split; [| exact Hpay].
    rewrite Hc'. apply cache_ok_insert; [exact Hc | exact Hpay | simpl; eauto].
Qed.

Lemma entity_coordinates_completes entity_id :
  completes (entity_coordinates net wikidata_min_delay entity_id) (fun _ => True).
Proof.
  intros s Hc. destruct (cache s !! ("wd_entity::" ++ entity_id)) as [cached |] eqn:Hk.
  - rewrite (entity_coordinates_hit net wikidata_min_delay entity_id s cached Hk).
    destruct (proj2 (Hc _ _ Hk)) as [o ->]. exists o, s. auto.
  - destruct (Hnet (length (sent s)) (WikidataEntity entity_id)) as (b & Hb & coords & Hx).
    destruct (entity_coordinates_miss net wikidata_min_delay entity_id s b coords Hk Hb Hx)
      as (s' & Hs & Hc' & _).
    exists coords, s'. split; [exact Hs |]. split; [| exact I].
    rewrite Hc'. apply cache_ok_insert; [exact Hc | |].
    + destruct coords as [[la lo] |]; constructor.
    + exists coords. exact (extract_coords_stored _ _ _ Hx).
Qed.

Lemma subregion_loop_completes name queries :
  completes (subregion_loop net min_delay name queries) (fun _ => True).
Proof.
  induction queries as [| q rest IH]; [apply completes_ret; exact I |].
  simpl. eapply completes_bind; [apply nominatim_search_completes |].
  intros results Hres. destruct (pick_best_geocode_total results None (Some name) Hres)
    as [picked Hp].
  eapply completes_bind; [apply (completes_lift _ _ (fun _ => True) Hp I) |].
  intros [g |] _; [apply completes_ret; exact I | exact IH].
Qed.

Lemma producer_loop_completes producer primary queries :
  completes (producer_loop net min_delay producer primary queries) (fun _ => True).
Proof.
  induction queries as [| q rest IH]; [apply completes_ret; exact I |].
  simpl. eapply completes_bind; [apply nominatim_search_completes |].
  intros results Hres.
  destruct (pick_best_geocode_total results (Some producer) (Some primary) Hres)
    as [picked Hp].
  eapply completes_bind; [apply (completes_lift _ _ (fun _ => True) Hp I) |].
  intros [g |] _; [apply completes_ret; exact I | exact IH].
Qed.

Lemma wikidata_loop_completes producer queries :
  completes (wikidata_loop net wikidata_min_delay producer queries) (fun _ => True).
Proof.
  induction queries as [| q rest IH]; [apply completes_ret; exact I |].
  simpl. eapply completes_bind; [apply search_entities_completes |].
  intros entities Hent.
  destruct (pick_best_wikidata_entity_total entities producer Hent) as (best & Hb & Hok).
  eapply completes_bind;
    [apply (completes_lift _ _ (fun o => forall d, o = Some d -> record_ok (JObj d) = true)
                           Hb Hok) |].
  intros [[| kv d] |] Hbest; try exact IH.
  destruct (record_ok_dict _ (Hbest _ eq_refl)) as (d' & [= <-] & _ & Hl & Hd & Hi & _).
  apply norm_text_ok in Hl as [label Hl], Hd as [description Hd], Hi as [entity_id Hi].
  eapply completes_bind; [apply (completes_lift _ _ (fun _ => True) Hi I) |].
  intros id _. destruct (String.eqb id ""); [exact IH |].
  eapply completes_bind; [apply entity_coordinates_completes |].
  intros [[la lo] |] _; [| exact IH].
  eapply completes_bind; [apply (completes_lift _ _ (fun _ => True) Hl I) |].
  intros l _.
  eapply completes_bind; [apply (completes_lift _ _ (fun _ => True) Hd I) |].
  intros ds _. apply completes_ret. exact I.
Qed.

Lemma resolve_producer_completes region srg producer primary :
  completes (resolve_producer net min_delay wikidata_min_delay region srg producer primary)
            (fun _ => True).
Proof.
  unfold resolve_producer.
  eapply completes_bind; [apply producer_loop_completes |].
  intros geo _. eapply completes_bind with (mid := fun _ => True).
  - destruct geo; [apply completes_ret; exact I | apply wikidata_loop_completes].
  - intros [g |] _; apply completes_ret; exact I.
Qed.

Lemma resolve_region_completes :
  completes (resolve_region net min_delay) (fun _ => True).
Proof.
  unfold resolve_region. eapply completes_bind; [apply subregion_loop_completes |].
  intros [g |] _; apply completes_ret; exact I.
Qed.

End Net.

Lemma chablis_net_ok : net_ok Samples.chablis_net.
Proof.
  intros n [q | q | entity_id | q]; simpl.
  - destruct (String.eqb q "Chablis, Bourgogne, France"); eexists; split;
      try reflexivity; repeat constructor.
  - eexists. split; [reflexivity | constructor].
  - eexists. split; [reflexivity |]. exists None. reflexivity.
  - eexists. split; [reflexivity | exact I].
Qed.

Lemma fresh_cache_ok : cache_ok (cache Samples.fresh).
Proof. intros k v H. simpl in H. rewrite lookup_empty in H. discriminate. Qed.

End Completion.

(** ** Claims on the caches and on faults *)

Module Caching.
Import Py Enrich World Pipeline Terms ClientFacts Samples.

(** C5.  A query that misses the cache and is answered is sent once: the
    decoded list, empty or not, is written under the trimmed lower-case
    key before [search] returns, and a second query with the same key
    returns the same list from the cache, leaving the state as it is: no
    sleep, no request.  The same holds in any later state that still has
    the entry. *)
Theorem nominatim_search_cache_idempotent
    (net : network) (min_delay : Q) (q1 q2 : string) (s : state) (b : body) :
  lower (strip q2) = lower (strip q1) ->
  cache s !! lower (strip q1) = None ->
  reply_of net (length (sent s)) (NominatimSearch q1) = Body b ->
  exists results s1,
    nominatim_search net min_delay q1 s = (Return results, s1)
    /\ results = decoded_list b
    /\ cache s1 !! lower (strip q1) = Some (JArr results)
    /\ sent s1 = (sent s ++ [EvHttp (NominatimSearch q1)])%list
    /\ nominatim_search net min_delay q2 s1 = (Return results, s1)
    /\ (forall s2, cache s2 !! lower (strip q1) = Some (JArr results) ->
                   nominatim_search net min_delay q2 s2 = (Return results, s2)).
Proof.
  intros Hkey Hmiss Hreply.
  destruct (nominatim_search_miss net min_delay q1 s b Hmiss Hreply)
    as (s1 & Hs & Hc & Hsent).
  assert (Hentry : cache s1 !! lower (strip q1) = Some (JArr (decoded_list b))).
  { rewrite Hc. apply lookup_insert_eq. }
  assert (Hagain : forall s2, cache s2 !! lower (strip q1) = Some (JArr (decoded_list b)) ->
                              nominatim_search net min_delay q2 s2
                              = (Return (decoded_list b), s2)).
  { intros s2 H2. rewrite <- Hkey in H2.
    rewrite (nominatim_search_hit net min_delay q2 s2 _ H2). reflexivity. }
  exists (decoded_list b), s1. repeat split; auto.
Qed.

Lemma nominatim_search_cache_idempotent_witness :
  exists results s1,
    nominatim_search chablis_net 1.1 "Chablis, Bourgogne, France" fresh = (Return results, s1)
    /\ results = decoded_list (Json (JArr [JObj chablis]))
    /\ cache s1 !! lower (strip "Chablis, Bourgogne, France") = Some (JArr results)
    /\ sent s1 = (sent fresh ++ [EvHttp (NominatimSearch "Chablis, Bourgogne, France")])%list
    /\ nominatim_search chablis_net 1.1 "  CHABLIS, Bourgogne, france " s1 = (Return results, s1)
    /\ (forall s2, cache s2 !! lower (strip "Chablis, Bourgogne, France") = Some (JArr results) ->
                   nominatim_search chablis_net 1.1 "  CHABLIS, Bourgogne, france " s2
                   = (Return results, s2)).
Proof.
  apply (nominatim_search_cache_idempotent chablis_net 1.1
           "Chablis, Bourgogne, France" "  CHABLIS, Bourgogne, france " fresh
           (Json (JArr [JObj chablis]))); reflexivity.
Defined.

(** C7.  An entity-coordinate lookup that misses the cache and finds no
    coordinate claim in the answer stores the entry with [lat] and [lng]
    null; in every state whose cache has that entry the lookup returns
    [None] and leaves the state as it is: no request, no coordinate. *)
Theorem entity_coordinates_negative_cache
    (net : network) (wikidata_min_delay : Q) (entity_id : string) (s : state) (b : body) :
  cache s !! ("wd_entity::" ++ entity_id) = None ->
  reply_of net (length (sent s)) (WikidataEntity entity_id) = Body b ->
  extract_coords (decoded_json b) entity_id = Return None ->
  exists s1,
    entity_coordinates net wikidata_min_delay entity_id s = (Return None, s1)
    /\ cache s1 !! ("wd_entity::" ++ entity_id) = Some negative_entry
    /\ (forall s2, cache s2 !! ("wd_entity::" ++ entity_id) = Some negative_entry ->
                   entity_coordinates net wikidata_min_delay entity_id s2 = (Return None, s2)).
Proof.
  intros Hmiss Hreply Hx.
  destruct (entity_coordinates_miss net wikidata_min_delay entity_id s b None Hmiss Hreply Hx)
    as (s1 & Hs & Hc & _).
  exists s1. split; [exact Hs |]. split.
  - rewrite Hc. apply lookup_insert_eq.
  - intros s2 H2. rewrite (entity_coordinates_hit net _ _ _ _ H2). reflexivity.
Qed.

Lemma entity_coordinates_negative_cache_witness :
  exists s1,
    entity_coordinates quiet_net 0.25 "Q42" fresh = (Return None, s1)
    /\ cache s1 !! ("wd_entity::" ++ "Q42") = Some negative_entry
    /\ (forall s2, cache s2 !! ("wd_entity::" ++ "Q42") = Some negative_entry ->
                   entity_coordinates quiet_net 0.25 "Q42" s2 = (Return None, s2)).
Proof.
  apply (entity_coordinates_negative_cache quiet_net 0.25 "Q42" fresh (Json (JObj [])));
    reflexivity.
Defined.

(** C4, as the code has it.  A body that is no JSON is absorbed by the
    three clients of the enrichment script: [search] and [search_entities]
    return the empty list, [entity_coordinates] returns [None].  A fault
    raised by [urlopen] (a timeout, a connection error) is caught by none
    of them and leaves the call as the same exception. *)
Theorem clients_absorb_bad_json_only
    (net : network) (min_delay wikidata_min_delay : Q) (s : state) :
  (forall q, cache s !! lower (strip q) = None ->
     (reply_of net (length (sent s)) (NominatimSearch q) = Body NotJson ->
      exists s', nominatim_search net min_delay q s = (Return [], s'))
     /\ (forall e, reply_of net (length (sent s)) (NominatimSearch q) = Fault e ->
                   exists s', nominatim_search net min_delay q s = (Raise e, s')))
  /\ (forall q, cache s !! ("wd_search::" ++ lower (strip q)) = None ->
     (reply_of net (length (sent s)) (WikidataSearch q) = Body NotJson ->
      exists s', search_entities net wikidata_min_delay q s = (Return [], s'))
     /\ (forall e, reply_of net (length (sent s)) (WikidataSearch q) = Fault e ->
                   exists s', search_entities net wikidata_min_delay q s = (Raise e, s')))
  /\ (forall entity_id, cache s !! ("wd_entity::" ++ entity_id) = None ->
     (reply_of net (length (sent s)) (WikidataEntity entity_id) = Body NotJson ->
      exists s', entity_coordinates net wikidata_min_delay entity_id s = (Return None, s'))
     /\ (forall e, reply_of net (length (sent s)) (WikidataEntity entity_id) = Fault e ->
                   exists s', entity_coordinates net wikidata_min_delay entity_id s
                              = (Raise e, s'))).
Proof.
  split; [| split].
  - intros q Hm. split.
    + intros H. destruct (nominatim_search_miss net min_delay q s _ Hm H) as (s' & Hs & _).
      eauto.
    + intros e H.
      destruct (nominatim_search_miss_fault net min_delay q s e Hm H) as (s' & Hs & _).
      eauto.
  - intros q Hm. split.
    + intros H.
      destruct (search_entities_miss net wikidata_min_delay q s _ Hm H) as (s' & Hs & _).
      eauto.
    + intros e H.
      destruct (search_entities_miss_fault net wikidata_min_delay q s e Hm H)
        as (s' & Hs & _).
      eauto.
  - intros id Hm. split.
    + intros H.
      destruct (entity_coordinates_miss net wikidata_min_delay id s _ None Hm H eq_refl)
        as (s' & Hs & _).
      eauto.
    + intros e H.
      destruct (entity_coordinates_miss_fault net wikidata_min_delay id s e Hm H)
        as (s' & Hs & _).
      eauto.
Qed.

Lemma clients_absorb_bad_json_only_witness :
  (exists s', nominatim_search garbage_net 1.1 "Chablis, Bourgogne, France" fresh
              = (Return [], s'))
  /\ (exists s', search_entities garbage_net 0.25 "Domaine Test" fresh = (Return [], s'))
  /\ (exists s', entity_coordinates garbage_net 0.25 "Q42" fresh = (Return None, s'))
  /\ (exists s', entity_coordinates timeout_net 0.25 "Q42" fresh = (Raise TimeoutError, s')).
Proof.
  destruct (clients_absorb_bad_json_only garbage_net 1.1 0.25 fresh) as (Hn & Hs & He).
  destruct (clients_absorb_bad_json_only timeout_net 1.1 0.25 fresh) as (_ & _ & Ht).
  split; [| split; [| split]].
  - apply (proj1 (Hn "Chablis, Bourgogne, France" eq_refl)). reflexivity.
  - apply (proj1 (Hs "Domaine Test" eq_refl)). reflexivity.
  - apply (proj1 (He "Q42" eq_refl)). reflexivity.
  - apply (proj2 (Ht "Q42" eq_refl)). reflexivity.
Defined.

(** C4 as the spec states it fails: a timeout on the geocode search leaves
    [NominatimClient.search] as [TimeoutError]. *)
Lemma nominatim_search_timeout_escapes :
  fst (nominatim_search timeout_net 1.1 "Chablis, Bourgogne, France" fresh)
  = Raise TimeoutError.
Proof. reflexivity. Qed.

End Caching.

(** ** Claims on the resolution tiers *)

Module Tiers.
Import Py Enrich World Pipeline Terms NumFacts ClientFacts TierFacts Samples.

(** C6.  [try_geocode_subregion] has the two phrasings
    "<name>, Bourgogne, France" and "<name>, Burgundy, France", tried in
    that order: a candidate picked under the first ends the search before
    the second is sent; under either the result has the coordinates and the
    label of the pick, the phrasing as its query, the source
    "sub_region_geocode" and the confidence [max(confidence, 0.7)], which
    is at least 0.7; with no pick under either the result is [None].  The
    requests it sends are among those two, in that order. *)
Theorem try_geocode_subregion_phrasings
    (net : network) (min_delay : Q) (name : string) (s : state) :
  let q1 := name ++ ", Bourgogne, France" in
  let q2 := name ++ ", Burgundy, France" in
  let tagged picked q :=
    mkGeocodeResult (lat picked) (lng picked) (display_name picked) q
                    "sub_region_geocode" (py_max (confidence picked) 0.7) in
  subregion_queries name = [q1; q2]
  /\ (forall r1 s1 picked,
        nominatim_search net min_delay q1 s = (Return r1, s1) ->
        pick_best_geocode r1 None (Some name) = Return (Some picked) ->
        try_geocode_subregion net min_delay name s = (Return (Some (tagged picked q1)), s1)
        /\ (0.7 <= confidence (tagged picked q1))%Q)
  /\ (forall r1 s1 r2 s2,
        nominatim_search net min_delay q1 s = (Return r1, s1) ->
        pick_best_geocode r1 None (Some name) = Return None ->
        nominatim_search net min_delay q2 s1 = (Return r2, s2) ->
        (forall picked,
            pick_best_geocode r2 None (Some name) = Return (Some picked) ->
            try_geocode_subregion net min_delay name s = (Return (Some (tagged picked q2)), s2)
            /\ (0.7 <= confidence (tagged picked q2))%Q)
        /\ (pick_best_geocode r2 None (Some name) = Return None ->
            try_geocode_subregion net min_delay name s = (Return None, s2)))
  /\ (forall out s',
        try_geocode_subregion net min_delay name s = (out, s') ->
        exists first second : bool,
          sent s' = (sent s ++ (if first then [EvHttp (NominatimSearch q1)] else [])
                            ++ (if second then [EvHttp (NominatimSearch q2)] else []))%list).
Proof.
  intros q1 q2 tagged. split; [reflexivity |]. split; [| split].
  - intros r1 s1 picked Hs Hp. split; [| apply py_max_r].
    unfold try_geocode_subregion, subregion_queries.
    rewrite subregion_loop_cons. fold q1. rewrite Hs, Hp. reflexivity.
  - intros r1 s1 r2 s2 Hs1 Hp1 Hs2. split.
    + intros picked Hp2. split; [| apply py_max_r].
      unfold try_geocode_subregion, subregion_queries.
      rewrite subregion_loop_cons. fold q1. rewrite Hs1, Hp1.
      rewrite subregion_loop_cons. fold q2. rewrite Hs2, Hp2. reflexivity.
    + intros Hp2.
      unfold try_geocode_subregion, subregion_queries.
      rewrite subregion_loop_cons. fold q1. rewrite Hs1, Hp1.
      rewrite subregion_loop_cons. fold q2. rewrite Hs2, Hp2. reflexivity.
  - intros out s' H.
    unfold try_geocode_subregion, subregion_queries in H.
    rewrite subregion_loop_cons in H. fold q1 in H.
    destruct (nominatim_search net min_delay q1 s) as [o1 s1] eqn:Hs1.
    pose proof (nominatim_search_sent net min_delay _ _ _ _ Hs1) as Hsent1.
    assert (Hstop : s' = s1 ->
              exists first second : bool,
                sent s' = (sent s ++ (if first then [EvHttp (NominatimSearch q1)] else [])
                            ++ (if second then [EvHttp (NominatimSearch q2)] else []))%list).
    { intros ->. destruct Hsent1 as [-> | ->].
      - exists false, false. simpl. rewrite app_nil_r. reflexivity.
      - exists true, false. simpl. reflexivity. }
    destruct o1 as [r1 | e]; [| injection H as _ <-; auto].
    destruct (pick_best_geocode r1 None (Some name)) as [[picked |] | e];
      [injection H as _ <-; auto | | injection H as _ <-; auto].
    rewrite subregion_loop_cons in H. fold q2 in H.
    destruct (nominatim_search net min_delay q2 s1) as [o2 s2] eqn:Hs2.
    pose proof (nominatim_search_sent net min_delay _ _ _ _ Hs2) as Hsent2.
    assert (Hs' : s' = s2).
    { destruct o2 as [r2 | e]; [| injection H as _ <-; reflexivity].
      destruct (pick_best_geocode r2 None (Some name)) as [[picked |] | e];
        simpl in H; injection H as _ <-; reflexivity. }
    subst s'.
    destruct Hsent1 as [E1 | E1], Hsent2 as [E2 | E2]; rewrite E2, E1.
    + exists false, false. simpl. rewrite app_nil_r. reflexivity.
    + exists false, true. reflexivity.
    + exists true, false. simpl. reflexivity.
    + exists true, true. rewrite <- app_assoc. reflexivity.
Qed.

Lemma try_geocode_subregion_phrasings_witness :
  try_geocode_subregion chablis_net 1.1 "Chablis" fresh
  = (Return (Some (mkGeocodeResult 47.81 3.79 "Chablis, Yonne, Bourgogne, France"
                     "Chablis, Bourgogne, France" "sub_region_geocode"
                     (py_max (round3 (py_min 0.98 (py_max 0.2 ((0 + 0 + 0 + 0 + 0 + 0.6 + 0.4) / 2.8))))
                             0.7))),
     snd (nominatim_search chablis_net 1.1 "Chablis, Bourgogne, France" fresh))
  /\ (0.7 <= py_max (round3 (py_min 0.98 (py_max 0.2 ((0 + 0 + 0 + 0 + 0 + 0.6 + 0.4) / 2.8)))) 0.7)%Q.
Proof.
  destruct (try_geocode_subregion_phrasings chablis_net 1.1 "Chablis" fresh)
    as (_ & Hfirst & _).
  apply (Hfirst [JObj chablis]
                (snd (nominatim_search chablis_net 1.1 "Chablis, Bourgogne, France" fresh))
                (mkGeocodeResult 47.81 3.79 "Chablis, Yonne, Bourgogne, France" "" "nominatim"
                   (round3 (py_min 0.98 (py_max 0.2 ((0 + 0 + 0 + 0 + 0 + 0.6 + 0.4) / 2.8))))));
    reflexivity.
Defined.

(** C2.  When the direct geocode attempts and the knowledge-base attempts
    of a producer both end without result, the producer's result is: with
    the dominant sub-region in [sub_region_geo], that entry's latitude,
    longitude, label and query under the source
    "producer_sub_region_fallback" with confidence 0.55; otherwise the
    region-wide result's under "producer_region_fallback" with confidence
    0.35.  The loop over producers stores that result under the producer's
    name and in its row. *)
Theorem producer_fallback_tiers
    (net : network) (min_delay wikidata_min_delay : Q)
    (region : GeocodeResult) (srg : gmap string GeocodeResult)
    (producer primary : string) (s s1 s2 : state) :
  try_geocode_producer net min_delay producer primary s = (Return None, s1) ->
  try_wikidata_producer net wikidata_min_delay producer s1 = (Return None, s2) ->
  exists g,
    resolve_producer net min_delay wikidata_min_delay region srg producer primary s
    = (Return g, s2)
    /\ match srg !! primary with
       | Some sub =>
           g = mkGeocodeResult (lat sub) (lng sub) (display_name sub) (query sub)
                               "producer_sub_region_fallback" 0.55
       | None =>
           g = mkGeocodeResult (lat region) (lng region) (display_name region)
                               (query region) "producer_region_fallback" 0.35
       end
    /\ (forall wbp rest pg rows sub_names grape_names,
          field_texts "sub_region" (default [] (wbp !! producer)) = Return sub_names ->
          field_texts "grape" (default [] (wbp !! producer)) = Return grape_names ->
          primary_of (Counter sub_names) = primary ->
          geocode_producers net min_delay wikidata_min_delay region srg wbp
                            (producer :: rest) pg rows s
          = geocode_producers net min_delay wikidata_min_delay region srg wbp rest
              (<[producer := g]> pg)
              (rows ++ [mkProducerRow producer (length (default [] (wbp !! producer)))
                                      primary g]) s2).
Proof.
  intros H1 H2. exists (producer_fallback region srg primary).
  pose proof (resolve_producer_fallback net min_delay wikidata_min_delay
                region srg producer primary s s1 s2 H1 H2) as Hr.
  split; [exact Hr |]. split.
  - unfold producer_fallback. destruct (srg !! primary); reflexivity.
  - intros wbp rest pg rows sub_names grape_names Hsub Hgrape Hprim.
    rewrite geocode_producers_cons. cbv zeta. rewrite Hsub, Hgrape, Hprim, Hr.
    reflexivity.
Qed.

Lemma producer_fallback_tiers_witness :
  exists g,
    resolve_producer chablis_net 1.1 0.25 hardcoded_region {["Chablis" := chablis_geo]}
                     "Domaine Test" "Chablis" fresh
    = (Return g,
       snd (try_wikidata_producer chablis_net 0.25 "Domaine Test"
              (snd (try_geocode_producer chablis_net 1.1 "Domaine Test" "Chablis" fresh))))
    /\ g = mkGeocodeResult 47.81 3.79 "Chablis, Yonne, Bourgogne, France"
                           "Chablis, Bourgogne, France" "producer_sub_region_fallback" 0.55.
Proof.
  destruct (producer_fallback_tiers chablis_net 1.1 0.25 hardcoded_region
              {["Chablis" := chablis_geo]} "Domaine Test" "Chablis" fresh
              (snd (try_geocode_producer chablis_net 1.1 "Domaine Test" "Chablis" fresh))
              (snd (try_wikidata_producer chablis_net 0.25 "Domaine Test"
                      (snd (try_geocode_producer chablis_net 1.1 "Domaine Test" "Chablis"
                                                 fresh)))))
    as (g & Hr & Hg & _).
  - vm_compute. reflexivity.
  - vm_compute. reflexivity.
  - exists g. split; [exact Hr | exact Hg].
Defined.

(** C10.  The map block of a wine has confidence at least 0.3: at least
    0.68 when the coordinates are its sub-region's, at least 0.5 when they
    are its producer's, and 0.3 when they are the region's; so has every
    record of a run that completes, one block per input wine. *)
Theorem wine_confidence_floors
    (net : network) (min_delay wikidata_min_delay : Q) :
  (forall region srg pg producer sub_region,
      let m := wine_coords region srg pg producer sub_region in
      (map_source m = "sub_region" /\ 0.68 <= map_confidence m
       \/ map_source m = "producer" /\ 0.5 <= map_confidence m
       \/ map_source m = "region" /\ map_confidence m == 0.3)
      /\ 0.3 <= map_confidence m)%Q
  /\ (forall items s r s',
        run net min_delay wikidata_min_delay items s = (Return (Some r), s') ->
        Forall (fun m => 0.3 <= map_confidence m)%Q (enriched_maps r)
        /\ length (enriched_maps r) = length items).
Proof.
  assert (Hone : (forall region srg pg producer sub_region,
      let m := wine_coords region srg pg producer sub_region in
      (map_source m = "sub_region" /\ 0.68 <= map_confidence m
       \/ map_source m = "producer" /\ 0.5 <= map_confidence m
       \/ map_source m = "region" /\ map_confidence m == 0.3)
      /\ 0.3 <= map_confidence m)%Q).
  { intros region srg pg producer sub_region. unfold wine_coords.
    assert (E68 : (0.68 == inject_Z 680 / 1000)%Q) by reflexivity.
    assert (E50 : (0.5 == inject_Z 500 / 1000)%Q) by reflexivity.
    destruct (if String.eqb sub_region "" then None else srg !! sub_region) as [g |].
    - simpl. assert (H : (0.68 <= round3 (py_max 0.68 (confidence g)))%Q).
      { rewrite E68 at 1. apply round3_lower. rewrite <- E68. apply py_max_l. }
      split; [left; split; [reflexivity | exact H] |].
      eapply Qle_trans; [| exact H]. unfold Qle; simpl; lia.
    - destruct (if String.eqb producer "" then None else pg !! producer) as [g |].
      + simpl. assert (H : (0.5 <= round3 (py_max 0.5 (confidence g)))%Q).
        { rewrite E50 at 1. apply round3_lower. rewrite <- E50. apply py_max_l. }
        split; [right; left; split; [reflexivity | exact H] |].
        eapply Qle_trans; [| exact H]. unfold Qle; simpl; lia.
      + simpl. split; [right; right; split; reflexivity |].
        vm_compute. discriminate. }
  split; [exact Hone |].
  intros items s r s' H.
  apply run_inv in H as (s1 & s2 & sub_names & wbp & _ & _ & _ & _ & _ & Hmaps).
  apply (enrich_wines_all _ _ _ _ (fun producer sub_region =>
           proj2 (Hone _ _ _ producer sub_region)) _ _ Hmaps).
Qed.

Lemma wine_confidence_floors_witness :
  Forall (fun m => 0.3 <= map_confidence m)%Q
    (match fst (run chablis_net 1.1 0.25 sample_items fresh) with
     | Return (Some r) => enriched_maps r
     | _ => []
     end)
  /\ fst (run chablis_net 1.1 0.25 sample_items fresh) <> Return None.
Proof.
  destruct (run chablis_net 1.1 0.25 sample_items fresh) as [o s'] eqn:E.
  assert (Ho : exists r, o = Return (Some r)).
  { apply (f_equal fst) in E. simpl in E. rewrite <- E. vm_compute. eauto. }
  destruct Ho as [r ->]. simpl. split; [| discriminate].
  exact (proj1 (proj2 (wine_confidence_floors chablis_net 1.1 0.25)
                      sample_items fresh r s' E)).
Defined.

End Tiers.

(** ** The examples of the specification *)

Module Examples.
Import Py Enrich World Pipeline Samples.

(** The single candidate for Chablis resolves the sub-region at the floor
    of the tier. *)
Example chablis_resolves :
  fst (try_geocode_subregion chablis_net 1.1 "Chablis" fresh) = Return (Some chablis_geo).
Proof. reflexivity. Qed.

(** With every producer query empty, "Domaine Test" falls back on its
    dominant sub-region. *)
Example domaine_test_falls_back :
  match fst (run chablis_net 1.1 0.25 sample_items fresh) with
  | Return (Some r) =>
      producer_geo r !! "Domaine Test"
      = Some (mkGeocodeResult 47.81 3.79 "Chablis, Yonne, Bourgogne, France"
                              "Chablis, Bourgogne, France"
                              "producer_sub_region_fallback" 0.55)
      /\ region_geo r = hardcoded_region
  | _ => False
  end.
Proof. vm_compute. split; reflexivity. Qed.

(** A second run over the cache the first one left sends nothing. *)
Example second_run_is_silent :
  let s1 := snd (run chablis_net 1.1 0.25 sample_items fresh) in
  log (snd (run chablis_net 1.1 0.25 sample_items s1)) = log s1.
Proof. vm_compute. reflexivity. Qed.

End Examples.

(** ** Replaying a run over its own cache *)

Module Replay.
Import Py Enrich World Pipeline Terms CacheTerms ClientFacts TierFacts.

Lemma replayable_ret {A} (a : A) : replays (ret a) (ret a).
Proof. intros s a' s' [= <- <-]. split; [reflexivity | reflexivity]. Qed.

Lemma replayable_lift {A} (r : res A) : replays (lift r) (lift r).
Proof. intros s a s' H. apply lift_inv in H as [-> ->]. split; reflexivity. Qed.

Lemma replayable_bind {A B} (m m' : M A) (k k' : A -> M B) :
  replays m m' -> (forall a, replays (k a) (k' a)) -> replays (bind m k) (bind m' k').
Proof.
  intros Hm Hk s b s' H. apply bind_inv in H as (a & s1 & H1 & H2).
  destruct (Hm _ _ _ H1) as [Hsub1 Hre1]. destruct (Hk a _ _ _ H2) as [Hsub2 Hre2].
  split; [etrans; eassumption |].
  intros s2 Hs2. rewrite (bind_return _ _ _ _ _ (Hre1 s2 (transitivity Hsub2 Hs2))).
  apply Hre2. exact Hs2.
Qed.

Section Net.
Variables net net' : network.
Variables min_delay min_delay' : Q.
Variables wikidata_min_delay wikidata_min_delay' : Q.

Lemma nominatim_search_replayable q : replays (nominatim_search net min_delay q)
    (nominatim_search net' min_delay' q).
Proof.
  intros s a s' H. destruct (cache s !! lower (strip q)) as [cached |] eqn:Hk.
  - rewrite (nominatim_search_hit net min_delay q s cached Hk) in H.
    injection H as <- <-. split; [reflexivity |].
    intros s2 Hs2. apply nominatim_search_hit. eapply lookup_weaken; eauto.
  - destruct (reply_of net (length (sent s)) (NominatimSearch q)) as [e | b] eqn:Hr.
    + destruct (nominatim_search_miss_fault net min_delay q s e Hk Hr) as (s1 & Hs & _).
      rewrite Hs in H. discriminate.
    + destruct (nominatim_search_miss net min_delay q s b Hk Hr) as (s1 & Hs & Hc & _).
      rewrite Hs in H. injection H as <- <-. split.
      * rewrite Hc. apply insert_subseteq. exact Hk.
      * intros s2 Hs2.
        rewrite (nominatim_search_hit net' min_delay' q s2 (JArr (decoded_list b)));
          [reflexivity |].
        eapply lookup_weaken; [| exact Hs2]. rewrite Hc. apply lookup_insert_eq.
Qed.

Lemma search_entities_replayable q : replays (search_entities net wikidata_min_delay q)
    (search_entities net' wikidata_min_delay' q).
Proof.
  intros s a s' H.
  destruct (cache s !! ("wd_search::" ++ lower (strip q))) as [cached |] eqn:Hk.
  - rewrite (search_entities_hit net wikidata_min_delay q s cached Hk) in H.
    injection H as <- <-. split; [reflexivity |].
    intros s2 Hs2. apply search_entities_hit. eapply lookup_weaken; eauto.
  - destruct (reply_of net (length (sent s)) (WikidataSearch q)) as [e | b] eqn:Hr.
    + destruct (search_entities_miss_fault net wikidata_min_delay q s e Hk Hr)
        as (s1 & Hs & _).
      rewrite Hs in H. discriminate.
    + destruct (search_entities_miss net wikidata_min_delay q s b Hk Hr)
        as (s1 & Hs & Hc & _).
      rewrite Hs in H. injection H as <- <-. split.
      * rewrite Hc. apply insert_subseteq. exact Hk.
      * intros s2 Hs2.
        rewrite (search_entities_hit net' wikidata_min_delay' q s2
                   (JArr (entity_list (decoded_json b)))); [reflexivity |].
        eapply lookup_weaken; [| exact Hs2]. rewrite Hc. apply lookup_insert_eq.
Qed.

Lemma entity_coordinates_miss_raise id s b e :
  cache s !! ("wd_entity::" ++ id) = None ->
  reply_of net (length (sent s)) (WikidataEntity id) = Body b ->
  extract_coords (decoded_json b) id = Raise e ->
  exists s', entity_coordinates net wikidata_min_delay id s = (Raise e, s')
             /\ cache s' = cache s
             /\ sent s' = (sent s ++ [EvHttp (WikidataEntity id)])%list.
Proof.
  intros Hm H Hx. unfold entity_coordinates.
  rewrite (bind_return get_state _ s s s) by reflexivity.
  rewrite Hm.
  destruct (wikidata_request_body net wikidata_min_delay _ s b H) as (s1 & Hr & Hc1 & Hs1).
  rewrite (bind_return _ _ _ _ _ Hr).
  unfold bind, lift. rewrite Hx. eauto.
Qed.

Lemma entity_coordinates_replayable id :
  replays (entity_coordinates net wikidata_min_delay id)
    (entity_coordinates net' wikidata_min_delay' id).
Proof.
  intros s a s' H.
  destruct (cache s !! ("wd_entity::" ++ id)) as [cached |] eqn:Hk.
  - rewrite (entity_coordinates_hit net wikidata_min_delay id s cached Hk) in H.
    injection H as Hc <-. split; [reflexivity |].
    intros s2 Hs2. rewrite <- Hc. apply entity_coordinates_hit.
    eapply lookup_weaken; eauto.
  - destruct (reply_of net (length (sent s)) (WikidataEntity id)) as [e | b] eqn:Hr.
    + destruct (entity_coordinates_miss_fault net wikidata_min_delay id s e Hk Hr)
        as (s1 & Hs & _).
      rewrite Hs in H. discriminate.
    + destruct (extract_coords (decoded_json b) id) as [coords | e] eqn:Hx.
      * destruct (entity_coordinates_miss net wikidata_min_delay id s b coords Hk Hr Hx)
          as (s1 & Hs & Hc & _).
        rewrite Hs in H. injection H as <- <-. split.
        -- rewrite Hc. apply insert_subseteq. exact Hk.
        -- intros s2 Hs2.
           rewrite (entity_coordinates_hit net' wikidata_min_delay' id s2 (coords_entry coords)).
           ++ rewrite (extract_coords_stored _ _ _ Hx). reflexivity.
           ++ eapply lookup_weaken; [| exact Hs2]. rewrite Hc. apply lookup_insert_eq.
      * destruct (entity_coordinates_miss_raise id s b e Hk Hr Hx) as (s1 & Hs & _).
        rewrite Hs in H. discriminate.
Qed.

Lemma subregion_loop_replayable name queries :
  replays (subregion_loop net min_delay name queries)
    (subregion_loop net' min_delay' name queries).
Proof.
  induction queries as [| q rest IH]; [apply replayable_ret |].
  simpl. apply replayable_bind; [apply nominatim_search_replayable |].
  intros results. apply replayable_bind; [apply replayable_lift |].
  intros [picked |]; [apply replayable_ret | exact IH].
Qed.

Lemma producer_loop_replayable producer primary queries :
  replays (producer_loop net min_delay producer primary queries)
    (producer_loop net' min_delay' producer primary queries).
Proof.
  induction queries as [| q rest IH]; [apply replayable_ret |].
  simpl. apply replayable_bind; [apply nominatim_search_replayable |].
  intros results. apply replayable_bind; [apply replayable_lift |].
  intros [picked |]; [apply replayable_ret | exact IH].
Qed.

Lemma wikidata_loop_replayable producer queries :
  replays (wikidata_loop net wikidata_min_delay producer queries)
    (wikidata_loop net' wikidata_min_delay' producer queries).
Proof.
  induction queries as [| q rest IH]; [apply replayable_ret |].
  simpl. apply replayable_bind; [apply search_entities_replayable |].
  intros entities. apply replayable_bind; [apply replayable_lift |].
  intros [[| kv best] |]; try exact IH.
  apply replayable_bind; [apply replayable_lift |].
  intros entity_id. destruct (String.eqb entity_id ""); [exact IH |].
  apply replayable_bind; [apply entity_coordinates_replayable |].
  intros [[la lo] |]; [| exact IH].
  apply replayable_bind; [apply replayable_lift |]. intros label.
  apply replayable_bind; [apply replayable_lift |]. intros description.
  apply replayable_ret.
Qed.

Lemma resolve_producer_replayable region srg producer primary :
  replays (resolve_producer net min_delay wikidata_min_delay region srg producer primary)
    (resolve_producer net' min_delay' wikidata_min_delay' region srg producer primary).
Proof.
  unfold resolve_producer. apply replayable_bind; [apply producer_loop_replayable |].
  intros geo. apply replayable_bind.
  - destruct geo; [apply replayable_ret | apply wikidata_loop_replayable].
  - intros [g |]; apply replayable_ret.
Qed.

Lemma geocode_subregions_replayable sub_regions : forall srg,
  replays (geocode_subregions net min_delay sub_regions srg)
    (geocode_subregions net' min_delay' sub_regions srg).
Proof.
  induction sub_regions as [| sr rest IH]; intros srg; [apply replayable_ret |].
  simpl. apply replayable_bind; [apply subregion_loop_replayable |].
  intros [g |]; apply IH.
Qed.

Lemma geocode_producers_replayable region srg wbp producers : forall pg rows,
  replays (geocode_producers net min_delay wikidata_min_delay region srg wbp
                                producers pg rows)
    (geocode_producers net' min_delay' wikidata_min_delay' region srg wbp
                                producers pg rows).
Proof.
  induction producers as [| producer rest IH]; intros pg rows; [apply replayable_ret |].
  simpl. apply replayable_bind; [apply replayable_lift |]. intros sub_names.
  apply replayable_bind; [apply replayable_lift |]. intros grape_names.
  apply replayable_bind; [apply resolve_producer_replayable |]. intros geo. apply IH.
Qed.

Lemma run_replayable items : replays (run net min_delay wikidata_min_delay items)
    (run net' min_delay' wikidata_min_delay' items).
Proof.
  unfold run. destruct items as [| i0 rest]; [apply replayable_ret |].
  apply replayable_bind.
  { unfold resolve_region. apply replayable_bind; [apply subregion_loop_replayable |].
    intros [g |]; apply replayable_ret. }
  intros region. apply replayable_bind; [apply replayable_lift |]. intros sub_names.
  apply replayable_bind; [apply geocode_subregions_replayable |]. intros srg.
  apply replayable_bind; [apply replayable_lift |]. intros wbp.
  apply replayable_bind; [apply geocode_producers_replayable |]. intros [pg rows].
  apply replayable_bind; [apply replayable_lift |]. intros maps.
  apply replayable_ret.
Qed.

End Net.
End Replay.

(** ** Nothing cached is ever lost *)

Module Keeping.
Import Py Enrich World Pipeline Terms CacheTerms ClientFacts TierFacts Replay.

Lemma keeps_intro_same {A} (m : M A) :
  (forall s o s', m s = (o, s') -> s' = s) -> keeps m.
Proof.
  intros H s o s' Hm. rewrite (H _ _ _ Hm). split; [reflexivity |].
  exists []. rewrite app_nil_r. reflexivity.
Qed.

Lemma keeps_ret {A} (a : A) : keeps (ret a).
Proof. apply keeps_intro_same. intros s o s' [= _ <-]. reflexivity. Qed.

Lemma keeps_lift {A} (r : res A) : keeps (lift r).
Proof. apply keeps_intro_same. intros s o s' [= _ <-]. reflexivity. Qed.

Lemma keeps_bind {A B} (m : M A) (k : A -> M B) :
  keeps m -> (forall a, keeps (k a)) -> keeps (bind m k).
Proof.
  intros Hm Hk s o s' H. unfold bind in H.
  destruct (m s) as [[a | e] s1] eqn:E.
  - destruct (Hm _ _ _ E) as (Hc1 & evs1 & Hs1).
    destruct (Hk a _ _ _ H) as (Hc2 & evs2 & Hs2).
    split; [etrans; eassumption |].
    exists (evs1 ++ evs2)%list. rewrite Hs2, Hs1, app_assoc. reflexivity.
  - injection H as <- <-. exact (Hm _ _ _ E).
Qed.

Section Net.
Variable net : network.
Variable min_delay : Q.
Variable wikidata_min_delay : Q.

Lemma nominatim_search_keeps q : keeps (nominatim_search net min_delay q).
Proof.
  intros s o s' H. destruct (cache s !! lower (strip q)) as [cached |] eqn:Hk.
  - rewrite (nominatim_search_hit net min_delay q s cached Hk) in H.
    injection H as _ <-. split; [reflexivity |]. exists []. rewrite app_nil_r. reflexivity.
  - destruct (reply_of net (length (sent s)) (NominatimSearch q)) as [e | b] eqn:Hr.
    + destruct (nominatim_search_miss_fault net min_delay q s e Hk Hr)
        as (s1 & Hs & Hc & Hsent).
      rewrite Hs in H. injection H as _ <-. rewrite Hc. split; [reflexivity | eauto].
    + destruct (nominatim_search_miss net min_delay q s b Hk Hr) as (s1 & Hs & Hc & Hsent).
      rewrite Hs in H. injection H as _ <-. rewrite Hc.
      split; [apply insert_subseteq; exact Hk | eauto].
Qed.

Lemma search_entities_keeps q : keeps (search_entities net wikidata_min_delay q).
Proof.
  intros s o s' H.
  destruct (cache s !! ("wd_search::" ++ lower (strip q))) as [cached |] eqn:Hk.
  - rewrite (search_entities_hit net wikidata_min_delay q s cached Hk) in H.
    injection H as _ <-. split; [reflexivity |]. exists []. rewrite app_nil_r. reflexivity.
  - destruct (reply_of net (length (sent s)) (WikidataSearch q)) as [e | b] eqn:Hr.
    + destruct (search_entities_miss_fault net wikidata_min_delay q s e Hk Hr)
        as (s1 & Hs & Hc & Hsent).
      rewrite Hs in H. injection H as _ <-. rewrite Hc. split; [reflexivity | eauto].
    + destruct (search_entities_miss net wikidata_min_delay q s b Hk Hr)
        as (s1 & Hs & Hc & Hsent).
      rewrite Hs in H. injection H as _ <-. rewrite Hc.
      split; [apply insert_subseteq; exact Hk | eauto].
Qed.

Lemma entity_coordinates_keeps id : keeps (entity_coordinates net wikidata_min_delay id).
Proof.
  intros s o s' H.
  destruct (cache s !! ("wd_entity::" ++ id)) as [cached |] eqn:Hk.
  - rewrite (entity_coordinates_hit net wikidata_min_delay id s cached Hk) in H.
    injection H as _ <-. split; [reflexivity |]. exists []. rewrite app_nil_r. reflexivity.
  - destruct (reply_of net (length (sent s)) (WikidataEntity id)) as [e | b] eqn:Hr.
    + destruct (entity_coordinates_miss_fault net wikidata_min_delay id s e Hk Hr)
        as (s1 & Hs & Hc & Hsent).
      rewrite Hs in H. injection H as _ <-. rewrite Hc. split; [reflexivity | eauto].
    + destruct (extract_coords (decoded_json b) id) as [coords | e] eqn:Hx.
      * destruct (entity_coordinates_miss net wikidata_min_delay id s b coords Hk Hr Hx)
          as (s1 & Hs & Hc & Hsent).
        rewrite Hs in H. injection H as _ <-. rewrite Hc.
        split; [apply insert_subseteq; exact Hk | eauto].
      * destruct (entity_coordinates_miss_raise net wikidata_min_delay id s b e Hk Hr Hx)
          as (s1 & Hs & Hc & Hsent).
        rewrite Hs in H. injection H as _ <-. rewrite Hc. split; [reflexivity | eauto].
Qed.

Lemma subregion_loop_keeps name queries : keeps (subregion_loop net min_delay name queries).
Proof.
  induction queries as [| q rest IH]; [apply keeps_ret |].
  simpl. apply keeps_bind; [apply nominatim_search_keeps |].
  intros results. apply keeps_bind; [apply keeps_lift |].
  intros [picked |]; [apply keeps_ret | exact IH].
Qed.

Lemma producer_loop_keeps producer primary queries :
  keeps (producer_loop net min_delay producer primary queries).
Proof.
  induction queries as [| q rest IH]; [apply keeps_ret |].
  simpl. apply keeps_bind; [apply nominatim_search_keeps |].
  intros results. apply keeps_bind; [apply keeps_lift |].
  intros [picked |]; [apply keeps_ret | exact IH].
Qed.

Lemma wikidata_loop_keeps producer queries :
  keeps (wikidata_loop net wikidata_min_delay producer queries).
Proof.
  induction queries as [| q rest IH]; [apply keeps_ret |].
  simpl. apply keeps_bind; [apply search_entities_keeps |].
  intros entities. apply keeps_bind; [apply keeps_lift |].
  intros [[| kv best] |]; try exact IH.
  apply keeps_bind; [apply keeps_lift |].
  intros entity_id. destruct (String.eqb entity_id ""); [exact IH |].
  apply keeps_bind; [apply entity_coordinates_keeps |].
  intros [[la lo] |]; [| exact IH].
  apply keeps_bind; [apply keeps_lift |]. intros label.
  apply keeps_bind; [apply keeps_lift |]. intros description.
  apply keeps_ret.
Qed.

Lemma resolve_producer_keeps region srg producer primary :
  keeps (resolve_producer net min_delay wikidata_min_delay region srg producer primary).
Proof.
  unfold resolve_producer. apply keeps_bind; [apply producer_loop_keeps |].
  intros geo. apply keeps_bind.
  - destruct geo; [apply keeps_ret | apply wikidata_loop_keeps].
  - intros [g |]; apply keeps_ret.
Qed.

Lemma geocode_subregions_keeps sub_regions : forall srg,
  keeps (geocode_subregions net min_delay sub_regions srg).
Proof.
  induction sub_regions as [| sr rest IH]; intros srg; [apply keeps_ret |].
  simpl. apply keeps_bind; [apply subregion_loop_keeps |].
  intros [g |]; apply IH.
Qed.

Lemma geocode_producers_keeps region srg wbp producers : forall pg rows,
  keeps (geocode_producers net min_delay wikidata_min_delay region srg wbp
                           producers pg rows).
Proof.
  induction producers as [| producer rest IH]; intros pg rows; [apply keeps_ret |].
  simpl. apply keeps_bind; [apply keeps_lift |]. intros sub_names.
  apply keeps_bind; [apply keeps_lift |]. intros grape_names.
  apply keeps_bind; [apply resolve_producer_keeps |]. intros geo. apply IH.
Qed.

Lemma run_keeps items : keeps (run net min_delay wikidata_min_delay items).
Proof.
  unfold run. destruct items as [| i0 rest]; [apply keeps_ret |].
  apply keeps_bind.
  { unfold resolve_region. apply keeps_bind; [apply subregion_loop_keeps |].
    intros [g |]; apply keeps_ret. }
  intros region. apply keeps_bind; [apply keeps_lift |]. intros sub_names.
  apply keeps_bind; [apply geocode_subregions_keeps |]. intros srg.
  apply keeps_bind; [apply keeps_lift |]. intros wbp.
  apply keeps_bind; [apply geocode_producers_keeps |]. intros [pg rows].
  apply keeps_bind; [apply keeps_lift |]. intros maps.
  apply keeps_ret.
Qed.

End Net.
End Keeping.

(** ** What leaves the resolution pipeline *)

Module Resolution.
Import Py Enrich World Pipeline Terms ResolutionTerms CacheTerms NumFacts ClientFacts
       TierFacts Keeping Samples.

Lemma place_answer_weaken c c' name q o :
  place_answer c name q o -> c ⊆ c' -> place_answer c' name q o.
Proof.
  intros (cached & Hc & Hp) Hsub. exists cached. split; [| exact Hp].
  eapply lookup_weaken; eauto.
Qed.

Lemma answers_weaken c c' name o qs :
  Forall (fun q => place_answer c name q o) qs -> c ⊆ c' ->
  Forall (fun q => place_answer c' name q o) qs.
Proof.
  intros H Hsub. eapply Forall_impl; [exact H |].
  intros q Hq. exact (place_answer_weaken _ _ _ _ _ Hq Hsub).
Qed.

Lemma sub_region_found_weaken c c' name g :
  sub_region_found c name g -> c ⊆ c' -> sub_region_found c' name g.
Proof.
  intros (picked & pre & q & post & Hq & Hpre & Hp & Hg) Hsub.
  exists picked, pre, q, post. split; [exact Hq |].
  split; [exact (answers_weaken _ _ _ _ _ Hpre Hsub) |].
  split; [exact (place_answer_weaken _ _ _ _ _ Hp Hsub) | exact Hg].
Qed.

Section Net.
Variable net : network.
Variable min_delay : Q.
Variable wikidata_min_delay : Q.

(** A search that returns leaves its answer in the cache. *)
Lemma nominatim_search_post q s rs s' :
  nominatim_search net min_delay q s = (Return rs, s') ->
  cache s ⊆ cache s'
  /\ exists cached, cache s' !! lower (strip q) = Some cached
                    /\ rs = list_or_empty cached.
Proof.
  intros H. destruct (cache s !! lower (strip q)) as [cached |] eqn:Hk.
  - rewrite (nominatim_search_hit net min_delay q s cached Hk) in H.
    injection H as <- <-. split; [reflexivity | eauto].
  - destruct (reply_of net (length (sent s)) (NominatimSearch q)) as [e | b] eqn:Hr.
    + destruct (nominatim_search_miss_fault net min_delay q s e Hk Hr) as (s1 & Hs & _).
      rewrite Hs in H. discriminate.
    + destruct (nominatim_search_miss net min_delay q s b Hk Hr) as (s1 & Hs & Hc & _).
      rewrite Hs in H. injection H as <- <-. split.
      * rewrite Hc. apply insert_subseteq. exact Hk.
      * exists (JArr (decoded_list b)). split; [| reflexivity].
        rewrite Hc. apply lookup_insert_eq.
Qed.

(** The outcome of the sub-region tier, read back from the cache. *)
Lemma subregion_loop_outcome name qs : forall s o s',
  subregion_loop net min_delay name qs s = (Return o, s') ->
  cache s ⊆ cache s'
  /\ match o with
     | Some g =>
         exists picked pre q post,
           qs = (pre ++ q :: post)%list
           /\ Forall (fun q' => place_answer (cache s') name q' None) pre
           /\ place_answer (cache s') name q (Some picked)
           /\ g = as_sub_region picked q
     | None => Forall (fun q' => place_answer (cache s') name q' None) qs
     end.
Proof.
  induction qs as [| q qs IH]; intros s o s' H.
  - injection H as <- <-. split; [reflexivity | constructor].
  - rewrite subregion_loop_cons in H.
    destruct (nominatim_search net min_delay q s) as [[rs | e] s1] eqn:Hs; [| discriminate].
    destruct (nominatim_search_post _ _ _ _ Hs) as (Hsub & cached & Hc & ->).
    destruct (pick_best_geocode (list_or_empty cached) None (Some name))
      as [[picked |] | e] eqn:Hp; [| | discriminate].
    + injection H as <- <-. split; [exact Hsub |].
      exists picked, [], q, qs. split; [reflexivity |]. split; [constructor |].
      split; [exists cached; auto | reflexivity].
    + destruct (IH _ _ _ H) as [Hsub' Ho]. split; [etrans; eassumption |].
      assert (Hq : place_answer (cache s') name q None).
      { apply place_answer_weaken with (c := cache s1); [exists cached; auto | exact Hsub']. }
      destruct o as [g |].
      * destruct Ho as (picked & pre & q0 & post & -> & Hpre & Hq0 & Hg).
        exists picked, (q :: pre), q0, post. split; [reflexivity |].
        split; [constructor; assumption | auto].
      * constructor; assumption.
Qed.

(** Every sub-region the loop goes over is found or missed, and nothing
    else enters [sub_region_geo]. *)
Lemma geocode_subregions_outcomes subs : forall srg0 s srg s',
  geocode_subregions net min_delay subs srg0 s = (Return srg, s') ->
  List.NoDup subs ->
  (forall sr, In sr subs -> srg0 !! sr = None) ->
  cache s ⊆ cache s'
  /\ (forall sr, In sr subs ->
        match srg !! sr with
        | Some g => sub_region_found (cache s') sr g
        | None => sub_region_missed (cache s') sr
        end)
  /\ (forall sr, ~ In sr subs -> srg !! sr = srg0 !! sr).
Proof.
  induction subs as [| x rest IH]; intros srg0 s srg s' H Hnd Hfresh.
  - injection H as <- <-. split; [reflexivity |]. split; [intros sr [] | reflexivity].
  - simpl in H. apply bind_inv in H as (geo & s1 & Ht & H).
    inversion Hnd as [| ? ? Hx Hnd']; subst.
    destruct (subregion_loop_outcome _ _ _ _ _ Ht) as [Hsub Hgeo].
    set (srg1 := match geo with Some g => <[x := g]> srg0 | None => srg0 end).
    assert (H' : geocode_subregions net min_delay rest srg1 s1 = (Return srg, s'))
      by (destruct geo; exact H).
    assert (Hfresh1 : forall sr, In sr rest -> srg1 !! sr = None).
    { intros sr Hsr. assert (Hne : x <> sr) by (intros ->; contradiction).
      unfold srg1. destruct geo; [rewrite lookup_insert_ne by exact Hne |];
        apply Hfresh; right; exact Hsr. }
    destruct (IH _ _ _ _ H' Hnd' Hfresh1) as (Hsub' & Hout & Hframe).
    split; [etrans; eassumption |]. split.
    + intros sr [<- | Hsr]; [| apply Hout; exact Hsr].
      rewrite (Hframe x Hx). unfold srg1. destruct geo as [g |].
      * rewrite lookup_insert_eq.
        apply sub_region_found_weaken with (c := cache s1); [exact Hgeo | exact Hsub'].
      * rewrite (Hfresh x (or_introl eq_refl)).
        exact (answers_weaken _ _ _ _ _ Hgeo Hsub').
    + intros sr Hsr. rewrite Hframe by (intros Hin; apply Hsr; right; exact Hin).
      assert (Hne : x <> sr) by (intros ->; apply Hsr; left; reflexivity).
      unfold srg1. destruct geo; [apply lookup_insert_ne; exact Hne | reflexivity].
Qed.

End Net.

(** C1, as the code has it.  Over a network without faults, whose answers
    have the documented shape, the resolution of a producer returns a
    result of one of the four producer tiers, and the resolution of the
    region returns a result.  In a run that completes every producer named
    by a wine has one result in [producer_geo], from one of the four
    producer tiers; the region-wide result is the geocoded "Bourgogne" or
    else the hardcoded centroid (47.052, 4.383, confidence 0.3).  A
    sub-region has a result only from the geocoder, with its tag and its
    floor of 0.7, made of the first of its two phrasings that was answered
    with a pick; a sub-region of the wines both of whose phrasings were
    answered without a pick has no result. *)
Theorem every_producer_resolved
    (net : network) (min_delay wikidata_min_delay : Q) (items : list dict) (s : state) :
  (net_ok net ->
   forall region srg producer primary s0, cache_ok (cache s0) ->
     exists g s1,
       resolve_producer net min_delay wikidata_min_delay region srg producer primary s0
       = (Return g, s1)
       /\ In (source g) ["producer_geocode"; "producer_wikidata";
                         "producer_sub_region_fallback"; "producer_region_fallback"])
  /\ (net_ok net ->
      forall s0, cache_ok (cache s0) ->
        exists g s1, resolve_region net min_delay s0 = (Return g, s1))
  /\ (forall r s',
        run net min_delay wikidata_min_delay items s = (Return (Some r), s') ->
        (forall wine p,
            In wine items -> norm_text (get wine "producer") = Return p -> p <> "" ->
            exists g, producer_geo r !! p = Some g
                      /\ In (source g) ["producer_geocode"; "producer_wikidata";
                                        "producer_sub_region_fallback";
                                        "producer_region_fallback"])
        /\ ((source (region_geo r) = "sub_region_geocode"
             /\ (0.7 <= confidence (region_geo r))%Q)
            \/ region_geo r = mkGeocodeResult 47.052 4.383 "Bourgogne, France" "hardcoded"
                                              "hardcoded_region_fallback" 0.3)
        /\ (forall sr g, sub_region_geo r !! sr = Some g ->
                         source g = "sub_region_geocode" /\ (0.7 <= confidence g)%Q)
        /\ (forall names sr,
              field_texts "sub_region" items = Return names -> In sr names ->
              match sub_region_geo r !! sr with
              | Some g => sub_region_found (cache s') sr g
              | None => sub_region_missed (cache s') sr
              end)).
Proof.
  split; [| split].
  - intros Hnet region srg producer primary s0 Hc.
    destruct (Completion.resolve_producer_completes net min_delay wikidata_min_delay Hnet
                region srg producer primary s0 Hc) as (g & s1 & Hr & _).
    exists g, s1. split; [exact Hr |].
    exact (resolve_producer_source _ _ _ _ _ _ _ _ _ _ Hr).
  - intros Hnet s0 Hc.
    destruct (Completion.resolve_region_completes net min_delay Hnet s0 Hc)
      as (g & s1 & Hr & _).
    eauto.
  - intros r s' H.
    apply run_inv in H
      as (s1 & s2 & sub_names & wbp & Hregion & Hsub & Hsrg & Hwbp & Hpg & _).
    split; [| split; [| split]].
    + intros wine p Hin Hp Hne.
      destruct (group_by_producer_keys _ _ _ Hwbp) as [_ Hkeys].
      destruct (Hkeys wine p Hin Hp Hne) as [wines Hwines].
      assert (Hsorted : In p (sorted (map fst (map_to_list wbp)))).
      { apply sorted_In. apply in_map_iff. exists (p, wines). split; [reflexivity |].
        apply list_elem_of_In. apply elem_of_map_to_list. exact Hwines. }
      destruct (geocode_producers_dom _ _ _ _ _ _ _ _ _ _ _ _ _ Hpg p (or_introl Hsorted))
        as [g Hg].
      exists g. split; [exact Hg |].
      destruct (geocode_producers_sources _ _ _ _ _ _ _ _ _ _ _ _ _ Hpg p g Hg)
        as [Hempty | Hsrc]; [| exact Hsrc].
      rewrite lookup_empty in Hempty. discriminate.
    + apply resolve_region_cases in Hregion as [Hgeo | [_ ->]].
      * left. exact (subregion_loop_some _ _ _ _ _ _ _ Hgeo).
      * right. reflexivity.
    + intros sr g Hg.
      destruct (geocode_subregions_entries _ _ _ _ _ _ _ Hsrg sr g Hg)
        as [Hempty | (_ & Hsrc)]; [| exact Hsrc].
      rewrite lookup_empty in Hempty. discriminate.
    + intros names sr Hnames Hsr. rewrite Hsub in Hnames. injection Hnames as <-.
      destruct (geocode_subregions_outcomes net min_delay _ _ _ _ _ Hsrg)
        as (_ & Hout & _).
      { apply sorted_NoDup, NoDup_ListNoDup, NoDup_remove_dups. }
      { intros ? _. apply lookup_empty. }
      assert (Hin : In sr (sorted (remove_dups sub_names))).
      { apply sorted_In. apply list_elem_of_In, elem_of_remove_dups, list_elem_of_In.
        exact Hsr. }
      specialize (Hout sr Hin).
      destruct (geocode_producers_keeps net min_delay wikidata_min_delay _ _ _ _ _ _ _ _ _ Hpg)
        as [Hkeep _].
      destruct (sub_region_geo r !! sr) as [g |].
      * exact (sub_region_found_weaken _ _ _ _ Hout Hkeep).
      * exact (answers_weaken _ _ _ _ _ Hout Hkeep).
Qed.

Lemma every_producer_resolved_witness :
  exists r s',
    run chablis_net 1.1 0.25 sample_items fresh = (Return (Some r), s')
    /\ (exists g, producer_geo r !! "Solo" = Some g
                  /\ In (source g) ["producer_geocode"; "producer_wikidata";
                                    "producer_sub_region_fallback";
                                    "producer_region_fallback"])
    /\ sub_region_geo r !! "Nowhere" = None
    /\ sub_region_missed (cache s') "Nowhere"
    /\ (exists g s1,
          resolve_producer chablis_net 1.1 0.25 hardcoded_region ∅ "Solo" "Nowhere" fresh
          = (Return g, s1)
          /\ In (source g) ["producer_geocode"; "producer_wikidata";
                            "producer_sub_region_fallback"; "producer_region_fallback"])
    /\ (exists g s1, resolve_region chablis_net 1.1 fresh = (Return g, s1)).
Proof.
  destruct (run chablis_net 1.1 0.25 sample_items fresh) as [o s'] eqn:E.
  assert (Ho : exists r, o = Return (Some r) /\ sub_region_geo r !! "Nowhere" = None).
  { apply (f_equal fst) in E. simpl in E. rewrite <- E. vm_compute. eauto. }
  destruct Ho as (r & -> & Hnone). exists r, s'. split; [reflexivity |].
  destruct (proj2 (proj2 (every_producer_resolved chablis_net 1.1 0.25 sample_items fresh))
              r s' E) as (Hprod & _ & _ & Hsubs).
  split; [| split; [exact Hnone | split; [| split]]].
  - apply (Hprod [("id", JNum 2); ("sub_region", JStr "Nowhere"); ("producer", JStr "Solo")]
                 "Solo").
    + right. left. reflexivity.
    + reflexivity.
    + discriminate.
  - specialize (Hsubs ["Chablis"; "Nowhere"] "Nowhere" eq_refl
                      (or_intror (or_introl eq_refl))).
    rewrite Hnone in Hsubs. exact Hsubs.
  - exact (proj1 (every_producer_resolved chablis_net 1.1 0.25 sample_items fresh)
                 Completion.chablis_net_ok hardcoded_region ∅ "Solo" "Nowhere" fresh
                 Completion.fresh_cache_ok).
  - exact (proj1 (proj2 (every_producer_resolved chablis_net 1.1 0.25 sample_items fresh))
                 Completion.chablis_net_ok fresh Completion.fresh_cache_ok).
Defined.

(** C1 as the spec states it fails: the sub-region "Nowhere" enters the
    sub-region stage of a run that completes and leaves it without a
    result. *)
Lemma sub_region_left_without_result :
  match fst (run chablis_net 1.1 0.25 sample_items fresh) with
  | Return (Some r) =>
      field_texts "sub_region" sample_items = Return ["Chablis"; "Nowhere"]
      /\ sub_region_geo r !! "Nowhere" = None
      /\ sub_region_geo r !! "Chablis" = Some chablis_geo
  | _ => False
  end.
Proof. vm_compute. repeat split. Qed.

End Resolution.

(** ** Confidence by tier *)

Module Confidence.
Import Py Enrich World Pipeline Terms NumFacts GeocodeFacts ClientFacts TierFacts.
Local Open Scope Q_scope.

Lemma py_max_lub a b c : a <= c -> b <= c -> py_max a b <= c.
Proof. intros Ha Hb. unfold py_max. destruct (Qlt_le_dec a b); assumption. Qed.

Lemma Qeq_Qle x y : x == y -> x <= y.
Proof. intros H. apply Qle_lteq. right. exact H. Qed.

(** Rounding a confidence floored at a multiple of 0.001 keeps it between
    the floor and the ceiling of the clamp. *)
Lemma round3_floored lo (k : Z) c :
  lo == inject_Z k / 1000 -> lo <= 0.98 -> c <= 0.98 ->
  lo <= round3 (py_max lo c) <= 0.98.
Proof.
  intros Hk Hlo Hc. split.
  - eapply Qle_trans; [apply Qeq_Qle; exact Hk |].
    apply round3_lower. eapply Qle_trans; [| apply py_max_l].
    apply Qeq_Qle. symmetry. exact Hk.
  - eapply Qle_trans; [apply (round3_upper 980) | apply Qeq_Qle; reflexivity].
    eapply Qle_trans; [apply py_max_lub; eassumption | apply Qeq_Qle; reflexivity].
Qed.

(** What [pick_best_geocode] returns is tagged "nominatim", has no query
    yet and a confidence within the clamp. *)
Lemma pick_best_geocode_fields results p e g :
  pick_best_geocode results p e = Return (Some g) ->
  source g = "nominatim" /\ query g = "" /\ 0.2 <= confidence g <= 0.98.
Proof.
  intros H. apply pick_best_geocode_inv in H
    as (pre & d & post & la & lo & dn & s & _ & _ & _ & _ & _ & _ & ->).
  split; [reflexivity |]. split; [reflexivity |]. apply confidence_range.
Qed.

Section Net.
Variable net : network.
Variable min_delay : Q.
Variable wikidata_min_delay : Q.

Lemma subregion_loop_confidence name queries : forall s g s',
  subregion_loop net min_delay name queries s = (Return (Some g), s') ->
  In (query g) queries /\ 0.7 <= confidence g <= 0.98.
Proof.
  induction queries as [| q rest IH]; intros s g s' H; [discriminate |].
  rewrite subregion_loop_cons in H.
  destruct (nominatim_search net min_delay q s) as [[results | e] s1]; [| discriminate].
  destruct (pick_best_geocode results None (Some name)) as [[picked |] | e] eqn:Hp;
    [| destruct (IH _ _ _ H); split; [right |]; assumption | discriminate].
  injection H as <- <-. apply pick_best_geocode_fields in Hp as (_ & _ & Hlo & Hhi).
  split; [left; reflexivity |]. simpl. split; [apply py_max_r |].
  apply py_max_lub; [exact Hhi | unfold Qle; simpl; lia].
Qed.

Lemma producer_loop_confidence producer primary queries : forall s g s',
  producer_loop net min_delay producer primary queries s = (Return (Some g), s') ->
  In (query g) queries /\ 0.2 <= confidence g <= 0.98.
Proof.
  induction queries as [| q rest IH]; intros s g s' H; [discriminate |].
  simpl in H. apply bind_inv in H as (results & s1 & _ & H).
  apply bind_inv in H as (picked & s2 & Hp & H). apply lift_inv in Hp as [Hp ->].
  destruct picked as [picked |];
    [| destruct (IH _ _ _ H); split; [right |]; assumption].
  injection H as <- _. apply pick_best_geocode_fields in Hp as (_ & _ & Hc).
  split; [left; reflexivity | exact Hc].
Qed.

Lemma wikidata_loop_confidence producer queries : forall s g s',
  wikidata_loop net wikidata_min_delay producer queries s = (Return (Some g), s') ->
  In (query g) queries /\ confidence g = 0.74.
Proof.
  induction queries as [| q rest IH]; intros s g s' H; [discriminate |].
  assert (Hrest : forall s1, wikidata_loop net wikidata_min_delay producer rest s1
                             = (Return (Some g), s') ->
                             In (query g) (q :: rest) /\ confidence g = 0.74).
  { intros s1 H1. destruct (IH _ _ _ H1). split; [right |]; assumption. }
  simpl in H. apply bind_inv in H as (entities & s1 & _ & H).
  apply bind_inv in H as (best & s2 & _ & H).
  destruct best as [[| kv best] |]; try (eapply Hrest; eauto; fail).
  apply bind_inv in H as (entity_id & s3 & _ & H).
  destruct (String.eqb entity_id ""); [eapply Hrest; eauto |].
  apply bind_inv in H as (coords & s4 & _ & H).
  destruct coords as [[la lo] |]; [| eapply Hrest; eauto].
  apply bind_inv in H as (label & s5 & _ & H).
  apply bind_inv in H as (description & s6 & _ & H).
  injection H as <- _. split; [left; reflexivity | reflexivity].
Qed.

Lemma resolve_producer_confidence region srg producer primary s g s' :
  resolve_producer net min_delay wikidata_min_delay region srg producer primary s
  = (Return g, s') ->
  0.2 <= confidence g <= 0.98.
Proof.
  unfold resolve_producer. intros H.
  apply bind_inv in H as (geo & s1 & H1 & H).
  apply bind_inv in H as (geo' & s2 & H2 & H).
  destruct geo as [g1 |].
  - injection H2 as <- <-. injection H as <- _.
    exact (proj2 (producer_loop_confidence _ _ _ _ _ _ H1)).
  - destruct geo' as [g2 |]; injection H as <- _.
    + rewrite (proj2 (wikidata_loop_confidence _ _ _ _ _ H2)).
      split; unfold Qle; simpl; lia.
    + unfold producer_fallback. destruct (srg !! primary); simpl;
        split; unfold Qle; simpl; lia.
Qed.

Lemma geocode_producers_confidence region srg wbp producers : forall pg rows s pg' rows' s',
  geocode_producers net min_delay wikidata_min_delay region srg wbp producers pg rows s
  = (Return (pg', rows'), s') ->
  forall p g, pg' !! p = Some g -> pg !! p = Some g \/ 0.2 <= confidence g <= 0.98.
Proof.
  induction producers as [| producer rest IH]; intros pg rows s pg' rows' s' H p g Hg.
  - injection H as <- _ _. left. exact Hg.
  - rewrite geocode_producers_cons in H. cbv zeta in H.
    destruct (field_texts "sub_region" _) as [sub_names |]; [| discriminate].
    destruct (field_texts "grape" _); [| discriminate].
    destruct (resolve_producer _ _ _ _ _ _ _ _) as [[geo | e] s1] eqn:Hr; [| discriminate].
    destruct (IH _ _ _ _ _ _ H p g Hg) as [Hin | Hc]; [| right; exact Hc].
    destruct (decide (producer = p)) as [-> | Hne].
    + rewrite lookup_insert_eq in Hin. injection Hin as ->.
      right. exact (resolve_producer_confidence _ _ _ _ _ _ _ Hr).
    + rewrite lookup_insert_ne in Hin by exact Hne. left. exact Hin.
Qed.

Lemma geocode_subregions_confidence sub_regions : forall srg s srg' s',
  geocode_subregions net min_delay sub_regions srg s = (Return srg', s') ->
  forall sr g, srg' !! sr = Some g ->
    srg !! sr = Some g
    \/ (In (query g) (subregion_queries sr) /\ 0.7 <= confidence g <= 0.98).
Proof.
  induction sub_regions as [| x rest IH]; intros srg s srg' s' H sr g Hg.
  - injection H as <- _. left. exact Hg.
  - simpl in H. apply bind_inv in H as (geo & s1 & Ht & H).
    destruct geo as [g0 |].
    + destruct (IH _ _ _ _ H sr g Hg) as [Hin | Hc]; [| right; exact Hc].
      destruct (decide (x = sr)) as [-> | Hne].
      * rewrite lookup_insert_eq in Hin. injection Hin as ->.
        right. exact (subregion_loop_confidence _ _ _ _ _ Ht).
      * rewrite lookup_insert_ne in Hin by exact Hne. left. exact Hin.
    + exact (IH _ _ _ _ H sr g Hg).
Qed.

End Net.
End Confidence.

(** ** What a run does to the cache, and the confidences it assigns *)

Module RunFacts.
Import Py Enrich World Pipeline Terms CacheTerms NumFacts GeocodeFacts ClientFacts
       TierFacts Replay Keeping Confidence Samples MoreSamples.

(** X1.  A run that completes has only added entries to the cache, and a
    later run on the same wines, from any state whose cache has the entries
    the first one left, returns the same result without a sleep or a
    request, whatever the network and the delays then are. *)
Theorem run_replays_from_cache
    (net net' : network) (min_delay min_delay' wikidata_min_delay wikidata_min_delay' : Q)
    (items : list dict) (s : state) (r : option run_result) (s' : state) :
  run net min_delay wikidata_min_delay items s = (Return r, s') ->
  cache s ⊆ cache s'
  /\ (forall s2, cache s' ⊆ cache s2 ->
                run net' min_delay' wikidata_min_delay' items s2 = (Return r, s2)).
Proof. apply run_replayable. Qed.

Lemma run_replays_from_cache_witness :
  exists r,
    fst (run chablis_net 1.1 0.25 sample_items fresh) = Return (Some r)
    /\ run timeout_net 0 0 sample_items
           (mkState (cache (snd (run chablis_net 1.1 0.25 sample_items fresh))) 0 0 0 [])
       = (Return (Some r),
          mkState (cache (snd (run chablis_net 1.1 0.25 sample_items fresh))) 0 0 0 []).
Proof.
  destruct (run chablis_net 1.1 0.25 sample_items fresh) as [o s'] eqn:E.
  assert (Ho : exists r, o = Return (Some r)).
  { apply (f_equal fst) in E. simpl in E. rewrite <- E. vm_compute. eauto. }
  destruct Ho as [r ->]. exists r. split; [reflexivity |].
  apply (proj2 (run_replays_from_cache chablis_net timeout_net 1.1 0 0.25 0
                  sample_items fresh (Some r) s' E)).
  simpl. reflexivity.
Defined.

(** X2.  Whatever its outcome, a result or an exception, a run keeps every
    entry the cache had, with its value, and only appends to the requests
    sent. *)
Theorem run_keeps_cache_entries
    (net : network) (min_delay wikidata_min_delay : Q)
    (items : list dict) (s : state) (o : res (option run_result)) (s' : state) :
  run net min_delay wikidata_min_delay items s = (o, s') ->
  (forall k v, cache s !! k = Some v -> cache s' !! k = Some v)
  /\ exists evs, sent s' = (sent s ++ evs)%list.
Proof.
  intros H. destruct (run_keeps net min_delay wikidata_min_delay items s o s' H)
    as [Hsub Hsent].
  split; [| exact Hsent]. intros k v Hk. eapply lookup_weaken; eauto.
Qed.

Lemma run_keeps_cache_entries_witness :
  cache (snd (run timeout_net 1.1 0.25 sample_items warm)) !! "chablis, bourgogne, france"
  = Some (JArr []).
Proof.
  apply (proj1 (run_keeps_cache_entries timeout_net 1.1 0.25 sample_items warm _ _
                  (surjective_pairing _))).
  reflexivity.
Defined.

(** X3.  In a run that completes every confidence handed out is within
    [0.2, 0.98]: a producer's within [0.2, 0.98], a sub-region's within
    [0.7, 0.98] under one of its own two phrasings, the region's within
    [0.3, 0.98], and that of every wine's map block within [0.3, 0.98]. *)
Theorem run_confidence_ranges
    (net : network) (min_delay wikidata_min_delay : Q)
    (items : list dict) (s : state) (r : run_result) (s' : state) :
  run net min_delay wikidata_min_delay items s = (Return (Some r), s') ->
  ((forall p g, producer_geo r !! p = Some g -> 0.2 <= confidence g <= 0.98)
   /\ (forall sr g, sub_region_geo r !! sr = Some g ->
                    In (query g) (subregion_queries sr) /\ 0.7 <= confidence g <= 0.98)
   /\ 0.3 <= confidence (region_geo r) <= 0.98
   /\ Forall (fun m => 0.3 <= map_confidence m <= 0.98) (enriched_maps r))%Q.
Proof.
  intros H.
  apply run_inv in H
    as (s1 & s2 & sub_names & wbp & Hregion & _ & Hsrg & _ & Hpg & Hmaps).
  assert (Hprod : (forall p g, producer_geo r !! p = Some g ->
                               0.2 <= confidence g <= 0.98)%Q).
  { intros p g Hg.
    destruct (geocode_producers_confidence _ _ _ _ _ _ _ _ _ _ _ _ _ Hpg p g Hg)
      as [Hempty | Hc]; [| exact Hc].
    rewrite lookup_empty in Hempty. discriminate. }
  assert (Hsub : (forall sr g, sub_region_geo r !! sr = Some g ->
                    In (query g) (subregion_queries sr) /\ 0.7 <= confidence g <= 0.98)%Q).
  { intros sr g Hg.
    destruct (geocode_subregions_confidence _ _ _ _ _ _ _ Hsrg sr g Hg)
      as [Hempty | Hc]; [| exact Hc].
    rewrite lookup_empty in Hempty. discriminate. }
  assert (Hreg : (0.3 <= confidence (region_geo r) <= 0.98)%Q).
  { apply resolve_region_cases in Hregion as [Hgeo | [_ ->]].
    - destruct (subregion_loop_confidence _ _ _ _ _ _ _ Hgeo) as (_ & Hlo & Hhi).
      split; [| exact Hhi]. eapply Qle_trans; [| exact Hlo]. unfold Qle; simpl; lia.
    - split; unfold Qle; simpl; lia. }
  split; [exact Hprod |]. split; [exact Hsub |]. split; [exact Hreg |].
  refine (proj1 (enrich_wines_all _ _ _ _ _ _ _ Hmaps)).
  intros producer sub_region. unfold wine_coords.
  destruct (if String.eqb sub_region "" then None else sub_region_geo r !! sub_region)
    as [g |] eqn:Eg.
  - destruct (String.eqb sub_region ""); [discriminate |].
    destruct (Hsub _ _ Eg) as (_ & _ & Hhi). simpl.
    destruct (round3_floored 0.68 680 (confidence g)) as [Hlo' Hhi'];
      [reflexivity | unfold Qle; simpl; lia | exact Hhi |].
    split; [| exact Hhi']. eapply Qle_trans; [| exact Hlo']. unfold Qle; simpl; lia.
  - destruct (if String.eqb producer "" then None else producer_geo r !! producer)
      as [g |] eqn:Ep.
    + destruct (String.eqb producer ""); [discriminate |].
      destruct (Hprod _ _ Ep) as (_ & Hhi). simpl.
      destruct (round3_floored 0.5 500 (confidence g)) as [Hlo' Hhi'];
        [reflexivity | unfold Qle; simpl; lia | exact Hhi |].
      split; [| exact Hhi']. eapply Qle_trans; [| exact Hlo']. unfold Qle; simpl; lia.
    + simpl. split; vm_compute; discriminate.
Qed.

Lemma run_confidence_ranges_witness :
  exists r,
    fst (run chablis_net 1.1 0.25 sample_items fresh) = Return (Some r)
    /\ (0.3 <= confidence (region_geo r) <= 0.98)%Q
    /\ Forall (fun m => 0.3 <= map_confidence m <= 0.98)%Q (enriched_maps r).
Proof.
  destruct (run chablis_net 1.1 0.25 sample_items fresh) as [o s'] eqn:E.
  assert (Ho : exists r, o = Return (Some r)).
  { apply (f_equal fst) in E. simpl in E. rewrite <- E. vm_compute. eauto. }
  destruct Ho as [r ->]. exists r. split; [reflexivity |].
  destruct (run_confidence_ranges chablis_net 1.1 0.25 sample_items fresh r s' E)
    as (_ & _ & Hreg & Hmaps).
  split; assumption.
Defined.

End RunFacts.

(** ** The Wikidata cache *)

Module WikidataCache.
Import Py Enrich World Pipeline Terms CacheTerms ClientFacts TierFacts Replay Keeping
       Samples MoreSamples.

(** X4.  An entity-coordinate lookup that misses the cache and finds a
    coordinate claim stores the pair under the entity's key; in every state
    whose cache has that entry the lookup returns the same pair and leaves
    the state as it is. *)
Theorem entity_coordinates_positive_cache
    (net : network) (wikidata_min_delay : Q) (entity_id : string) (s : state) (b : body)
    (la lo : float) :
  cache s !! ("wd_entity::" ++ entity_id) = None ->
  reply_of net (length (sent s)) (WikidataEntity entity_id) = Body b ->
  extract_coords (decoded_json b) entity_id = Return (Some (la, lo)) ->
  exists s1,
    entity_coordinates net wikidata_min_delay entity_id s = (Return (Some (la, lo)), s1)
    /\ cache s1 !! ("wd_entity::" ++ entity_id)
       = Some (JObj [("lat", JNum la); ("lng", JNum lo)])
    /\ (forall net' delay' s2,
          cache s2 !! ("wd_entity::" ++ entity_id)
          = Some (JObj [("lat", JNum la); ("lng", JNum lo)]) ->
          entity_coordinates net' delay' entity_id s2 = (Return (Some (la, lo)), s2)).
Proof.
  intros Hmiss Hreply Hx.
  destruct (entity_coordinates_miss net wikidata_min_delay entity_id s b _ Hmiss Hreply Hx)
    as (s1 & Hs & Hc & _).
  exists s1. split; [exact Hs |]. split.
  - rewrite Hc. apply lookup_insert_eq.
  - intros net' delay' s2 H2. rewrite (entity_coordinates_hit net' _ _ _ _ H2).
    f_equal. exact (extract_coords_stored _ _ _ Hx).
Qed.

Lemma entity_coordinates_positive_cache_witness :
  exists s1,
    entity_coordinates beaune_net 0.25 "Q1" fresh = (Return (Some (Finite 47.02, Finite 4.84)), s1)
    /\ cache s1 !! ("wd_entity::" ++ "Q1")
       = Some (JObj [("lat", JNum 47.02); ("lng", JNum 4.84)])
    /\ (forall net' delay' s2,
          cache s2 !! ("wd_entity::" ++ "Q1")
          = Some (JObj [("lat", JNum 47.02); ("lng", JNum 4.84)]) ->
          entity_coordinates net' delay' "Q1" s2 = (Return (Some (Finite 47.02, Finite 4.84)), s2)).
Proof.
  apply (entity_coordinates_positive_cache beaune_net 0.25 "Q1" fresh
           (Json (entity_document "Q1" (JNum 47.02) (JNum 4.84)))); reflexivity.
Defined.

Lemma entity_coordinates_frame net delay id k s o s' :
  entity_coordinates net delay id s = (o, s') ->
  k <> "wd_entity::" ++ id -> cache s' !! k = cache s !! k.
Proof.
  intros H Hne.
  destruct (cache s !! ("wd_entity::" ++ id)) as [cached |] eqn:Hk.
  - rewrite (entity_coordinates_hit net delay id s cached Hk) in H.
    injection H as _ <-. reflexivity.
  - destruct (reply_of net (length (sent s)) (WikidataEntity id)) as [e | b] eqn:Hr.
    + destruct (entity_coordinates_miss_fault net delay id s e Hk Hr) as (s1 & Hs & Hc & _).
      rewrite Hs in H. injection H as _ <-. rewrite Hc. reflexivity.
    + destruct (extract_coords (decoded_json b) id) as [coords | e] eqn:Hx.
      * destruct (entity_coordinates_miss net delay id s b coords Hk Hr Hx)
          as (s1 & Hs & Hc & _).
        rewrite Hs in H. injection H as _ <-. rewrite Hc.
        apply lookup_insert_ne. congruence.
      * destruct (entity_coordinates_miss_raise net delay id s b e Hk Hr Hx)
          as (s1 & Hs & Hc & _).
        rewrite Hs in H. injection H as _ <-. rewrite Hc. reflexivity.
Qed.

Lemma search_entities_frame net delay q k s o s' :
  search_entities net delay q s = (o, s') ->
  k <> "wd_search::" ++ lower (strip q) -> cache s' !! k = cache s !! k.
Proof.
  intros H Hne.
  destruct (cache s !! ("wd_search::" ++ lower (strip q))) as [cached |] eqn:Hk.
  - rewrite (search_entities_hit net delay q s cached Hk) in H.
    injection H as _ <-. reflexivity.
  - destruct (reply_of net (length (sent s)) (WikidataSearch q)) as [e | b] eqn:Hr.
    + destruct (search_entities_miss_fault net delay q s e Hk Hr) as (s1 & Hs & Hc & _).
      rewrite Hs in H. injection H as _ <-. rewrite Hc. reflexivity.
    + destruct (search_entities_miss net delay q s b Hk Hr) as (s1 & Hs & Hc & _).
      rewrite Hs in H. injection H as _ <-. rewrite Hc.
      apply lookup_insert_ne. congruence.
Qed.

(** X5.  The two Wikidata namespaces of the cache do not meet: whatever
    its outcome, a coordinate lookup leaves every search entry as it was,
    and an entity search leaves every coordinate entry as it was; each
    writes under its own key only. *)
Theorem wikidata_namespaces_apart
    (net : network) (wikidata_min_delay : Q) (s : state) :
  (forall entity_id o s',
      entity_coordinates net wikidata_min_delay entity_id s = (o, s') ->
      (forall q, cache s' !! ("wd_search::" ++ lower (strip q))
                 = cache s !! ("wd_search::" ++ lower (strip q)))
      /\ (forall k, k <> "wd_entity::" ++ entity_id -> cache s' !! k = cache s !! k))
  /\ (forall q o s',
        search_entities net wikidata_min_delay q s = (o, s') ->
        (forall entity_id, cache s' !! ("wd_entity::" ++ entity_id)
                           = cache s !! ("wd_entity::" ++ entity_id))
        /\ (forall k, k <> "wd_search::" ++ lower (strip q) -> cache s' !! k = cache s !! k)).
Proof.
  split.
  - intros id o s' H. split.
    + intros q. eapply entity_coordinates_frame; [exact H |]. discriminate.
    + intros k Hk. eapply entity_coordinates_frame; eauto.
  - intros q o s' H. split.
    + intros id. eapply search_entities_frame; [exact H |]. discriminate.
    + intros k Hk. eapply search_entities_frame; eauto.
Qed.

Lemma wikidata_namespaces_apart_witness :
  cache (snd (entity_coordinates beaune_net 0.25 "Q1" fresh))
    !! ("wd_search::" ++ lower (strip "Domaine Test"))
  = cache fresh !! ("wd_search::" ++ lower (strip "Domaine Test")).
Proof.
  apply (proj1 (proj1 (wikidata_namespaces_apart beaune_net 0.25 fresh) "Q1" _ _
                      (surjective_pairing _))).
Defined.

End WikidataCache.

(** ** Text normalisation and tokens *)

Module TextFacts.
Import Py Enrich Terms TextTerms.

Lemma sub_runs_single_spaced r s : single_spaced r (sub_runs is_space r s) = true.
Proof.
  revert r. induction s as [| c t IH]; intros r; [reflexivity |].
  simpl. destruct (is_space c) eqn:Hc.
  - destruct r; [apply IH |]. simpl. apply IH.
  - simpl. rewrite Hc. apply IH.
Qed.

Lemma single_spaced_false r s : single_spaced r s = true -> single_spaced false s = true.
Proof.
  destruct s as [| c t]; [reflexivity |]. simpl.
  destruct (is_space c); [| exact id].
  rewrite !andb_true_iff. intros [[-> _] ->]. auto.
Qed.

Lemma lstrip_single_spaced r s :
  single_spaced r s = true -> single_spaced false (lstrip s) = true.
Proof.
  revert r. induction s as [| c t IH]; intros r H; [reflexivity |].
  simpl. destruct (is_space c) eqn:Hc.
  - simpl in H. rewrite Hc in H. apply andb_true_iff in H as [_ H]. exact (IH _ H).
  - exact (single_spaced_false _ _ H).
Qed.

Lemma rstrip_single_spaced s : forall r,
  single_spaced r s = true -> single_spaced r (rstrip s) = true.
Proof.
  induction s as [| c t IH]; intros r H; [reflexivity |].
  simpl in *. destruct (is_space c) eqn:Hc.
  - apply andb_true_iff in H as [H1 H2]. specialize (IH _ H2).
    destruct (rstrip t) as [| c' t']; [reflexivity |].
    cbn [single_spaced]. rewrite Hc, H1. exact IH.
  - specialize (IH _ H).
    destruct (rstrip t) as [| c' t']; cbn [single_spaced]; rewrite Hc; [reflexivity |].
    exact IH.
Qed.

Lemma lstrip_no_leading s : starts_with_space (lstrip s) = false.
Proof.
  induction s as [| c t IH]; [reflexivity |]. simpl.
  destruct (is_space c) eqn:Hc; [exact IH | simpl; exact Hc].
Qed.

Lemma rstrip_cons c t : is_space c = false -> rstrip (String c t) = String c (rstrip t).
Proof. intros Hc. simpl. rewrite Hc. destruct (rstrip t); reflexivity. Qed.

Lemma rstrip_no_leading s : starts_with_space s = false -> starts_with_space (rstrip s) = false.
Proof.
  destruct s as [| c t]; [reflexivity |]. intros Hc. simpl in Hc.
  rewrite rstrip_cons by exact Hc. exact Hc.
Qed.

Lemma rstrip_no_trailing s : ends_with_space (rstrip s) = false.
Proof.
  induction s as [| c t IH]; [reflexivity |]. simpl.
  destruct (rstrip t) as [| c' t'] eqn:E.
  - destruct (is_space c) eqn:Hc; [reflexivity | simpl; exact Hc].
  - exact IH.
Qed.

Lemma lstrip_id s : starts_with_space s = false -> lstrip s = s.
Proof. destruct s as [| c t]; [reflexivity |]. simpl. intros ->. reflexivity. Qed.

Lemma rstrip_id s : ends_with_space s = false -> rstrip s = s.
Proof.
  induction s as [| c t IH]; [reflexivity |]. intros H. simpl.
  destruct t as [| c' t'].
  - simpl in *. rewrite H. reflexivity.
  - rewrite IH by exact H. reflexivity.
Qed.

Lemma sub_runs_id r s : single_spaced r s = true -> sub_runs is_space r s = s.
Proof.
  revert r. induction s as [| c t IH]; intros r H; [reflexivity |].
  simpl in *. destruct (is_space c) eqn:Hc.
  - apply andb_true_iff in H as [H1 H2]. apply andb_true_iff in H1 as [Hb Hr].
    apply Ascii.eqb_eq in Hb. destruct r; [discriminate |].
    rewrite (IH _ H2). rewrite Hb. reflexivity.
  - rewrite (IH _ H). reflexivity.
Qed.

(** [strip] and [re.sub] leave the words as they are. *)
Lemma split_ws_sub_runs s : forall cur r,
  (r = true -> cur = EmptyString) ->
  split_ws cur (sub_runs is_space r s) = split_ws cur s.
Proof.
  induction s as [| c t IH]; intros cur r Hr; [reflexivity |].
  simpl. destruct (is_space c) eqn:Hc.
  - destruct r.
    + rewrite (Hr eq_refl). apply IH. auto.
    + simpl. destruct cur; rewrite IH by auto; reflexivity.
  - simpl. rewrite Hc. apply IH. discriminate.
Qed.

Lemma split_ws_lstrip s : split_ws EmptyString (lstrip s) = split_ws EmptyString s.
Proof.
  induction s as [| c t IH]; [reflexivity |]. simpl.
  destruct (is_space c) eqn:Hc; [exact IH |]. simpl. rewrite Hc. reflexivity.
Qed.

Lemma split_ws_cons cur c t :
  split_ws cur (String c t) =
  if is_space c then
    match cur with
    | EmptyString => split_ws EmptyString t
    | _ => cur :: split_ws EmptyString t
    end
  else split_ws (cur ++ String c EmptyString) t.
Proof. reflexivity. Qed.

Lemma split_ws_rstrip s : forall cur, split_ws cur (rstrip s) = split_ws cur s.
Proof.
  induction s as [| c t IH]; intros cur; [reflexivity |].
  rewrite (split_ws_cons cur c t). simpl rstrip.
  destruct (rstrip t) as [| c' t'] eqn:E.
  - destruct (is_space c) eqn:Hc.
    + destruct cur; rewrite <- IH; reflexivity.
    + rewrite split_ws_cons, Hc, <- IH. reflexivity.
  - rewrite split_ws_cons. destruct (is_space c); [destruct cur |]; rewrite IH; reflexivity.
Qed.

(** X6.  What [norm_text] returns is tidy: its words are separated by
    single blanks with nothing around them; they are the words of the
    input; and normalising it again changes nothing.  On a string or on
    [None] it never raises. *)
Theorem norm_text_normal_form (s : string) :
  exists t,
    norm_text (JStr s) = Return t
    /\ tidy t = true
    /\ split t = split s
    /\ norm_text (JStr t) = Return t
    /\ norm_text JNull = Return "".
Proof.
  set (u := sub_runs is_space false s).
  set (t := strip u).
  assert (Hss : single_spaced false t = true).
  { apply rstrip_single_spaced. eapply lstrip_single_spaced. apply sub_runs_single_spaced. }
  assert (Hlead : starts_with_space t = false).
  { apply rstrip_no_leading. apply lstrip_no_leading. }
  assert (Htrail : ends_with_space t = false) by apply rstrip_no_trailing.
  assert (Hwords : split t = split s).
  { unfold split, t, strip. rewrite split_ws_rstrip, split_ws_lstrip.
    apply split_ws_sub_runs. discriminate. }
  assert (Hnorm : norm_text (JStr s) = Return t \/ (s = "" /\ t = "")).
  { unfold norm_text. simpl. destruct (String.eqb_spec s ""); [right | left; reflexivity].
    subst s. split; reflexivity. }
  assert (Hagain : norm_text (JStr t) = Return t).
  { unfold norm_text. simpl. destruct (String.eqb_spec t "") as [-> | _]; [reflexivity |].
    simpl. rewrite (sub_runs_id _ _ Hss). unfold strip.
    rewrite (lstrip_id _ Hlead), (rstrip_id _ Htrail). reflexivity. }
  exists t. split.
  - destruct Hnorm as [H | [-> ->]]; [exact H | reflexivity].
  - repeat split; try assumption.
    unfold tidy. rewrite Hss, Hlead, Htrail. reflexivity.
Qed.

Lemma lower_char_idem c : lower_char (lower_char c) = lower_char c.
Proof. destruct c as [[] [] [] [] [] [] [] []]; reflexivity. Qed.

Lemma lower_idem s : lower (lower s) = lower s.
Proof. induction s as [| c t IH]; simpl; [| rewrite lower_char_idem, IH]; reflexivity. Qed.

Lemma lower_app a b : lower (a ++ b) = lower a ++ lower b.
Proof. induction a as [| c t IH]; simpl; [| rewrite IH]; reflexivity. Qed.

Lemma split_ws_lower s : forall cur,
  lower cur = cur -> lower s = s -> Forall (fun w => lower w = w) (split_ws cur s).
Proof.
  induction s as [| c t IH]; intros cur Hcur Hs.
  - simpl. destruct cur; repeat constructor. exact Hcur.
  - simpl in Hs. injection Hs as Hc Ht. rewrite split_ws_cons.
    destruct (is_space c).
    + destruct cur; [apply IH; auto |]. constructor; [exact Hcur | apply IH; auto].
    + apply IH; [| exact Ht]. rewrite lower_app, Hcur. simpl. rewrite Hc. reflexivity.
Qed.

(** X7.  The tokens of a producer name are distinct, each at least four
    characters long, none a noise word, all in lower case. *)
Theorem producer_tokens_shape (name : string) :
  NoDup (producer_tokens name)
  /\ (forall tok, In tok (producer_tokens name) ->
                  (4 <= String.length tok)%nat
                  /\ str_in tok COMMON_NOISE_TOKENS = false
                  /\ lower tok = tok).
Proof.
  split; [apply NoDup_remove_dups |].
  - intros tok Hin. unfold producer_tokens in Hin.
    apply (proj2 (list_elem_of_In _ _)) in Hin.
    apply (proj1 (elem_of_remove_dups _ _)) in Hin.
    apply (proj1 (list_elem_of_In _ _)) in Hin.
    apply filter_In in Hin as [Hin Hf]. apply andb_true_iff in Hf as [Hlen Hnoise].
    split; [apply Nat.leb_le; exact Hlen |].
    split; [apply negb_true_iff; exact Hnoise |].
    assert (Hall : Forall (fun w => lower w = w)
                          (split (lower (sub_runs not_token_char false name)))).
    { apply split_ws_lower; [reflexivity | apply lower_idem]. }
    exact (proj1 (List.Forall_forall _ _) Hall tok Hin).
Qed.

End TextFacts.

(** ** Bounds of the scores, and what the polygon scorer lets through *)

Module ScoreBounds.
Import Py Enrich Terms NumFacts GeocodeFacts.
Local Open Scope Q_scope.

Lemma bonus_le b w : 0 <= w -> bonus b w <= w.
Proof. destruct b; simpl; [intros _; apply Qle_refl | exact id]. Qed.

Lemma polygon_bonus_range b w : 0 <= w -> 0 <= Polygons.bonus b w <= w.
Proof.
  destruct b; simpl; intros H; split; try apply Qle_refl; exact H.
Qed.

Lemma token_bonus_le tokens blob : token_bonus tokens blob <= 1.2.
Proof.
  unfold token_bonus. destruct tokens; [unfold Qle; simpl; lia | apply py_min_l].
Qed.

Ltac bonus_bound :=
  eapply Qle_trans;
  [ repeat apply Qplus_le_compat;
    first [ apply token_bonus_le
          | apply bonus_le; unfold Qle; simpl; lia
          | apply polygon_bonus_range; unfold Qle; simpl; lia
          | apply Qle_refl ]
  | unfold Qle; simpl; lia ].

Lemma score_geocode_le t r d s : score_geocode t r d = Return s -> s <= 3.7.
Proof.
  unfold score_geocode, rbind.
  repeat (match goal with
          | |- context [match norm_text ?v with _ => _ end] =>
              destruct (norm_text v); [| discriminate]
          end).
  intros [= <-]. bonus_bound.
Qed.

Lemma score_entity_le t d s : score_entity t d = Return s -> s <= 2.8.
Proof.
  unfold score_entity, rbind.
  repeat (match goal with
          | |- context [match norm_text ?v with _ => _ end] =>
              destruct (norm_text v); [| discriminate]
          end).
  intros [= <-]. bonus_bound.
Qed.

(** X8.  The scores are bounded: a place scores within [0, 3.7], an
    entity within [0, 2.8], a polygon within [0, 3.6]; and every score
    from 2.744 on is given the confidence 0.98 by the clamp of
    [pick_best_geocode]. *)
Theorem scores_bounded :
  (forall t r d s, score_geocode t r d = Return s -> 0 <= s <= 3.7)
  /\ (forall t d s, score_entity t d = Return s -> 0 <= s <= 2.8)
  /\ (forall repr item sub_region c,
        Polygons.score_candidate repr item sub_region = Return (Some c) ->
        0 <= Polygons.score c <= 3.6)
  /\ (forall s, 2.744 <= s -> py_min 0.98 (py_max 0.2 (s / 2.8)) == 0.98).
Proof.
  split; [| split; [| split]].
  - intros t r d s H. split; [eapply score_geocode_nonneg | eapply score_geocode_le]; eauto.
  - intros t d s H.
    split; [eapply OtherScorers.score_entity_nonneg | eapply score_entity_le]; eauto.
  - intros repr item sr c H. unfold Polygons.score_candidate in H.
    destruct item; try discriminate. simpl rbind in H.
    destruct (get kv "geojson"); try discriminate.
    repeat match type of H with
           | (if ?b then _ else _) = _ => destruct b; [discriminate |]
           end.
    destruct (py_float (get kv "lat")) as [la | e];
      [| destruct (catches_type_value e); discriminate].
    destruct (py_float (get kv "lon")) as [lo | e];
      [| destruct (catches_type_value e); discriminate].
    injection H as <-. simpl. split.
    + repeat apply Qadd_nonneg;
        first [apply Qle_refl | apply polygon_bonus_range; unfold Qle; simpl; lia].
    + bonus_bound.
  - intros s Hs.
    assert (H98 : 0.98 <= s / 2.8).
    { apply Qle_shift_div_l; [reflexivity |].
      eapply Qle_trans; [| exact Hs]. unfold Qle; simpl; lia. }
    unfold py_min, py_max.
    destruct (Qlt_le_dec 0.2 (s / 2.8)) as [_ | Hle].
    + destruct (Qlt_le_dec (s / 2.8) 0.98) as [Hlt | _]; [| reflexivity].
      exfalso. exact (Qlt_not_le _ _ Hlt H98).
    + exfalso. apply (Qle_not_lt _ _ (Qle_trans _ _ _ H98 Hle)). reflexivity.
Qed.

Lemma scores_bounded_witness :
  py_min 0.98 (py_max 0.2 (3.7 / 2.8)) == 0.98.
Proof.
  apply (proj2 (proj2 (proj2 scores_bounded)) 3.7). unfold Qle; simpl; lia.
Defined.

End ScoreBounds.

Module PolygonFacts.
Import Py Enrich Terms NumFacts.
Import Polygons.
Local Open Scope Q_scope.

(** X9.  The polygon scorer lets a candidate through only if it is an
    object with a Polygon or MultiPolygon geometry, a type that is empty or
    allowed (so none of the disallowed ones), a class that is empty or
    allowed, and coordinates that parse; what it returns carries that
    geometry, those codes and those coordinates. *)
Theorem score_candidate_accepts
    (repr : json -> string) (item : json) (sub_region : string) (c : PolygonCandidate) :
  score_candidate repr item sub_region = Return (Some c) ->
  exists d,
    item = JObj d
    /\ get d "geojson" = JObj (geojson c)
    /\ str_in (py_str repr (get_default (geojson c) "type" (JStr "")))
              ["Polygon"; "MultiPolygon"] = true
    /\ item_type c = py_str repr (get_default d "type" (JStr ""))
    /\ item_class c = py_str repr (get_default d "class" (JStr ""))
    /\ str_in (item_type c) DISALLOWED_TYPES = false
    /\ (item_type c = "" \/ str_in (item_type c) ALLOWED_TYPES = true)
    /\ (item_class c = "" \/ str_in (item_class c) ALLOWED_CLASSES = true)
    /\ py_float (get d "lat") = Return (lat c)
    /\ py_float (get d "lon") = Return (lon c).
Proof.
  intros H. unfold score_candidate in H.
  destruct item as [| | | | | d]; try discriminate. simpl rbind in H.
  destruct (get d "geojson") as [| | | | | geo] eqn:Egeo; try discriminate.
  match type of H with
  | (if ?b then _ else _) = _ => destruct b eqn:Etype; [discriminate |]
  end.
  match type of H with
  | (if ?b then _ else _) = _ => destruct b eqn:Edis; [discriminate |]
  end.
  match type of H with
  | (if ?b then _ else _) = _ => destruct b eqn:Ecls; [discriminate |]
  end.
  match type of H with
  | (if ?b then _ else _) = _ => destruct b eqn:Etyp; [discriminate |]
  end.
  destruct (py_float (get d "lat")) as [la | e] eqn:Ela;
    [| destruct (catches_type_value e); discriminate].
  destruct (py_float (get d "lon")) as [lo | e] eqn:Elo;
    [| destruct (catches_type_value e); discriminate].
  injection H as <-. simpl. exists d.
  apply negb_false_iff in Etype.
  assert (Hor : forall x l, negb (String.eqb x "") && negb (str_in x l) = false ->
                            x = "" \/ str_in x l = true).
  { intros x l Hx. apply andb_false_iff in Hx as [Hx | Hx]; apply negb_false_iff in Hx;
      [left; apply String.eqb_eq; exact Hx | right; exact Hx]. }
  split; [reflexivity |]. split; [exact Egeo |]. split; [exact Etype |].
  split; [reflexivity |]. split; [reflexivity |]. split; [exact Edis |].
  split; [exact (Hor _ ALLOWED_TYPES Etyp) |].
  split; [exact (Hor _ ALLOWED_CLASSES Ecls) |].
  split; assumption.
Qed.

Lemma score_candidate_accepts_witness :
  exists d,
    Samples.polygon_item "Chablis, Bourgogne" = JObj d
    /\ str_in (item_type (Samples.polygon_of "Chablis, Bourgogne")) DISALLOWED_TYPES = false.
Proof.
  destruct (score_candidate_accepts Samples.plain_repr
              (Samples.polygon_item "Chablis, Bourgogne") "Chablis"
              (Samples.polygon_of "Chablis, Bourgogne"))
    as (d & Hd & _ & _ & _ & _ & Hdis & _).
  - reflexivity.
  - exists d. split; assumption.
Defined.

Lemma insert_desc_not_nil c l : insert_desc c l <> [].
Proof. destruct l; simpl; [discriminate |]. destruct (Qlt_le_dec _ _); discriminate. Qed.

Lemma sort_desc_head_max l : forall c tl,
  sort_desc l = c :: tl -> forall x, In x l -> score x <= score c.
Proof.
  induction l as [| y l IH]; intros c tl H x Hx; [destruct Hx |].
  change (sort_desc (y :: l)) with (insert_desc y (sort_desc l)) in H.
  destruct (sort_desc l) as [| c' tl'] eqn:E.
  - destruct l as [| z l']; [| exfalso; eapply insert_desc_not_nil; exact E].
    simpl in H. injection H as <- _. destruct Hx as [<- | []]. apply Qle_refl.
  - simpl in H. destruct (Qlt_le_dec (score y) (score c')) as [Hlt | Hle].
    + injection H as <- _. destruct Hx as [<- | Hx]; [apply Qlt_le_weak; exact Hlt |].
      eapply IH; eauto.
    + injection H as <- _. destruct Hx as [<- | Hx]; [apply Qle_refl |].
      eapply Qle_trans; [eapply IH; eauto | exact Hle].
Qed.

Lemma scored_candidates_In repr sub_region results : forall cands,
  scored_candidates repr results sub_region = Return cands ->
  forall c, In c cands <->
            exists item, In item results
                         /\ score_candidate repr item sub_region = Return (Some c).
Proof.
  induction results as [| item rest IH]; intros cands H c.
  - injection H as <-. split; [intros [] | intros (? & [] & _)].
  - simpl in H. destruct (score_candidate repr item sub_region) as [o |] eqn:Ei;
      [| discriminate].
    simpl in H. destruct (scored_candidates repr rest sub_region) as [cs |] eqn:Er;
      [| discriminate].
    injection H as <-. specialize (IH cs eq_refl c). destruct o as [c0 |].
    + split.
      * intros [<- | Hin]; [exists item; split; [left; reflexivity | exact Ei] |].
        apply IH in Hin as (it & Hit & Hs). exists it. split; [right |]; assumption.
      * intros (it & [<- | Hit] & Hs).
        -- rewrite Ei in Hs. injection Hs as <-. left. reflexivity.
        -- right. apply IH. eauto.
    + rewrite IH. split.
      * intros (it & Hit & Hs). exists it. split; [right |]; assumption.
      * intros (it & [<- | Hit] & Hs); [rewrite Ei in Hs; discriminate | eauto].
Qed.

(** X10.  [choose_polygon] returns [None] exactly when the scorer lets no
    candidate of the list through; a polygon it returns is one the scorer
    let through, and no candidate let through has a higher score. *)
Theorem choose_polygon_best
    (repr : json -> string) (results : list json) (sub_region : string)
    (o : option PolygonCandidate) :
  choose_polygon repr results sub_region = Return o ->
  match o with
  | None =>
      forall item, In item results -> score_candidate repr item sub_region = Return None
  | Some c =>
      (exists item, In item results
                    /\ score_candidate repr item sub_region = Return (Some c))
      /\ (forall item c', In item results ->
                          score_candidate repr item sub_region = Return (Some c') ->
                          score c' <= score c)
  end.
Proof.
  unfold choose_polygon, choose_polygon_by. intros H.
  destruct (scored_candidates repr results sub_region) as [cands |] eqn:Ec;
    [| discriminate].
  pose proof (scored_candidates_In repr sub_region results cands Ec) as Hin.
  simpl in H. destruct cands as [| c0 cs].
  - injection H as <-. intros item Hitem.
    assert (Hret : forall results' cands', In item results' ->
               scored_candidates repr results' sub_region = Return cands' ->
               exists oc, score_candidate repr item sub_region = Return oc).
    { induction results' as [| it rest IH]; intros cands' Hi Hsc; [destruct Hi |].
      destruct Hi as [<- | Hi]; simpl in Hsc.
      - destruct (score_candidate repr it sub_region); [eauto | discriminate].
      - destruct (score_candidate repr it sub_region); [| discriminate].
        simpl in Hsc. destruct (scored_candidates repr rest sub_region) eqn:Er;
          [| discriminate].
        eapply IH; eauto. }
    destruct (Hret _ _ Hitem Ec) as [[c |] Hoc]; [| exact Hoc].
    exfalso. apply (proj2 (Hin c)). eauto.
  - destruct (sort_desc (c0 :: cs)) as [| c tl] eqn:Es.
    { exfalso. eapply insert_desc_not_nil. exact Es. }
    injection H as <-. split.
    + apply Hin. apply OtherScorers.sort_desc_In. rewrite Es. left. reflexivity.
    + intros item c' Hitem Hs. eapply sort_desc_head_max; [exact Es |].
      apply Hin. eauto.
Qed.

Lemma choose_polygon_best_witness :
  (exists item,
      In item [Samples.polygon_item "Chablis, Yonne"; Samples.polygon_item "Chablis, Bourgogne"]
      /\ score_candidate Samples.plain_repr item "Chablis"
         = Return (Some (Samples.polygon_of "Chablis, Bourgogne")))
  /\ (forall item c',
        In item [Samples.polygon_item "Chablis, Yonne";
                 Samples.polygon_item "Chablis, Bourgogne"] ->
        score_candidate Samples.plain_repr item "Chablis" = Return (Some c') ->
        score c' <= score (Samples.polygon_of "Chablis, Bourgogne")).
Proof.
  apply (choose_polygon_best Samples.plain_repr
           [Samples.polygon_item "Chablis, Yonne"; Samples.polygon_item "Chablis, Bourgogne"]
           "Chablis" (Some (Samples.polygon_of "Chablis, Bourgogne"))).
  reflexivity.
Defined.

End PolygonFacts.

(** ** Identifiers of the polygon features *)

Module IdFacts.
Import Py PolygonsMain IdTerms.

Lemma not_id_char_dash c : not_id_char c = false -> is_dash c = false.
Proof.
  unfold not_id_char, is_dash. intros H.
  destruct (Ascii.eqb_spec c "-") as [->|]; [discriminate H | reflexivity].
Qed.

Lemma dash_not_id c : is_dash c = true -> not_id_char c = true.
Proof.
  intros H. destruct (not_id_char c) eqn:E; [reflexivity|].
  apply not_id_char_dash in E. congruence.
Qed.

Lemma runs_to_shape s : forall b, id_shape b (runs_to "-" not_id_char b s) = true.
Proof.
  induction s as [|c t IH]; intros b; simpl; [reflexivity|].
  destruct (not_id_char c) eqn:E.
  - destruct b; [apply IH|]. simpl. apply IH.
  - simpl. rewrite (not_id_char_dash _ E).
    unfold not_id_char in E. apply negb_false_iff in E. rewrite E. apply IH.
Qed.

Lemma id_shape_weaken s : id_shape true s = true -> id_shape false s = true.
Proof.
  destruct s as [|c t]; simpl; [reflexivity|].
  destruct (is_dash c); [discriminate | trivial].
Qed.

Lemma drop_leading_id s : id_shape true s = true -> drop_leading is_dash s = s.
Proof.
  destruct s as [|c t]; simpl; [reflexivity|].
  destruct (is_dash c); [discriminate | reflexivity].
Qed.

Lemma drop_leading_shape s :
  id_shape false s = true -> id_shape true (drop_leading is_dash s) = true.
Proof.
  destruct s as [|c t]; simpl; [reflexivity|].
  destruct (is_dash c) eqn:E; simpl.
  - intros H. rewrite (drop_leading_id _ H). exact H.
  - rewrite E. trivial.
Qed.

Lemma drop_trailing_shape s : forall b,
  id_shape b s = true -> id_shape b (drop_trailing is_dash s) = true.
Proof.
  induction s as [|c t IH]; intros b; simpl; [reflexivity|].
  destruct (is_dash c) eqn:E.
  - intros H. apply andb_true_iff in H as [Hb H]. specialize (IH _ H).
    destruct (drop_trailing is_dash t) as [|c' t']; [reflexivity|].
    simpl. rewrite E, Hb. exact IH.
  - intros H. apply andb_true_iff in H as [Hc H]. specialize (IH _ H).
    destruct (drop_trailing is_dash t) as [|c' t']; simpl; rewrite E, Hc; [reflexivity|].
    exact IH.
Qed.

Lemma drop_trailing_last s : last_is is_dash (drop_trailing is_dash s) = false.
Proof.
  induction s as [|c t IH]; simpl; [reflexivity|].
  destruct (drop_trailing is_dash t) as [|c' t'].
  - destruct (is_dash c) eqn:E; simpl; [reflexivity | exact E].
  - exact IH.
Qed.

Lemma drop_trailing_id s : last_is is_dash s = false -> drop_trailing is_dash s = s.
Proof.
  induction s as [|c t IH]; simpl; [reflexivity|].
  destruct t as [|c' t'].
  - simpl. intros ->. reflexivity.
  - intros H. rewrite (IH H). reflexivity.
Qed.

Lemma to_id_is_id s : is_id (to_id s) = true.
Proof.
  unfold to_id, is_id. rewrite drop_trailing_last, andb_true_r.
  apply drop_trailing_shape, drop_leading_shape, runs_to_shape.
Qed.

(** The characters of an identifier. *)
Lemma id_char_cases c :
  is_dash c = true \/ (is_ascii_lower c || is_digit c) = true ->
  is_non_ascii c = false /\ lower_char c = c.
Proof.
  destruct c as [[] [] [] [] [] [] [] []]; vm_compute; intuition discriminate.
Qed.

Lemma id_shape_chars s : forall b, id_shape b s = true ->
  any_char is_non_ascii s = false /\ lower s = s
  /\ runs_to "-" not_id_char b s = s.
Proof.
  induction s as [|c t IH]; intros b; simpl; [auto|].
  destruct (is_dash c) eqn:E; intros H; apply andb_true_iff in H as [H1 H2].
  - destruct (id_char_cases c (or_introl E)) as [Ha Hl].
    destruct (IH _ H2) as (IH1 & IH2 & IH3).
    rewrite Ha, Hl, IH1, IH2, (dash_not_id _ E). apply negb_true_iff in H1. subst b.
    rewrite IH3. apply Ascii.eqb_eq in E. subst c. auto.
  - destruct (id_char_cases c (or_intror H1)) as [Ha Hl].
    destruct (IH _ H2) as (IH1 & IH2 & IH3).
    unfold not_id_char at 1. rewrite Ha, Hl, IH1, IH2, H1. simpl. rewrite IH3. auto.
Qed.

Lemma to_id_fixes s : is_id s = true -> to_id s = s.
Proof.
  unfold is_id, to_id. intros H. apply andb_true_iff in H as [H1 H2].
  apply negb_true_iff in H2.
  destruct (id_shape_chars _ _ (id_shape_weaken _ H1)) as (Ha & Hl & Hr).
  rewrite Ha, Hl, Hr, (drop_leading_id _ H1). apply drop_trailing_id, H2.
Qed.

(** What the substitution leaves of a text with no letter or digit. *)
Lemma runs_to_no_id s : forall b,
  any_char (fun c => negb (not_id_char c)) s = false ->
  drop_leading is_dash (runs_to "-" not_id_char b s) = "".
Proof.
  induction s as [|c t IH]; intros b; simpl; [reflexivity|].
  intros H. apply orb_false_iff in H as [H1 H2]. apply negb_false_iff in H1.
  rewrite H1. destruct b; simpl; apply IH, H2.
Qed.

Lemma drop_trailing_nonempty s c :
  is_dash c = false -> drop_trailing is_dash (String c s) <> "".
Proof.
  simpl. intros E. destruct (drop_trailing is_dash s); [rewrite E|]; discriminate.
Qed.

Lemma runs_to_some_id s : forall b,
  any_char (fun c => negb (not_id_char c)) s = true ->
  drop_trailing is_dash (drop_leading is_dash (runs_to "-" not_id_char b s)) <> "".
Proof.
  induction s as [|c t IH]; intros b; simpl; [discriminate|].
  destruct (not_id_char c) eqn:E; simpl.
  - intros H. destruct b; simpl; apply IH, H.
  - intros _. rewrite (not_id_char_dash _ E).
    apply drop_trailing_nonempty, not_id_char_dash, E.
Qed.

Lemma keep_chars_any p q s :
  (forall c, q c = true -> p c = true) ->
  any_char q (keep_chars p s) = any_char q s.
Proof.
  intros Hqp. induction s as [|c t IH]; simpl; [reflexivity|].
  destruct (p c) eqn:E; simpl; rewrite IH; [reflexivity|].
  destruct (q c) eqn:Eq; [|reflexivity]. rewrite (Hqp _ Eq) in E. discriminate.
Qed.

Lemma alnum_lower c : negb (not_id_char (lower_char c)) = is_alnum c.
Proof. destruct c as [[] [] [] [] [] [] [] []]; vm_compute; reflexivity. Qed.

Lemma alnum_ascii c : is_alnum c = true -> negb (is_non_ascii c) = true.
Proof. destruct c as [[] [] [] [] [] [] [] []]; vm_compute; congruence. Qed.

Lemma any_char_lower s :
  any_char (fun c => negb (not_id_char c)) (lower s) = any_char is_alnum s.
Proof.
  induction s as [| c t IH]; simpl; [reflexivity |]. rewrite IH, alnum_lower. reflexivity.
Qed.

Lemma any_alnum_ascii_part s :
  any_char is_alnum (if any_char is_non_ascii s then ascii_only s else s)
  = any_char is_alnum s.
Proof.
  destruct (any_char is_non_ascii s); [| reflexivity].
  apply keep_chars_any, alnum_ascii.
Qed.

(** X11.  [to_id] always gives an identifier: words of [a-z0-9] joined by
    single dashes, with no dash at either end.  It leaves an identifier
    as it is, so it is idempotent, and its result is empty exactly when
    the text has no ASCII letter or digit. *)
Theorem to_id_normal_form (s : string) :
  is_id (to_id s) = true
  /\ to_id (to_id s) = to_id s
  /\ (is_id s = true -> to_id s = s)
  /\ (to_id s = "" <-> any_char is_alnum s = false).
Proof.
  split; [apply to_id_is_id |]. split; [apply to_id_fixes, to_id_is_id |].
  split; [apply to_id_fixes |].
  rewrite <- (any_alnum_ascii_part s), <- any_char_lower. unfold to_id.
  set (t := lower _).
  destruct (any_char (fun c => negb (not_id_char c)) t) eqn:E.
  - split; [| discriminate]. intros H. exfalso. exact (runs_to_some_id t false E H).
  - split; [reflexivity |]. intros _. rewrite (runs_to_no_id t false E). reflexivity.
Qed.

Lemma to_id_normal_form_witness :
  to_id "Cote de Nuits" = "cote-de-nuits" /\ to_id "cote-de-nuits" = "cote-de-nuits".
Proof.
  split; [reflexivity |].
  apply (proj1 (proj2 (proj2 (to_id_normal_form "cote-de-nuits")))). reflexivity.
Defined.

End IdFacts.

(** ** The polygon client and the main loop of the polygon script *)

Module PolygonRun.
Import Py World Pipeline Polygons PolygonsMain PolygonTerms CacheTerms ClientFacts TierFacts.

Lemma polygon_search_hit net md q s cached :
  cache s !! lower (strip q) = Some cached ->
  search net md q s = (Return (list_or_empty cached), s).
Proof.
  intros H. unfold search.
  rewrite (bind_return get_state _ s s s) by reflexivity.
  rewrite H. reflexivity.
Qed.

Lemma polygon_search_miss net md q s j :
  cache s !! lower (strip q) = None ->
  reply_of net (length (sent s)) (PolygonSearch q) = Body (Json j) ->
  exists s', search net md q s = (Return (list_or_empty (stored j)), s')
             /\ cache s' = <[lower (strip q) := stored j]> (cache s)
             /\ sent s' = (sent s ++ [EvHttp (PolygonSearch q)])%list.
Proof.
  intros Hm H. unfold search.
  rewrite (bind_return get_state _ s s s) by reflexivity.
  rewrite Hm.
  destruct (throttle_quiet (nominatim_last s) md s) as (s1 & Ht & Hc1 & Hs1).
  rewrite (bind_return _ _ _ _ _ Ht).
  rewrite <- Hs1 in H. destruct (urlopen_body _ _ _ _ H) as (s2 & Hu & Hc2 & Hs2).
  rewrite (bind_return _ _ _ _ _ Hu).
  unfold bind, lift, touch_nominatim, set_cache, ret, stored. simpl.
  eexists. split; [reflexivity |]. split; [simpl; congruence |].
  unfold sent in *. simpl. congruence.
Qed.

Lemma polygon_search_raises net md q s :
  cache s !! lower (strip q) = None ->
  forall e,
  reply_of net (length (sent s)) (PolygonSearch q)
    = match e with JSONDecodeError => Body NotJson | _ => Fault e end
  \/ reply_of net (length (sent s)) (PolygonSearch q) = Fault e ->
  exists s', search net md q s = (Raise e, s')
             /\ cache s' = cache s
             /\ nominatim_last s' = nominatim_last s
             /\ sent s' = (sent s ++ [EvHttp (PolygonSearch q)])%list.
Proof.
  intros Hm e H. unfold search.
  rewrite (bind_return get_state _ s s s) by reflexivity.
  rewrite Hm.
  assert (Ht : exists s1, throttle (nominatim_last s) md s = (Return tt, s1)
             /\ cache s1 = cache s /\ sent s1 = sent s
             /\ nominatim_last s1 = nominatim_last s).
  { unfold throttle. destruct (Qlt_le_dec _ _).
    - eexists. split; [reflexivity |]. repeat split.
      unfold sent. simpl. apply sent_sleep.
    - eauto 6. }
  destruct Ht as (s1 & Ht & Hc1 & Hs1 & Hl1).
  rewrite (bind_return _ _ _ _ _ Ht). rewrite <- Hs1 in H.
  assert (Hcases : reply_of net (length (sent s1)) (PolygonSearch q) = Fault e
                   \/ (e = JSONDecodeError
                       /\ reply_of net (length (sent s1)) (PolygonSearch q) = Body NotJson)).
  { destruct H as [H | H]; [| auto]. destruct e; auto. }
  destruct Hcases as [Hf | [-> Hb]].
  - unfold bind, urlopen. rewrite Hf. eexists. split; [reflexivity |].
    simpl. repeat split; try congruence.
    unfold sent in *. simpl. rewrite sent_http. congruence.
  - unfold bind, urlopen. rewrite Hb. simpl. eexists. split; [reflexivity |].
    simpl. repeat split; try congruence.
    unfold sent in *. simpl. rewrite sent_http. congruence.
Qed.

Section Net.
Variable repr : json -> string.
Variables net net' : network.
Variables min_delay min_delay' : Q.

(** A search that returns leaves its answer in the cache. *)
Lemma polygon_search_post q s rs s' :
  search net min_delay q s = (Return rs, s') ->
  cache s ⊆ cache s'
  /\ exists cached, cache s' !! lower (strip q) = Some cached
                    /\ rs = list_or_empty cached.
Proof.
  intros H. destruct (cache s !! lower (strip q)) as [cached |] eqn:Hk.
  - rewrite (polygon_search_hit _ _ _ _ _ Hk) in H. injection H as <- <-.
    split; [reflexivity | eauto].
  - destruct (reply_of net (length (sent s)) (PolygonSearch q)) as [e | [| j]] eqn:Hr.
    + destruct (polygon_search_raises net min_delay q s Hk e (or_intror Hr))
        as (s1 & Hs & _). rewrite Hs in H. discriminate.
    + destruct (polygon_search_raises net min_delay q s Hk JSONDecodeError (or_introl Hr))
        as (s1 & Hs & _). rewrite Hs in H. discriminate.
    + destruct (polygon_search_miss net min_delay q s j Hk Hr) as (s1 & Hs & Hc & _).
      rewrite Hs in H. injection H as <- <-. split.
      * rewrite Hc. apply insert_subseteq. exact Hk.
      * exists (stored j). split; [rewrite Hc; apply lookup_insert_eq | reflexivity].
Qed.

Lemma polygon_search_replayable q q' :
  lower (strip q') = lower (strip q) ->
  replays (search net min_delay q) (search net' min_delay' q').
Proof.
  intros Hq s rs s' H. destruct (polygon_search_post _ _ _ _ H) as (Hsub & cached & Hc & ->).
  split; [exact Hsub |]. intros s2 Hs2. apply polygon_search_hit.
  rewrite Hq. eapply lookup_weaken; eauto.
Qed.

Lemma found_in_weaken c c' sr q o :
  found_in repr c sr q o -> c ⊆ c' -> found_in repr c' sr q o.
Proof.
  intros (cached & Hc & Hp) Hsub. exists cached. split; [| exact Hp].
  eapply lookup_weaken; eauto.
Qed.

Lemma select_polygon_post sr qs : forall s r s',
  select_polygon repr net min_delay sr qs s = (Return r, s') ->
  cache s ⊆ cache s'
  /\ match r with
     | Some (c, q) =>
         exists pre post, qs = (pre ++ q :: post)%list
           /\ Forall (fun q' => found_in repr (cache s') sr q' None) pre
           /\ found_in repr (cache s') sr q (Some c)
     | None => Forall (fun q' => found_in repr (cache s') sr q' None) qs
     end.
Proof.
  induction qs as [| q qs IH]; intros s r s' H; simpl in H.
  - injection H as <- <-. split; [reflexivity | constructor].
  - apply bind_inv in H as (rs & s1 & H1 & H).
    apply bind_inv in H as (sel & s2 & H2 & H).
    apply lift_inv in H2 as [H2 ->].
    destruct (polygon_search_post _ _ _ _ H1) as (Hsub & cached & Hc & ->).
    assert (Hf : found_in repr (cache s1) sr q sel) by (exists cached; auto).
    destruct sel as [c |].
    + injection H as <- <-. split; [exact Hsub |].
      exists [], qs. split; [reflexivity |]. split; [constructor | exact Hf].
    + destruct (IH _ _ _ H) as [Hsub' Hr]. split; [etrans; eassumption |].
      destruct r as [[c q0] |].
      * destruct Hr as (pre & post & -> & Hpre & Hq0).
        exists (q :: pre), post. split; [reflexivity |]. split; [| exact Hq0].
        constructor; [eapply found_in_weaken; eassumption | exact Hpre].
      * constructor; [eapply found_in_weaken; eassumption | exact Hr].
Qed.

Lemma matched_weaken c c' f : matched repr c f -> c ⊆ c' -> matched repr c' f.
Proof.
  intros (cand & pre & post & Hq & Hpre & Hf & He) Hsub.
  exists cand, pre, post. split; [exact Hq |]. split; [| split; [| exact He]].
  - eapply Forall_impl; [exact Hpre |]. intros q' Hq'.
    exact (found_in_weaken _ _ _ _ _ Hq' Hsub).
  - eapply found_in_weaken; eassumption.
Qed.

Lemma missed_weaken c c' sr : missed repr c sr -> c ⊆ c' -> missed repr c' sr.
Proof.
  intros H Hsub. eapply Forall_impl; [exact H |].
  intros q' Hq'. exact (found_in_weaken _ _ _ _ _ Hq' Hsub).
Qed.

Lemma fetch_polygons_post srs : forall fs0 ms0 s fs ms s',
  fetch_polygons repr net min_delay srs fs0 ms0 s = (Return (fs, ms), s') ->
  cache s ⊆ cache s'
  /\ exists fs1 ms1, fs = (fs0 ++ fs1)%list /\ ms = (ms0 ++ ms1)%list
       /\ srs ≡ₚ (map f_sub_region fs1 ++ ms1)%list
       /\ map f_sub_region fs1 `sublist_of` srs
       /\ ms1 `sublist_of` srs
       /\ Forall (matched repr (cache s')) fs1
       /\ Forall (missed repr (cache s')) ms1.
Proof.
  induction srs as [| sr srs IH]; intros fs0 ms0 s fs ms s' H; simpl in H.
  - injection H as <- <- <-. split; [reflexivity |].
    exists [], []. rewrite !app_nil_r. repeat split; constructor.
  - apply bind_inv in H as (sel & s1 & H1 & H).
    destruct (select_polygon_post sr (query_options sr) _ _ _ H1) as [Hsub Hsel].
    destruct sel as [[c q] |].
    + destruct (IH _ _ _ _ _ _ H) as (Hsub' & fs1 & ms1 & -> & -> & Hp & Hsf & Hsm & Hf & Hm).
      split; [etrans; eassumption |].
      exists (feature_of sr c q :: fs1), ms1.
      rewrite <- app_assoc. split; [reflexivity |]. split; [reflexivity |].
      split; [simpl; constructor; exact Hp |].
      split; [simpl; apply sublist_skip; exact Hsf |].
      split; [apply sublist_cons; exact Hsm |].
      split; [| exact Hm]. constructor; [| exact Hf].
      destruct Hsel as (pre & post & Hq & Hpre & Hq0).
      eapply matched_weaken; [| exact Hsub'].
      exists c, pre, post. simpl. auto.
    + destruct (IH _ _ _ _ _ _ H) as (Hsub' & fs1 & ms1 & -> & -> & Hp & Hsf & Hsm & Hf & Hm).
      split; [etrans; eassumption |].
      exists fs1, (sr :: ms1).
      rewrite <- app_assoc. split; [reflexivity |]. split; [reflexivity |].
      split; [rewrite <- Permutation_middle; constructor; exact Hp |].
      split; [apply sublist_cons; exact Hsf |].
      split; [apply sublist_skip; exact Hsm |].
      split; [exact Hf |]. constructor; [| exact Hm].
      eapply missed_weaken; [exact Hsel | exact Hsub'].
Qed.

Lemma select_polygon_replayable sr qs :
  replays (select_polygon repr net min_delay sr qs)
          (select_polygon repr net' min_delay' sr qs).
Proof.
  induction qs as [| q qs IH]; simpl; [apply Replay.replayable_ret |].
  apply Replay.replayable_bind; [apply polygon_search_replayable; reflexivity |].
  intros rs. apply Replay.replayable_bind; [apply Replay.replayable_lift |].
  intros [c |]; [apply Replay.replayable_ret | exact IH].
Qed.

Lemma fetch_polygons_replayable srs : forall fs0 ms0,
  replays (fetch_polygons repr net min_delay srs fs0 ms0)
          (fetch_polygons repr net' min_delay' srs fs0 ms0).
Proof.
  induction srs as [| sr srs IH]; intros fs0 ms0; cbn [fetch_polygons];
    [apply Replay.replayable_ret |].
  apply Replay.replayable_bind; [apply select_polygon_replayable |].
  intros [[c q] |]; apply IH.
Qed.

End Net.
End PolygonRun.

(** ** Properties of the polygon script *)

Module PolygonScript.
Import Py World Pipeline Polygons PolygonsMain PolygonTerms CacheTerms ClientFacts
       TierFacts PolygonRun Samples.

(** X12.  The polygon client.  A search that returns has only added to the
    cache, and any later search whose query differs at most in case and
    surrounding white space returns the same list from any state that has
    those entries, without a request and whatever the network.  A search
    that raises has sent one request that failed in transport, or was
    answered with text that is no JSON; it leaves the cache and the time of
    the last request as they were. *)
Theorem polygon_search_outcomes
    (net net' : network) (min_delay min_delay' : Q) (q q' : string)
    (s : state) (o : res (list json)) (s' : state) :
  search net min_delay q s = (o, s') ->
  lower (strip q') = lower (strip q) ->
  match o with
  | Return rs =>
      cache s ⊆ cache s'
      /\ (forall s2, cache s' ⊆ cache s2 -> search net' min_delay' q' s2 = (Return rs, s2))
  | Raise e =>
      cache s' = cache s /\ nominatim_last s' = nominatim_last s
      /\ sent s' = (sent s ++ [EvHttp (PolygonSearch q)])%list
      /\ (reply_of net (length (sent s)) (PolygonSearch q) = Fault e
          \/ (e = JSONDecodeError
              /\ reply_of net (length (sent s)) (PolygonSearch q) = Body NotJson))
  end.
Proof.
  intros H Hq. destruct o as [rs | e].
  - exact (polygon_search_replayable net net' min_delay min_delay' q q' Hq s rs s' H).
  - destruct (cache s !! lower (strip q)) as [cached |] eqn:Hk.
    + rewrite (polygon_search_hit _ _ _ _ _ Hk) in H. discriminate.
    + destruct (reply_of net (length (sent s)) (PolygonSearch q)) as [e' | [| j]] eqn:Hr.
      * destruct (polygon_search_raises net min_delay q s Hk e' (or_intror Hr))
          as (s1 & Hs & Hc & Hl & Hsent).
        rewrite Hs in H. injection H as <- <-. auto.
      * destruct (polygon_search_raises net min_delay q s Hk JSONDecodeError (or_introl Hr))
          as (s1 & Hs & Hc & Hl & Hsent).
        rewrite Hs in H. injection H as <- <-. auto 6.
      * destruct (polygon_search_miss net min_delay q s j Hk Hr) as (s1 & Hs & _).
        rewrite Hs in H. discriminate.
Qed.

Lemma polygon_search_outcomes_witness :
  search timeout_net 0 "  CHABLIS, burgundy, France "
         (snd (search polygon_net 1 "Chablis, Burgundy, France" fresh))
  = (Return [polygon_item "Chablis, Yonne, Bourgogne, France"],
     snd (search polygon_net 1 "Chablis, Burgundy, France" fresh)).
Proof.
  apply (proj2 (polygon_search_outcomes polygon_net timeout_net 1 0
                  "Chablis, Burgundy, France" "  CHABLIS, burgundy, France "
                  fresh (Return [polygon_item "Chablis, Yonne, Bourgogne, France"]) _
                  eq_refl eq_refl)).
  reflexivity.
Defined.

(** X13.  The main loop of the polygon script.  When it completes, every
    sub-region is either the sub-region of exactly one feature or listed as
    missing, both in the order of the input, so matched and missing add up
    to the total.  A feature is built from the polygon chosen for the first
    of the three phrasings of its sub-region for which the cache, as the
    loop leaves it, holds a polygon; for a missing sub-region the cache
    holds an answer without a polygon for all three. *)
Theorem fetch_polygons_partition
    (repr : json -> string) (net : network) (min_delay : Q)
    (sub_regions : list string) (s : state)
    (features : list feature) (missing : list string) (s' : state) :
  fetch_polygons repr net min_delay sub_regions [] [] s = (Return (features, missing), s') ->
  (length features + length missing = length sub_regions)%nat
  /\ sub_regions ≡ₚ (map f_sub_region features ++ missing)%list
  /\ map f_sub_region features `sublist_of` sub_regions
  /\ missing `sublist_of` sub_regions
  /\ Forall (matched repr (cache s')) features
  /\ Forall (missed repr (cache s')) missing.
Proof.
  intros H.
  destruct (fetch_polygons_post repr net min_delay sub_regions [] [] s _ _ _ H)
    as (_ & fs1 & ms1 & -> & -> & Hp & Hsf & Hsm & Hf & Hm).
  simpl. split; [| auto 6].
  rewrite Hp, length_app, length_map. reflexivity.
Qed.

Lemma fetch_polygons_partition_witness :
  exists f,
    fst (fetch_polygons plain_repr polygon_net 1 ["Chablis"; "Nowhere"] [] [] fresh)
    = Return ([f], ["Nowhere"])
    /\ f_query f = "Chablis, Burgundy, France"
    /\ ["Chablis"; "Nowhere"] ≡ₚ (map f_sub_region [f] ++ ["Nowhere"])%list.
Proof.
  destruct (fetch_polygons plain_repr polygon_net 1 ["Chablis"; "Nowhere"] [] [] fresh)
    as [o s'] eqn:E.
  assert (Ho : exists f, o = Return ([f], ["Nowhere"])
                         /\ f_query f = "Chablis, Burgundy, France").
  { apply (f_equal fst) in E. simpl in E. rewrite <- E. vm_compute. eauto. }
  destruct Ho as (f & -> & Hq). exists f. split; [reflexivity |]. split; [exact Hq |].
  exact (proj1 (proj2 (fetch_polygons_partition plain_repr polygon_net 1
                         ["Chablis"; "Nowhere"] fresh [f] ["Nowhere"] s' E))).
Defined.

(** X14.  A polygon run that completes has only added entries to the
    cache, and a later run over the same sub-regions, from any state whose
    cache has those entries, gives the same features and the same missing
    names without a request, whatever the network and the delay. *)
Theorem fetch_polygons_replays_from_cache
    (repr : json -> string) (net net' : network) (min_delay min_delay' : Q)
    (sub_regions : list string) (s : state)
    (r : list feature * list string) (s' : state) :
  fetch_polygons repr net min_delay sub_regions [] [] s = (Return r, s') ->
  cache s ⊆ cache s'
  /\ (forall s2, cache s' ⊆ cache s2 ->
        fetch_polygons repr net' min_delay' sub_regions [] [] s2 = (Return r, s2)).
Proof. apply fetch_polygons_replayable. Qed.

Lemma fetch_polygons_replays_from_cache_witness :
  fetch_polygons plain_repr timeout_net 0 ["Chablis"; "Nowhere"] [] []
    (snd (fetch_polygons plain_repr polygon_net 1 ["Chablis"; "Nowhere"] [] [] fresh))
  = (fst (fetch_polygons plain_repr polygon_net 1 ["Chablis"; "Nowhere"] [] [] fresh),
     snd (fetch_polygons plain_repr polygon_net 1 ["Chablis"; "Nowhere"] [] [] fresh)).
Proof.
  destruct (fetch_polygons plain_repr polygon_net 1 ["Chablis"; "Nowhere"] [] [] fresh)
    as [o s'] eqn:E.
  assert (Ho : exists r, o = Return r).
  { apply (f_equal fst) in E. simpl in E. rewrite <- E. vm_compute. eauto. }
  destruct Ho as [r ->]. simpl.
  apply (proj2 (fetch_polygons_replays_from_cache plain_repr polygon_net timeout_net 1 0
                  ["Chablis"; "Nowhere"] fresh r s' E)).
  reflexivity.
Defined.

End PolygonScript.

(** ** The names the polygon script fetches *)

Module SubRegionNames.
Import Py World Pipeline Polygons PolygonsMain PolygonTerms TierFacts.

Lemma ascending_cons a l :
  ascending (a :: l) = match l with [] => true | b :: _ => String.leb a b end && ascending l.
Proof. destruct l; simpl; [reflexivity | reflexivity]. Qed.

Lemma insert_sorted_ascending x l :
  ascending l = true -> ascending (insert_sorted x l) = true.
Proof.
  induction l as [| y l IH]; [reflexivity |].
  rewrite ascending_cons. intros H. apply andb_true_iff in H as [Hhd Hl].
  cbn [insert_sorted]. destruct (String.leb x y) eqn:E.
  - rewrite ascending_cons, E, ascending_cons, Hhd, Hl. reflexivity.
  - assert (Hyx : String.leb y x = true).
    { destruct (String.leb_total x y) as [H | H]; [congruence | exact H]. }
    rewrite ascending_cons, (IH Hl), andb_true_r.
    destruct l as [| z l']; simpl; [exact Hyx |].
    destruct (String.leb x z); [exact Hyx | exact Hhd].
Qed.

Lemma sorted_ascending l : ascending (sorted l) = true.
Proof.
  induction l as [| x l IH]; [reflexivity |]. apply insert_sorted_ascending, IH.
Qed.

Section Repr.
Variable repr : json -> string.

Lemma row_names_spec rows : forall names,
  row_names repr rows = Return names ->
  forall n, In n names <-> n <> "" /\ exists d, In (JObj d) rows /\ n = name_of repr d.
Proof.
  induction rows as [| item rows IH]; intros names H n; simpl in H.
  - injection H as <-. simpl. split; [easy | intros (_ & d & [] & _)].
  - destruct item as [| | | | | d]; try discriminate. simpl in H. fold (name_of repr d) in H.
    destruct (row_names repr rows) as [names' | e]; [| discriminate]. simpl in H.
    injection H as <-. specialize (IH _ eq_refl n).
    destruct (String.eqb_spec (name_of repr d) "") as [E | E].
    + rewrite IH. split.
      * intros (Hn & d' & Hd & ->). split; [exact Hn |]. exists d'. simpl. auto.
      * intros (Hn & d' & [[= <-] | Hd] & ->); [congruence |]. split; [exact Hn | eauto].
    + simpl. rewrite IH. split.
      * intros [<- | (Hn & d' & Hd & ->)]; (split; [assumption |]).
        -- exists d. simpl. auto.
        -- exists d'. simpl. auto.
      * intros (Hn & d' & [[= <-] | Hd] & ->); [auto |]. right. split; [exact Hn | eauto].
Qed.

Lemma row_names_total rows :
  Forall (fun x => is_dict x = true) rows <-> exists names, row_names repr rows = Return names.
Proof.
  induction rows as [| item rows IH]; simpl.
  - split; [eauto | constructor].
  - split.
    + intros H. inversion H as [| ? ? Hd Hr]; subst. apply IH in Hr as [names ->].
      destruct item; try discriminate. simpl. eauto.
    + intros [names H]. destruct item; try discriminate. simpl in H.
      destruct (row_names repr rows) as [names' |]; [| discriminate].
      constructor; [reflexivity | apply IH; eauto].
Qed.

(** X15.  The names the polygon script fetches.  The list is made exactly
    when every row is an object ([AttributeError] otherwise).  It is in
    ascending order without duplicates, and holds exactly the stripped
    [sub_region] texts of the rows that are neither empty nor, in any
    casing, "unknown". *)
Theorem polygon_sub_regions_spec (rows : list json) :
  (Forall (fun x => is_dict x = true) rows
   <-> exists names, polygon_sub_regions repr rows = Return names)
  /\ (forall names, polygon_sub_regions repr rows = Return names ->
        List.NoDup names
        /\ ascending names = true
        /\ forall n, In n names <->
             n <> "" /\ lower n <> "unknown"
             /\ exists d, In (JObj d) rows /\ n = name_of repr d).
Proof.
  unfold polygon_sub_regions. split.
  - rewrite row_names_total. split; intros [names H].
    + rewrite H. simpl. eauto.
    + destruct (row_names repr rows) as [names' |]; [eauto | discriminate].
  - intros names H. destruct (row_names repr rows) as [names' |] eqn:E; [| discriminate].
    simpl in H. injection H as <-.
    split; [apply sorted_NoDup, NoDup_ListNoDup, NoDup_remove_dups |].
    split; [apply sorted_ascending |].
    intros n. rewrite sorted_In, <- list_elem_of_In, elem_of_remove_dups, list_elem_of_In.
    rewrite List.filter_In, (row_names_spec _ _ E n), negb_true_iff.
    destruct (String.eqb_spec (lower n) "unknown"); intuition congruence.
Qed.

End Repr.

Lemma polygon_sub_regions_spec_witness :
  polygon_sub_regions Samples.plain_repr sample_rows = Return ["Beaune"; "Chablis"]
  /\ List.NoDup ["Beaune"; "Chablis"].
Proof.
  split; [reflexivity |].
  apply (proj2 (polygon_sub_regions_spec Samples.plain_repr sample_rows)
               ["Beaune"; "Chablis"]).
  reflexivity.
Defined.

End SubRegionNames.

(** ** The producer summary: counters and groups *)

Module CounterFacts.
Import Py Enrich Pipeline SummaryTerms.

Lemma counter_incr_keys k c :
  map fst (counter_incr k c)
  = (map fst c ++ if existsb (String.eqb k) (map fst c) then [] else [k])%list.
Proof.
  induction c as [| [k' n] c IH]; simpl; [reflexivity |].
  destruct (String.eqb k k'); simpl; [rewrite app_nil_r; reflexivity |].
  rewrite IH. reflexivity.
Qed.

Lemma counter_incr_count k c k' :
  count_of (counter_incr k c) k'
  = (count_of c k' + if String.eqb k' k then 1 else 0)%nat.
Proof.
  unfold count_of. induction c as [| [k0 n] c IH]; simpl.
  - destruct (String.eqb k' k); reflexivity.
  - destruct (String.eqb_spec k k0) as [-> | Hk]; simpl.
    + destruct (String.eqb k' k0); simpl; lia.
    + destruct (String.eqb_spec k' k0) as [-> | Hk']; simpl; [| exact IH].
      destruct (String.eqb_spec k0 k); [congruence | lia].
Qed.

Lemma counter_from_count names : forall c k,
  count_of (fold_left (fun c k => counter_incr k c) names c) k
  = (count_of c k + occurrences k names)%nat.
Proof.
  unfold occurrences.
  induction names as [| x names IH]; intros c k; simpl; [lia |].
  rewrite IH, counter_incr_count. destruct (String.eqb k x); simpl; lia.
Qed.

Lemma counter_from_keys names : forall c,
  exists extra,
    map fst (fold_left (fun c k => counter_incr k c) names c) = (map fst c ++ extra)%list.
Proof.
  induction names as [| x names IH]; intros c; simpl.
  - exists []. rewrite app_nil_r. reflexivity.
  - destruct (IH (counter_incr x c)) as [extra ->]. rewrite counter_incr_keys.
    rewrite <- app_assoc. eauto.
Qed.

Lemma existsb_eqb_In k l : existsb (String.eqb k) l = true <-> In k l.
Proof.
  rewrite existsb_exists. split.
  - intros (x & Hx & E). apply String.eqb_eq in E. subst. exact Hx.
  - intros H. exists k. split; [exact H | apply String.eqb_refl].
Qed.

Lemma counter_incr_In k c x :
  In x (map fst (counter_incr k c)) <-> In x (map fst c) \/ x = k.
Proof.
  rewrite counter_incr_keys, in_app_iff.
  destruct (existsb (String.eqb k) (map fst c)) eqn:E.
  - apply existsb_eqb_In in E. simpl. split; [tauto |].
    intros [H | ->]; auto.
  - simpl. intuition.
Qed.

Lemma counter_from_In names : forall c x,
  In x (map fst (fold_left (fun c k => counter_incr k c) names c))
  <-> In x (map fst c) \/ In x names.
Proof.
  induction names as [| y names IH]; intros c x; simpl; [tauto |].
  rewrite IH, counter_incr_In. intuition.
Qed.

Lemma counter_incr_NoDup k c :
  List.NoDup (map fst c) -> List.NoDup (map fst (counter_incr k c)).
Proof.
  intros H. rewrite counter_incr_keys.
  destruct (existsb (String.eqb k) (map fst c)) eqn:E; [rewrite app_nil_r; exact H |].
  apply List.NoDup_app; [exact H | constructor; [easy | constructor] |].
  intros x Hx [<- | []]. apply existsb_eqb_In in Hx. congruence.
Qed.

Lemma counter_from_NoDup names : forall c,
  List.NoDup (map fst c) ->
  List.NoDup (map fst (fold_left (fun c k => counter_incr k c) names c)).
Proof.
  induction names as [| x names IH]; intros c H; simpl; [exact H |].
  apply IH, counter_incr_NoDup, H.
Qed.

Lemma count_of_entry c : List.NoDup (map fst c) ->
  forall k n, In (k, n) c -> count_of c k = n.
Proof.
  unfold count_of. induction c as [| [k0 n0] c IH]; simpl; intros Hnd k n; [easy |].
  inversion Hnd as [| ? ? Hk0 Hnd']; subst.
  intros [[= -> ->] | Hin]; [rewrite String.eqb_refl; reflexivity |].
  destruct (String.eqb_spec k k0) as [-> | Hk]; [| apply IH; assumption].
  exfalso. apply Hk0. apply (in_map fst) in Hin. exact Hin.
Qed.

Lemma count_of_absent c k : ~ In k (map fst c) -> count_of c k = 0%nat.
Proof.
  unfold count_of. induction c as [| [k0 n0] c IH]; simpl; intros H; [reflexivity |].
  destruct (String.eqb_spec k k0) as [-> | Hk]; [exfalso; auto | apply IH; auto].
Qed.

(** [most_common(1)]: the first entry of greatest count. *)
Lemma most_common_from_spec c : forall best,
  exists pre post,
    best :: c = (pre ++ most_common_from c best :: post)%list
    /\ (forall e, In e pre -> (snd e < snd (most_common_from c best))%nat)
    /\ (forall e, In e post -> (snd e <= snd (most_common_from c best))%nat).
Proof.
  induction c as [| [k n] c IH]; intros best; simpl.
  - exists [], []. split; [reflexivity |]. split; intros e [].
  - destruct (Nat.ltb_spec (snd best) n) as [Hlt | Hge].
    + destruct (IH (k, n)) as (pre & post & Heq & Hpre & Hpost).
      exists (best :: pre), post. split; [simpl; rewrite <- Heq; reflexivity |].
      split; [| exact Hpost].
      intros e [<- | He]; [| apply Hpre, He].
      destruct pre as [| e0 pre]; simpl in Heq.
      * injection Heq as Heq _. rewrite <- Heq. exact Hlt.
      * injection Heq as He0 _. subst e0. specialize (Hpre (k, n) (or_introl eq_refl)).
        simpl in Hpre. lia.
    + destruct (IH best) as (pre & post & Heq & Hpre & Hpost).
      destruct pre as [| e0 pre]; simpl in Heq.
      * injection Heq as Heq Hc. exists [], ((k, n) :: c).
        split; [simpl; rewrite <- Heq; reflexivity |].
        split; [intros e [] |].
        intros e [<- | He]; [rewrite <- Heq; exact Hge | rewrite <- Hc in Hpost; apply Hpost, He].
      * injection Heq as <- Hc. exists (best :: (k, n) :: pre), post.
        split; [simpl; rewrite <- Hc; reflexivity |]. split; [| exact Hpost].
        intros e [<- | [<- | He]].
        -- apply Hpre. left. reflexivity.
        -- specialize (Hpre best (or_introl eq_refl)). simpl. lia.
        -- apply Hpre. right. exact He.
Qed.

Lemma first_occurrence (x : string) l :
  In x l -> exists l1 l2, l = (l1 ++ x :: l2)%list /\ ~ In x l1.
Proof.
  induction l as [| y l IH]; [easy |].
  destruct (String.eqb_spec x y) as [-> | Hxy].
  - intros _. exists [], l. auto.
  - intros [-> | H]; [congruence |]. destruct (IH H) as (l1 & l2 & -> & Hn).
    exists (y :: l1), l2. split; [reflexivity |]. intros [-> | H']; auto.
Qed.

Lemma split_unique (x : string) l1 : forall l2 l1' l2',
  ~ In x l1 -> ~ In x l1' ->
  (l1 ++ x :: l2 = l1' ++ x :: l2')%list -> l1 = l1'.
Proof.
  induction l1 as [| a l1 IH]; intros l2 l1' l2' H1 H1' E.
  - destruct l1' as [| b l1']; [reflexivity |]. injection E as <- _.
    exfalso. apply H1'. left. reflexivity.
  - destruct l1' as [| b l1']; simpl in E.
    + injection E as -> _. exfalso. apply H1. left. reflexivity.
    + injection E as <- E. f_equal. apply (IH l2 l1' l2'); [| | exact E].
      * intros H. apply H1. right. exact H.
      * intros H. apply H1'. right. exact H.
Qed.

Lemma Counter_keys names x : In x (map fst (Counter names)) <-> In x names.
Proof. unfold Counter. rewrite counter_from_In. simpl. tauto. Qed.

Lemma Counter_count names k : count_of (Counter names) k = occurrences k names.
Proof. unfold Counter. rewrite counter_from_count. reflexivity. Qed.

Lemma Counter_NoDup names : List.NoDup (map fst (Counter names)).
Proof. apply counter_from_NoDup. constructor. Qed.

(** X16.  The primary sub-region of a producer is the name that occurs
    most often among the sub-regions of the producer's wines, and of
    several that occur equally often the one that occurs first; without
    any name it is the empty text. *)
Theorem primary_of_most_frequent (names : list string) :
  (names = [] -> primary_of (Counter names) = "")
  /\ (names <> [] ->
      exists pre post,
        names = (pre ++ primary_of (Counter names) :: post)%list
        /\ ~ In (primary_of (Counter names)) pre
        /\ (forall n, (occurrences n names <= occurrences (primary_of (Counter names)) names)%nat)
        /\ (forall n, In n pre ->
              (occurrences n names < occurrences (primary_of (Counter names)) names)%nat)).
Proof.
  split; [intros ->; reflexivity |]. intros Hne.
  pose proof (Counter_NoDup names) as Hnd.
  destruct (Counter names) as [| e c] eqn:Ec.
  { destruct names as [| x names]; [congruence |].
    assert (H : In x (map fst (Counter (x :: names)))) by (apply Counter_keys; left; auto).
    rewrite Ec in H. destruct H. }
  unfold primary_of, most_common_1.
  destruct (most_common_from_spec c e) as (cpre & cpost & Heq & Hpre & Hpost).
  destruct (most_common_from c e) as [p np]. simpl in Hpre, Hpost.
  assert (Hp : In p names).
  { apply Counter_keys. rewrite Ec, Heq, map_app, in_app_iff. right. left. reflexivity. }
  destruct (first_occurrence p names Hp) as (pre & post & Hnames & Hnp).
  assert (Hcount : forall k n, In (k, n) (e :: c) -> n = occurrences k names).
  { intros k n Hin. rewrite <- Counter_count, Ec. symmetry.
    apply count_of_entry; assumption. }
  assert (Hnp_eq : np = occurrences p names).
  { apply Hcount. rewrite Heq, in_app_iff. right. left. reflexivity. }
  assert (Hkeys : map fst cpre = map fst (Counter pre)).
  { destruct (counter_from_keys post (counter_incr p (Counter pre))) as [extra Hx].
    assert (E : map fst (e :: c)
                = (map fst (Counter pre) ++ p :: extra)%list).
    { rewrite <- Ec, Hnames. unfold Counter at 1. rewrite fold_left_app. simpl.
      fold (Counter pre). rewrite Hx, counter_incr_keys.
      destruct (existsb (String.eqb p) (map fst (Counter pre))) eqn:Ex.
      - apply (proj1 (existsb_eqb_In _ _)) in Ex.
        apply (proj1 (Counter_keys _ _)) in Ex. contradiction.
      - rewrite <- app_assoc. reflexivity. }
    rewrite Heq, map_app in E. simpl in E.
    apply (split_unique p _ _ _ _) in E; [exact E | |].
    - rewrite Heq, map_app in Hnd. simpl in Hnd.
      apply List.NoDup_remove_2 in Hnd. intros H. apply Hnd, in_app_iff. auto.
    - rewrite Counter_keys. exact Hnp. }
  exists pre, post. split; [exact Hnames |]. split; [exact Hnp |].
  rewrite <- Hnp_eq. split.
  - intros n. destruct (in_dec string_dec n (map fst (e :: c))) as [Hin | Hout].
    + apply in_map_iff in Hin as ([k m] & <- & Hin). simpl.
      rewrite <- (Hcount _ _ Hin). rewrite Heq in Hin.
      apply in_app_iff in Hin as [Hin | [[= -> ->] | Hin]].
      * specialize (Hpre _ Hin). simpl in Hpre. lia.
      * lia.
      * apply (Hpost _ Hin).
    + rewrite <- Counter_count, Ec, (count_of_absent _ _ Hout). lia.
  - intros n Hn. apply Counter_keys in Hn. rewrite <- Hkeys in Hn.
    apply in_map_iff in Hn as ([k m] & <- & Hin). simpl.
    rewrite <- (Hcount k m); [apply (Hpre _ Hin) |].
    rewrite Heq, in_app_iff. auto.
Qed.

Lemma primary_of_most_frequent_witness :
  exists pre post,
    ["Beaune"; "Chablis"; "Chablis"; "Beaune"; "Meursault"]
    = (pre ++ "Beaune" :: post)%list /\ ~ In "Beaune" pre.
Proof.
  destruct (proj2 (primary_of_most_frequent
                     ["Beaune"; "Chablis"; "Chablis"; "Beaune"; "Meursault"]))
    as (pre & post & H1 & H2 & _); [discriminate |].
  exists pre, post. split; [exact H1 | exact H2].
Defined.

End CounterFacts.

Module GroupFacts.
Import Py Enrich Pipeline SummaryTerms.

Lemma group_by_producer_from items : forall acc m,
  group_by_producer items acc = Return m ->
  forall p,
    m !! p =
    if String.eqb p "" then acc !! p
    else match List.filter (by_producer p) items with
         | [] => acc !! p
         | l => Some (default [] (acc !! p) ++ l)%list
         end.
Proof.
  induction items as [| item items IH]; intros acc m H p; simpl in H.
  - injection H as <-. simpl. destruct (String.eqb p ""); reflexivity.
  - simpl. unfold by_producer at 1.
    destruct (norm_text (get item "producer")) as [t | e]; [| discriminate]. simpl in H.
    destruct (String.eqb t "") eqn:Et.
    + apply String.eqb_eq in Et. subst t.
      rewrite (IH _ _ H p). rewrite (String.eqb_sym "" p).
      destruct (String.eqb p ""); reflexivity.
    + apply String.eqb_neq in Et.
      rewrite (IH _ _ H p). destruct (String.eqb p "") eqn:Ep.
      * apply String.eqb_eq in Ep. subst p.
        rewrite lookup_insert_ne by exact Et. reflexivity.
      * destruct (String.eqb t p) eqn:Etp.
        -- apply String.eqb_eq in Etp. subst t. rewrite lookup_insert_eq. simpl.
           destruct (List.filter (by_producer p) items); [reflexivity |].
           rewrite <- app_assoc. reflexivity.
        -- apply String.eqb_neq in Etp.
           rewrite lookup_insert_ne by exact Etp. reflexivity.
Qed.

(** X17.  The wines of each producer.  Under a producer's normalised name
    the grouping holds exactly the wines of that producer, each once and
    in the order of the input; a producer has an entry only if it has a
    wine, and wines without a producer enter no group.  So the groups
    together hold each wine with a producer exactly once. *)
Theorem group_by_producer_groups (items : list dict) (m : gmap string (list dict)) :
  group_by_producer items ∅ = Return m ->
  (forall p, m !! p =
             if String.eqb p "" then None
             else match List.filter (by_producer p) items with
                  | [] => None
                  | l => Some l
                  end)
  /\ (forall p l, m !! p = Some l ->
        p <> "" /\ l <> [] /\ l = List.filter (by_producer p) items).
Proof.
  intros H.
  assert (Hall : forall p, m !! p =
             if String.eqb p "" then None
             else match List.filter (by_producer p) items with
                  | [] => None
                  | l => Some l
                  end).
  { intros p. rewrite (group_by_producer_from _ _ _ H p), lookup_empty. reflexivity. }
  split; [exact Hall |]. intros p l Hl. rewrite Hall in Hl.
  destruct (String.eqb_spec p ""); [discriminate |].
  destruct (List.filter (by_producer p) items); [discriminate |].
  injection Hl as <-. split; [assumption |]. split; [discriminate | reflexivity].
Qed.

Lemma group_by_producer_groups_witness :
  exists m, group_by_producer Samples.sample_items ∅ = Return m
            /\ m !! "Solo" = Some [[("id", JNum 2); ("sub_region", JStr "Nowhere");
                                    ("producer", JStr "Solo")]].
Proof.
  destruct (group_by_producer Samples.sample_items ∅) as [m | e] eqn:E;
    [| vm_compute in E; discriminate].
  exists m. split; [reflexivity |].
  exact (eq_trans (proj1 (group_by_producer_groups Samples.sample_items m E) "Solo")
                  eq_refl).
Defined.

End GroupFacts.

(** ** The rate limit *)

Module RateLimit.
Import Py World Pipeline ClientFacts.
Local Open Scope Q_scope.

(** After the rate limit the clock stands at the later of now and the
    end of the delay. *)
Lemma throttle_clock last md s :
  exists s', throttle last md s = (Return tt, s')
    /\ cache s' = cache s /\ sent s' = sent s
    /\ nominatim_last s' = nominatim_last s /\ wikidata_last s' = wikidata_last s
    /\ now s' == Qmax (now s) (last + md).
Proof.
  unfold throttle. destruct (Qlt_le_dec _ _) as [Hlt | Hge].
  - eexists. split; [reflexivity |]. simpl. repeat split.
    + unfold sent. simpl. apply sent_sleep.
    + rewrite Qred_correct in Hlt. rewrite !Qred_correct.
      rewrite Q.max_r by lra. lra.
  - exists s. repeat split. rewrite Qred_correct in Hge.
    rewrite Q.max_l by lra. reflexivity.
Qed.

Section Net.
Variable net : network.

Lemma request_clock (r : request) (last md : Q) (s : state) :
  exists s1 s2,
    throttle last md s = (Return tt, s1)
    /\ urlopen net r s1
       = (match reply_of net (length (sent s)) r with
          | Fault e => Raise e
          | Body b => Return b
          end, s2)
    /\ nominatim_last s2 = nominatim_last s /\ wikidata_last s2 = wikidata_last s
    /\ now s2 == Qmax (now s) (last + md) + latency net (length (sent s)) r.
Proof.
  destruct (throttle_clock last md s) as (s1 & Ht & _ & Hs1 & Hn1 & Hw1 & Hc1).
  exists s1. eexists. split; [exact Ht |]. unfold urlopen. rewrite Hs1.
  split; [destruct (reply_of net (length (sent s)) r); reflexivity |].
  simpl. split; [exact Hn1 |]. split; [exact Hw1 |].
  rewrite Qred_correct, Hc1. reflexivity.
Qed.

(** X18.  The rate limit of the two clients of the enrichment script.  A
    request leaves at the later of the present time and [min_delay] after
    the client's last answered request, so never earlier than [min_delay]
    after it.  An answer, JSON or not, sets the client's [last_request] to
    the time it arrived; a request that fails in transport leaves it as it
    was.  Neither client touches the other's [last_request]. *)
Theorem requests_keep_min_delay
    (min_delay wikidata_min_delay : Q) (q : string) (r : request) (s : state) :
  (forall o s', nominatim_request net min_delay q s = (o, s') ->
     now s' == Qmax (now s) (nominatim_last s + min_delay)
               + latency net (length (sent s)) (NominatimSearch q)
     /\ nominatim_last s + min_delay
        <= now s' - latency net (length (sent s)) (NominatimSearch q)
     /\ nominatim_last s' = match o with
                            | Return _ => now s'
                            | Raise _ => nominatim_last s
                            end
     /\ wikidata_last s' = wikidata_last s)
  /\ (forall o s', wikidata_request_json net wikidata_min_delay r s = (o, s') ->
     now s' == Qmax (now s) (wikidata_last s + wikidata_min_delay)
               + latency net (length (sent s)) r
     /\ wikidata_last s + wikidata_min_delay
        <= now s' - latency net (length (sent s)) r
     /\ wikidata_last s' = match o with
                           | Return _ => now s'
                           | Raise _ => wikidata_last s
                           end
     /\ nominatim_last s' = nominatim_last s).
Proof.
  split; intros o s' H.
  - destruct (request_clock (NominatimSearch q) (nominatim_last s) min_delay s)
      as (s1 & s2 & Ht & Hu & Hn & Hw & Hc).
    unfold nominatim_request in H.
    rewrite (bind_return get_state _ s s s) in H by reflexivity.
    rewrite (bind_return _ _ _ _ _ Ht) in H.
    assert (Hle : nominatim_last s + min_delay
                  <= now s2 - latency net (length (sent s)) (NominatimSearch q)).
    { rewrite Hc. pose proof (Q.le_max_r (now s) (nominatim_last s + min_delay)). lra. }
    destruct (reply_of net (length (sent s)) (NominatimSearch q)) as [e | b].
    + rewrite (bind_raise _ _ _ _ _ Hu) in H. injection H as <- <-. auto.
    + rewrite (bind_return _ _ _ _ _ Hu) in H.
      unfold bind, touch_nominatim, lift, ret in H.
      destruct b as [| j]; simpl in H; [| destruct (is_list j); simpl in H];
        injection H as <- <-; simpl; auto.
  - destruct (request_clock r (wikidata_last s) wikidata_min_delay s)
      as (s1 & s2 & Ht & Hu & Hn & Hw & Hc).
    unfold wikidata_request_json in H.
    rewrite (bind_return get_state _ s s s) in H by reflexivity.
    rewrite (bind_return _ _ _ _ _ Ht) in H.
    assert (Hle : wikidata_last s + wikidata_min_delay
                  <= now s2 - latency net (length (sent s)) r).
    { rewrite Hc. pose proof (Q.le_max_r (now s) (wikidata_last s + wikidata_min_delay)). lra. }
    destruct (reply_of net (length (sent s)) r) as [e | b].
    + rewrite (bind_raise _ _ _ _ _ Hu) in H. injection H as <- <-. auto.
    + rewrite (bind_return _ _ _ _ _ Hu) in H.
      unfold bind, touch_wikidata, lift in H.
      destruct b as [| j]; simpl in H; injection H as <- <-; simpl; auto.
Qed.

End Net.

Lemma requests_keep_min_delay_witness :
  nominatim_last (snd (nominatim_request Samples.timeout_net 1.1 "Chablis" Samples.fresh)) = 0.
Proof.
  exact (proj1 (proj2 (proj2
    (proj1 (requests_keep_min_delay Samples.timeout_net 1.1 0.25 "Chablis"
              (WikidataSearch "Chablis") Samples.fresh)
           (Raise TimeoutError) _ eq_refl)))).
Defined.

End RateLimit.

(** ** The price summary *)

Module SummaryFacts.
Import Py Summary NumFacts.
Local Open Scope Q_scope.

Lemma round_half_even_mono (x y : Q) :
  x <= y -> (round_half_even x <= round_half_even y)%Z.
Proof.
  intros Hxy. unfold round_half_even.
  pose proof (Qfloor_resp_le _ _ Hxy) as Hf.
  pose proof (Qfloor_le x) as Hx1. pose proof (Qlt_floor x) as Hx2.
  pose proof (Qfloor_le y) as Hy1. pose proof (Qlt_floor y) as Hy2.
  rewrite inject_Z_plus in Hx2, Hy2.
  destruct (Z.eq_dec (Qfloor x) (Qfloor y)) as [E | E].
  - rewrite E in *.
    destruct (Qcompare_spec (x - inject_Z (Qfloor y)) (1 # 2));
      destruct (Qcompare_spec (y - inject_Z (Qfloor y)) (1 # 2));
      destruct (Z.even (Qfloor y)); try lia; exfalso; lra.
  - destruct (Qcompare_spec (x - inject_Z (Qfloor x)) (1 # 2));
      destruct (Qcompare_spec (y - inject_Z (Qfloor y)) (1 # 2));
      destruct (Z.even (Qfloor x)); destruct (Z.even (Qfloor y)); lia.
Qed.

Lemma round2_mono (x y : Q) : x <= y -> round2 x <= round2 y.
Proof.
  intros H. unfold round2.
  assert (H' : x * 100 <= y * 100) by lra.
  apply round_half_even_mono in H'. unfold Qle. simpl. lia.
Qed.

Lemma min_of_le rest : forall first,
  min_of first rest <= first /\ (forall v, In v rest -> min_of first rest <= v).
Proof.
  unfold min_of. induction rest as [| x rest IH]; intros first; simpl.
  - split; [lra | easy].
  - destruct (IH (py_min first x)) as [H1 H2].
    pose proof (py_min_l first x). pose proof (py_min_r first x).
    split; [lra |]. intros v [<- | Hv]; [lra | auto].
Qed.

Lemma max_of_ge rest : forall first,
  first <= max_of first rest /\ (forall v, In v rest -> v <= max_of first rest).
Proof.
  unfold max_of. induction rest as [| x rest IH]; intros first; simpl.
  - split; [lra | easy].
  - destruct (IH (py_max first x)) as [H1 H2].
    pose proof (py_max_l first x). pose proof (py_max_r first x).
    split; [lra |]. intros v [<- | Hv]; [lra | auto].
Qed.

Lemma min_of_In rest : forall first, In (min_of first rest) (first :: rest).
Proof.
  unfold min_of. induction rest as [| x rest IH]; intros first; simpl; [auto |].
  destruct (IH (py_min first x)) as [H | H]; [| auto].
  rewrite <- H. unfold py_min. destruct (Qlt_le_dec x first); auto.
Qed.

Lemma sum_bounds (lo hi : Q) l :
  (forall v, In v l -> lo <= v <= hi) ->
  lo * inject_Z (Z.of_nat (length l)) <= fold_right Qplus 0 l
  /\ fold_right Qplus 0 l <= hi * inject_Z (Z.of_nat (length l)).
Proof.
  induction l as [| x l IH]; intros H.
  - change (inject_Z (Z.of_nat (length (@nil Q)))) with 0.
    change (fold_right Qplus 0 []) with 0. split; lra.
  - destruct IH as [IH1 IH2]; [intros v Hv; apply H; right; exact Hv |].
    destruct (H x (or_introl eq_refl)) as [Hx1 Hx2].
    cbn [length fold_right]. rewrite Nat2Z.inj_succ, <- Z.add_1_r, inject_Z_plus.
    change (inject_Z 1) with 1. split; lra.
Qed.

Lemma mean_bounds (lo hi : Q) l :
  l <> [] -> (forall v, In v l -> lo <= v <= hi) -> lo <= mean l <= hi.
Proof.
  intros Hne H. destruct (sum_bounds lo hi l H) as [H1 H2]. unfold mean.
  assert (Hpos : 0 < inject_Z (Z.of_nat (length l))).
  { destruct l; [congruence |]. unfold Qlt. simpl. lia. }
  split; [apply Qle_shift_div_l | apply Qle_shift_div_r]; assumption.
Qed.

Lemma is_positive_spec v : is_positive v = true <-> 0 < v.
Proof.
  unfold is_positive. destruct (Qlt_le_dec 0 v); split; try easy. lra.
Qed.

(** X19.  The price summary.  It is empty exactly when no value is
    positive.  Otherwise its average lies between its minimum and its
    maximum, the minimum is not negative, and every positive value,
    rounded to two places, lies between the two. *)
Theorem summarize_numeric_bounds (values : list Q) :
  (summarize_numeric values = None <-> forall v, In v values -> v <= 0)
  /\ (forall r, summarize_numeric values = Some r ->
        0 <= s_min r
        /\ s_min r <= s_avg r <= s_max r
        /\ (forall v, In v values -> 0 < v -> s_min r <= round2 v <= s_max r)).
Proof.
  unfold summarize_numeric.
  assert (Hclean : forall v, In v (List.filter is_positive values) <-> In v values /\ 0 < v).
  { intros v. rewrite List.filter_In, is_positive_spec. reflexivity. }
  destruct (List.filter is_positive values) as [| first rest] eqn:E.
  - split; [| discriminate]. split; [| reflexivity].
    intros _ v Hv. destruct (Qlt_le_dec 0 v) as [Hp | Hn]; [| exact Hn].
    destruct (proj2 (Hclean v) (conj Hv Hp)).
  - split.
    { split; [discriminate |]. intros H. exfalso.
      destruct (proj1 (Hclean first) (or_introl eq_refl)) as [Hin Hp].
      specialize (H _ Hin). lra. }
    intros r [= <-]. simpl.
    destruct (min_of_le rest first) as [Hm1 Hm2].
    destruct (max_of_ge rest first) as [HM1 HM2].
    assert (Hall : forall v, In v (first :: rest) ->
                             min_of first rest <= v <= max_of first rest).
    { intros v [<- | Hv]; split; auto. }
    split; [| split].
    + apply Qle_trans with (round2 0); [vm_compute; discriminate |]. apply round2_mono.
      destruct (proj1 (Hclean _) (min_of_In rest first)) as [_ Hp]. lra.
    + destruct (mean_bounds _ _ (first :: rest) ltac:(discriminate) Hall).
      split; apply round2_mono; assumption.
    + intros v Hv Hp. destruct (Hall v (proj2 (Hclean v) (conj Hv Hp))).
      split; apply round2_mono; assumption.
Qed.

Lemma summarize_numeric_bounds_witness :
  summarize_numeric [129.9; 0; 89.5; -1] = Some (mkSummary 89.50 129.90 109.70)
  /\ 89.50 <= 109.70 <= 129.90.
Proof.
  split; [vm_compute; reflexivity |].
  exact (proj1 (proj2 (proj2 (summarize_numeric_bounds [129.9; 0; 89.5; -1])
                         (mkSummary 89.50 129.90 109.70) eq_refl))).
Defined.

End SummaryFacts.
